(** * silero-vad-go: the speech detector (speech/detector.go, speech/infer.go)

    A shallow embedding of the [Detector] of package [speech]: the window
    accumulator, the hysteresis trigger ([advanceSpeech]), the two segment
    assemblers ([Detect], [DetectStream]), [Infer] and [Reset].

    Modelling conventions.
    - Go's [int] is the 64-bit two's complement integer: a [Z] kept in range
      by [GoInt.wrap] after every addition, subtraction and multiplication.
      Indices into a slice that is held in memory are compared with its
      length, which always fits.
    - [float32] and [float64] values are modelled by exact rationals ([Q]);
      comparisons are the rational ones.  Rounding, infinities and NaN are
      outside the model.
    - The ONNX runtime session is the section variable [ort_run]: a
      deterministic, possibly failing function of the input tensor, the
      recurrent state and the sample rate.  Native handles, tensor shapes,
      C strings and logging are not modelled.
    - A method on [*Detector] takes the detector and returns the updated
      detector next to the Go results; the nil-receiver guard is omitted. *)

From Stdlib Require Import String ZArith QArith List Bool Lia.
#[local] Set Warnings "-stdlib-vector".
From Stdlib Require Vector.
Import ListNotations.

Local Open Scope Z_scope.

(** ** Go's [int] *)

Module GoInt.

Definition min_int : Z := - 2 ^ 63.
Definition max_int : Z := 2 ^ 63 - 1.

Definition wrap (z : Z) : Z := (z + 2 ^ 63) mod 2 ^ 64 - 2 ^ 63.

Definition add (a b : Z) : Z := wrap (a + b).
Definition sub (a b : Z) : Z := wrap (a - b).
Definition mul (a b : Z) : Z := wrap (a * b).
(** Go's [/] truncates toward zero. *)
Definition quot (a b : Z) : Z := wrap (Z.quot a b).

Definition in_range (z : Z) : Prop := min_int <= z <= max_int.

End GoInt.

(** ** Floating-point values *)

Definition F32 := Q.
Definition F64 := Q.

Definition Qltb (x y : Q) : bool := negb (Qle_bool y x).
Definition Qgeb (x y : Q) : bool := Qle_bool y x.

(** [float64(n)] for an [int] [n]. *)
Definition float64_of_int (n : Z) : F64 := inject_Z n.

(** The untyped constant [0.15] of [advanceSpeech]. *)
Definition releaseGap : F32 := 15 # 100.

(** ** Slices *)

Definition len {A} (l : list A) : Z := Z.of_nat (length l).

(** [s[lo:hi]] *)
Definition slice {A} (s : list A) (lo hi : Z) : list A :=
  firstn (Z.to_nat (hi - lo)) (skipn (Z.to_nat lo) s).

(** [s[lo:]] and [s[:hi]] *)
Definition slice_from {A} (s : list A) (lo : Z) : list A := skipn (Z.to_nat lo) s.
Definition slice_to {A} (s : list A) (hi : Z) : list A := firstn (Z.to_nat hi) s.

(** [copy(dst, src)]: the contents of [dst] afterwards; [min(len(dst),
    len(src))] elements are overwritten. *)
Definition copy {A} (dst src : list A) : list A :=
  firstn (length dst) src ++ skipn (length src) dst.

(** [make([]float32, n)] *)
Definition make (n : Z) : list F32 := repeat 0%Q (Z.to_nat n).

(** [clear(s)] zeroes every element. *)
Definition clear (s : list F32) : list F32 := map (fun _ => 0%Q) s.

(** ** Constants and types of detector.go *)

Definition stateLen : nat := 2 * 1 * 128.
Definition contextLen : Z := 64.

(** [state [stateLen]float32] *)
Definition rstate := Vector.t F32 stateLen.
Definition zero_state : rstate := Vector.const 0%Q stateLen.

Record DetectorConfig := {
  ModelPath : string;
  SampleRate : Z;
  Threshold : F32;
  MinSilenceDurationMs : Z;
  SpeechPadMs : Z;
  LogLevel : Z
}.

Inductive error :=
| ErrEmptyModelPath
| ErrSampleRate
| ErrThreshold
| ErrMinSilenceDurationMs
| ErrSpeechPadMs
| ErrInvalidConfig (cause : error)
| ErrNotEnoughSamples
| ErrSamplesLength (expected got : Z)
| ErrOrt
| ErrInferFailed (cause : error)
| ErrUnexpectedSpeechEnd.

Record Segment := {
  SpeechStartAt : F64;
  SpeechEndAt : F64
}.

Record speechEvent := {
  hasStart : bool;
  startAt : F64;
  hasEnd : bool;
  endAt : F64;
  endStartAt : F64
}.

Definition zero_event : speechEvent :=
  {| hasStart := false; startAt := 0%Q; hasEnd := false; endAt := 0%Q;
     endStartAt := 0%Q |}.

Record Detector := {
  cfg : DetectorConfig;
  state : rstate;
  windowSize : Z;
  inputBuf : list F32;
  pendingStart : F64;
  pendingStartValid : bool;
  streamBuf : list F32;
  currSample : Z;
  triggered : bool;
  tempEnd : Z
}.

Definition set_cfg v (sd : Detector) : Detector :=
  {| cfg := v; state := state sd; windowSize := windowSize sd;
     inputBuf := inputBuf sd; pendingStart := pendingStart sd;
     pendingStartValid := pendingStartValid sd; streamBuf := streamBuf sd;
     currSample := currSample sd; triggered := triggered sd; tempEnd := tempEnd sd |}.
Definition set_state v (sd : Detector) : Detector :=
  {| cfg := cfg sd; state := v; windowSize := windowSize sd;
     inputBuf := inputBuf sd; pendingStart := pendingStart sd;
     pendingStartValid := pendingStartValid sd; streamBuf := streamBuf sd;
     currSample := currSample sd; triggered := triggered sd; tempEnd := tempEnd sd |}.
Definition set_windowSize v (sd : Detector) : Detector :=
  {| cfg := cfg sd; state := state sd; windowSize := v;
     inputBuf := inputBuf sd; pendingStart := pendingStart sd;
     pendingStartValid := pendingStartValid sd; streamBuf := streamBuf sd;
     currSample := currSample sd; triggered := triggered sd; tempEnd := tempEnd sd |}.
Definition set_inputBuf v (sd : Detector) : Detector :=
  {| cfg := cfg sd; state := state sd; windowSize := windowSize sd;
     inputBuf := v; pendingStart := pendingStart sd;
     pendingStartValid := pendingStartValid sd; streamBuf := streamBuf sd;
     currSample := currSample sd; triggered := triggered sd; tempEnd := tempEnd sd |}.
Definition set_pendingStart v (sd : Detector) : Detector :=
  {| cfg := cfg sd; state := state sd; windowSize := windowSize sd;
     inputBuf := inputBuf sd; pendingStart := v;
     pendingStartValid := pendingStartValid sd; streamBuf := streamBuf sd;
     currSample := currSample sd; triggered := triggered sd; tempEnd := tempEnd sd |}.
Definition set_pendingStartValid v (sd : Detector) : Detector :=
  {| cfg := cfg sd; state := state sd; windowSize := windowSize sd;
     inputBuf := inputBuf sd; pendingStart := pendingStart sd;
     pendingStartValid := v; streamBuf := streamBuf sd;
     currSample := currSample sd; triggered := triggered sd; tempEnd := tempEnd sd |}.
Definition set_streamBuf v (sd : Detector) : Detector :=
  {| cfg := cfg sd; state := state sd; windowSize := windowSize sd;
     inputBuf := inputBuf sd; pendingStart := pendingStart sd;
     pendingStartValid := pendingStartValid sd; streamBuf := v;
     currSample := currSample sd; triggered := triggered sd; tempEnd := tempEnd sd |}.
Definition set_currSample v (sd : Detector) : Detector :=
  {| cfg := cfg sd; state := state sd; windowSize := windowSize sd;
     inputBuf := inputBuf sd; pendingStart := pendingStart sd;
     pendingStartValid := pendingStartValid sd; streamBuf := streamBuf sd;
     currSample := v; triggered := triggered sd; tempEnd := tempEnd sd |}.
Definition set_triggered v (sd : Detector) : Detector :=
  {| cfg := cfg sd; state := state sd; windowSize := windowSize sd;
     inputBuf := inputBuf sd; pendingStart := pendingStart sd;
     pendingStartValid := pendingStartValid sd; streamBuf := streamBuf sd;
     currSample := currSample sd; triggered := v; tempEnd := tempEnd sd |}.
Definition set_tempEnd v (sd : Detector) : Detector :=
  {| cfg := cfg sd; state := state sd; windowSize := windowSize sd;
     inputBuf := inputBuf sd; pendingStart := pendingStart sd;
     pendingStartValid := pendingStartValid sd; streamBuf := streamBuf sd;
     currSample := currSample sd; triggered := triggered sd; tempEnd := v |}.

Definition set_hasStart v (e : speechEvent) : speechEvent :=
  {| hasStart := v; startAt := startAt e; hasEnd := hasEnd e; endAt := endAt e;
     endStartAt := endStartAt e |}.
Definition set_startAt v (e : speechEvent) : speechEvent :=
  {| hasStart := hasStart e; startAt := v; hasEnd := hasEnd e; endAt := endAt e;
     endStartAt := endStartAt e |}.
Definition set_hasEnd v (e : speechEvent) : speechEvent :=
  {| hasStart := hasStart e; startAt := startAt e; hasEnd := v; endAt := endAt e;
     endStartAt := endStartAt e |}.
Definition set_endAt v (e : speechEvent) : speechEvent :=
  {| hasStart := hasStart e; startAt := startAt e; hasEnd := hasEnd e; endAt := v;
     endStartAt := endStartAt e |}.
Definition set_endStartAt v (e : speechEvent) : speechEvent :=
  {| hasStart := hasStart e; startAt := startAt e; hasEnd := hasEnd e; endAt := endAt e;
     endStartAt := v |}.

(** ** Configuration *)

Definition IsValid (c : DetectorConfig) : option error :=
  if String.eqb (ModelPath c) EmptyString then Some ErrEmptyModelPath
  else if negb (SampleRate c =? 8000) && negb (SampleRate c =? 16000) then Some ErrSampleRate
  else if Qle_bool (Threshold c) 0%Q || Qgeb (Threshold c) 1%Q then Some ErrThreshold
  else if MinSilenceDurationMs c <? 0 then Some ErrMinSilenceDurationMs
  else if SpeechPadMs c <? 0 then Some ErrSpeechPadMs
  else None.

Definition windowSizeForSampleRate (sampleRate : Z) : Z :=
  if sampleRate =? 8000 then 256 else 512.

(** [NewDetector]; creating the runtime environment and the session is taken
    to succeed. *)
Definition NewDetector (c : DetectorConfig) : Detector + error :=
  match IsValid c with
  | Some err => inr (ErrInvalidConfig err)
  | None =>
      let ws := windowSizeForSampleRate (SampleRate c) in
      inl {| cfg := c; state := zero_state; windowSize := ws;
             inputBuf := make (GoInt.add contextLen ws);
             pendingStart := 0%Q; pendingStartValid := false;
             streamBuf := [];
             currSample := 0; triggered := false; tempEnd := 0 |}
  end.

Definition minSilenceSamplesOf (c : DetectorConfig) : Z :=
  GoInt.quot (GoInt.mul (MinSilenceDurationMs c) (SampleRate c)) 1000.
Definition speechPadSamplesOf (c : DetectorConfig) : Z :=
  GoInt.quot (GoInt.mul (SpeechPadMs c) (SampleRate c)) 1000.

(** ** The hysteresis trigger *)

Definition advanceSpeech (sd : Detector) (speechProb : F32)
    (minSilenceSamples speechPadSamples : Z)
  : Detector * (speechEvent * option error) :=
  let event := zero_event in
  let sd :=
    if Qgeb speechProb (Threshold (cfg sd)) && negb (tempEnd sd =? 0)
    then set_tempEnd 0 sd else sd in
  let '(sd, event) :=
    if Qgeb speechProb (Threshold (cfg sd)) && negb (triggered sd) then
      let sd := set_triggered true sd in
      let speechStartAt :=
        (float64_of_int
           (GoInt.sub (GoInt.sub (currSample sd) (windowSize sd)) speechPadSamples)
         / float64_of_int (SampleRate (cfg sd)))%Q in
      let speechStartAt := if Qltb speechStartAt 0%Q then 0%Q else speechStartAt in
      let sd := set_pendingStart speechStartAt sd in
      let sd := set_pendingStartValid true sd in
      let event := set_hasStart true event in
      let event := set_startAt speechStartAt event in
      (sd, event)
    else (sd, event) in
  if Qltb speechProb (Threshold (cfg sd) - releaseGap)%Q && triggered sd then
    let sd := if tempEnd sd =? 0 then set_tempEnd (currSample sd) sd else sd in
    if GoInt.sub (currSample sd) (tempEnd sd) <? minSilenceSamples then
      (sd, (event, None))
    else
      let speechEndAt :=
        (float64_of_int (GoInt.add (tempEnd sd) speechPadSamples)
         / float64_of_int (SampleRate (cfg sd)))%Q in
      let sd := set_tempEnd 0 sd in
      let sd := set_triggered false sd in
      if negb (pendingStartValid sd) then
        (sd, (event, Some ErrUnexpectedSpeechEnd))
      else
        let event := set_hasEnd true event in
        let event := set_endAt speechEndAt event in
        let event := set_endStartAt (pendingStart sd) event in
        let sd := set_pendingStartValid false sd in
        (sd, (event, None))
  else (sd, (event, None)).

(** [if sd.windowSize == 0 { sd.windowSize = windowSizeForSampleRate(...) }] *)
Definition fix_windowSize (sd : Detector) : Detector :=
  if windowSize sd =? 0
  then set_windowSize (windowSizeForSampleRate (SampleRate (cfg sd))) sd
  else sd.

(** ** The segment assemblers *)

Definition start_segment (event : speechEvent) : Segment :=
  {| SpeechStartAt := startAt event; SpeechEndAt := 0%Q |}.
Definition end_segment (event : speechEvent) : Segment :=
  {| SpeechStartAt := endStartAt event; SpeechEndAt := endAt event |}.

(** The body of [if event.hasEnd { ... }] in [Detect]. *)
Definition batch_end (segments : list Segment) (event : speechEvent) : list Segment :=
  let lastSeg := last segments (end_segment event) in
  if (0 <? len segments)
     && Qeq_bool (SpeechEndAt lastSeg) 0%Q
     && Qeq_bool (SpeechStartAt lastSeg) (endStartAt event)
  then removelast segments
         ++ [{| SpeechStartAt := SpeechStartAt lastSeg; SpeechEndAt := endAt event |}]
  else segments ++ [end_segment event].

Definition batch_append (segments : list Segment) (event : speechEvent) : list Segment :=
  let segments :=
    if hasStart event then segments ++ [start_segment event] else segments in
  if hasEnd event then batch_end segments event else segments.

Definition stream_append (segments : list Segment) (event : speechEvent) : list Segment :=
  let segments :=
    if hasStart event then segments ++ [start_segment event] else segments in
  if hasEnd event then segments ++ [end_segment event] else segments.

Section WithEngine.

(** The ONNX session [OrtApiRun] with its tensor plumbing: from the input
    tensor ([contextLen + windowSize] samples), the recurrent state and the
    sample rate to the speech probability and the next state, or a failure
    status. *)
Variable ort_run : list F32 -> rstate -> Z -> option (F32 * rstate).

(** ** Infer (speech/infer.go) *)

Definition Infer (sd : Detector) (samples : list F32)
  : Detector * (F32 * option error) :=
  let sd := fix_windowSize sd in
  if negb (len samples =? windowSize sd) then
    (sd, (0%Q, Some (ErrSamplesLength (windowSize sd) (len samples))))
  else
    let expectedInputLen := GoInt.add contextLen (windowSize sd) in
    let sd :=
      if negb (len (inputBuf sd) =? expectedInputLen)
      then set_inputBuf (make expectedInputLen) sd else sd in
    let sd :=
      set_inputBuf
        (slice_to (inputBuf sd) contextLen
           ++ copy (slice_from (inputBuf sd) contextLen) samples) sd in
    match ort_run (inputBuf sd) (state sd) (SampleRate (cfg sd)) with
    | None => (sd, (0%Q, Some ErrOrt))
    | Some (prob, stateN) =>
        let sd := set_state stateN sd in
        let sd :=
          set_inputBuf
            (copy (slice_to (inputBuf sd) contextLen)
                  (slice_from (inputBuf sd) (windowSize sd))
               ++ slice_from (inputBuf sd) contextLen) sd in
        (sd, (prob, None))
    end.

Definition processWindow (sd : Detector) (window : list F32)
    (minSilenceSamples speechPadSamples : Z)
  : Detector * (speechEvent * option error) :=
  let '(sd, (speechProb, err)) := Infer sd window in
  match err with
  | Some e => (sd, (zero_event, Some (ErrInferFailed e)))
  | None =>
      let sd := set_currSample (GoInt.add (currSample sd) (windowSize sd)) sd in
      advanceSpeech sd speechProb minSilenceSamples speechPadSamples
  end.

(** ** Detect and DetectStream *)

(** A Go call that ran to completion: the detector afterwards and the
    returned [([]Segment, error)].  [None] stands for a loop that has not
    finished within the fuel. *)
Definition outcome : Type := option (Detector * (list Segment * option error)).

(** [for i := 0; i+windowSize <= len(pcm); i += windowSize { ... }] *)
Fixpoint detect_loop (fuel : nat) (sd : Detector) (pcm : list F32)
    (windowSize minSilenceSamples speechPadSamples : Z)
    (i : Z) (segments : list Segment) : outcome :=
  if i + windowSize <=? len pcm then
    match fuel with
    | O => None
    | S fuel =>
        let '(sd, (event, err)) :=
          processWindow sd (slice pcm i (i + windowSize))
                        minSilenceSamples speechPadSamples in
        match err with
        | Some e => Some (sd, ([], Some e))
        | None =>
            detect_loop fuel sd pcm windowSize minSilenceSamples speechPadSamples
                        (i + windowSize) (batch_append segments event)
        end
    end
  else Some (sd, (segments, None)).

Definition Detect (sd : Detector) (pcm : list F32) : outcome :=
  let sd := fix_windowSize sd in
  let windowSize := windowSize sd in
  if len pcm <? windowSize then Some (sd, ([], Some ErrNotEnoughSamples))
  else
    let minSilenceSamples := minSilenceSamplesOf (cfg sd) in
    let speechPadSamples := speechPadSamplesOf (cfg sd) in
    detect_loop (S (length pcm)) sd pcm windowSize minSilenceSamples
                speechPadSamples 0 [].

(** [for index+windowSize <= len(pcm) { ... }] and the statements after
    it. *)
Fixpoint stream_loop (fuel : nat) (sd : Detector) (pcm : list F32)
    (windowSize minSilenceSamples speechPadSamples : Z)
    (index : Z) (segments : list Segment) : outcome :=
  if index + windowSize <=? len pcm then
    match fuel with
    | O => None
    | S fuel =>
        let '(sd, (event, err)) :=
          processWindow sd (slice pcm index (index + windowSize))
                        minSilenceSamples speechPadSamples in
        match err with
        | Some e => Some (sd, ([], Some e))
        | None =>
            stream_loop fuel sd pcm windowSize minSilenceSamples speechPadSamples
                        (index + windowSize) (stream_append segments event)
        end
    end
  else
    let sd :=
      if index <? len pcm
      then set_streamBuf (streamBuf sd ++ slice_from pcm index) sd
      else sd in
    Some (sd, (segments, None)).

Definition DetectStream (sd : Detector) (pcm : list F32) : outcome :=
  if len pcm =? 0 then Some (sd, ([], None))
  else
    let sd := fix_windowSize sd in
    let windowSize := windowSize sd in
    let minSilenceSamples := minSilenceSamplesOf (cfg sd) in
    let speechPadSamples := speechPadSamplesOf (cfg sd) in
    if 0 <? len (streamBuf sd) then
      let needed := windowSize - len (streamBuf sd) in
      if len pcm <? needed then
        Some (set_streamBuf (streamBuf sd ++ pcm) sd, ([], None))
      else
        let sd := set_streamBuf (streamBuf sd ++ slice_to pcm needed) sd in
        let '(sd, (event, err)) :=
          processWindow sd (streamBuf sd) minSilenceSamples speechPadSamples in
        match err with
        | Some e => Some (sd, ([], Some e))
        | None =>
            let segments := stream_append [] event in
            let sd := set_streamBuf (slice_to (streamBuf sd) 0) sd in
            stream_loop (S (length pcm)) sd pcm windowSize minSilenceSamples
                        speechPadSamples needed segments
        end
    else
      stream_loop (S (length pcm)) sd pcm windowSize minSilenceSamples
                  speechPadSamples 0 [].

End WithEngine.

(** ** Reset and SetThreshold *)

Definition Reset (sd : Detector) : Detector :=
  let sd := set_currSample 0 sd in
  let sd := set_triggered false sd in
  let sd := set_tempEnd 0 sd in
  let sd := set_pendingStart 0%Q sd in
  let sd := set_pendingStartValid false sd in
  let sd := set_streamBuf (slice_to (streamBuf sd) 0) sd in
  let sd := set_state (Vector.map (fun _ => 0%Q) (state sd)) sd in
  set_inputBuf (clear (inputBuf sd)) sd.

Definition SetThreshold (sd : Detector) (value : F32) : Detector :=
  set_cfg {| ModelPath := ModelPath (cfg sd); SampleRate := SampleRate (cfg sd);
             Threshold := value;
             MinSilenceDurationMs := MinSilenceDurationMs (cfg sd);
             SpeechPadMs := SpeechPadMs (cfg sd); LogLevel := LogLevel (cfg sd) |} sd.

(** ** Windows of a sample sequence *)

(** The complete, non-overlapping windows of [n] samples of [l] in order,
    and the samples left over. *)
Fixpoint split_windows {A} (fuel n : nat) (l : list A) : list (list A) * list A :=
  match fuel with
  | O => ([], l)
  | S fuel =>
      if (n <=? length l)%nat then
        let '(ws, r) := split_windows fuel n (skipn n l) in
        (firstn n l :: ws, r)
      else ([], l)
  end.

Definition windows {A} (n : nat) (l : list A) : list (list A) :=
  fst (split_windows (length l) n l).
Definition remainder {A} (n : nat) (l : list A) : list A :=
  snd (split_windows (length l) n l).

(** [l] is the windows [ws] followed by the short rest [r]. *)
Definition is_split {A} (n : nat) (l : list A) (ws : list (list A)) (r : list A) : Prop :=
  l = concat ws ++ r /\ Forall (fun w => length w = n) ws /\ (length r < n)%nat.

(** ** Runs over windows *)

(** An inference engine that never fails. *)
Definition total_engine (f : list F32 -> rstate -> Z -> F32 * rstate)
  : list F32 -> rstate -> Z -> option (F32 * rstate) :=
  fun input st rate => Some (f input st rate).

(** The trigger's part of [processWindow]: advance [currSample] by one
    window, then [advanceSpeech]. *)
Definition advance_window (sd : Detector) (speechProb : F32)
    (minSilenceSamples speechPadSamples : Z)
  : Detector * (speechEvent * option error) :=
  advanceSpeech (set_currSample (GoInt.add (currSample sd) (windowSize sd)) sd)
                speechProb minSilenceSamples speechPadSamples.

(** The trigger driven by a list of probabilities, one per window; the
    events in order, up to the first error. *)
Fixpoint trigger_run (sd : Detector) (probs : list F32)
    (minSilenceSamples speechPadSamples : Z)
  : Detector * (list speechEvent * option error) :=
  match probs with
  | [] => (sd, ([], None))
  | p :: probs =>
      let '(sd, (event, err)) :=
        advance_window sd p minSilenceSamples speechPadSamples in
      match err with
      | Some e => (sd, ([], Some e))
      | None =>
          let '(sd, (events, err)) :=
            trigger_run sd probs minSilenceSamples speechPadSamples in
          (sd, (event :: events, err))
      end
  end.

(** The detector with the trigger's fields of [t] and the engine's fields
    (recurrent state, window size, input buffer) of [e]. *)
Definition graft (t e : Detector) : Detector :=
  {| cfg := cfg t; state := state e; windowSize := windowSize e;
     inputBuf := inputBuf e; pendingStart := pendingStart t;
     pendingStartValid := pendingStartValid t; streamBuf := streamBuf t;
     currSample := currSample t; triggered := triggered t; tempEnd := tempEnd t |}.

Section Runs.

Variable ort_run : list F32 -> rstate -> Z -> option (F32 * rstate).

(** [processWindow] over a list of windows, the events folded into the
    segment list by [append]; an error ends the run and drops the list. *)
Fixpoint run_windows (append : list Segment -> speechEvent -> list Segment)
    (sd : Detector) (ws : list (list F32)) (minSilenceSamples speechPadSamples : Z)
    (segments : list Segment) : Detector * (list Segment * option error) :=
  match ws with
  | [] => (sd, (segments, None))
  | w :: ws =>
      let '(sd, (event, err)) :=
        processWindow ort_run sd w minSilenceSamples speechPadSamples in
      match err with
      | Some e => (sd, ([], Some e))
      | None =>
          run_windows append sd ws minSilenceSamples speechPadSamples
                      (append segments event)
      end
  end.

(** The events of a run over windows, up to the first error. *)
Fixpoint window_events (sd : Detector) (ws : list (list F32))
    (minSilenceSamples speechPadSamples : Z)
  : Detector * (list speechEvent * option error) :=
  match ws with
  | [] => (sd, ([], None))
  | w :: ws =>
      let '(sd, (event, err)) :=
        processWindow ort_run sd w minSilenceSamples speechPadSamples in
      match err with
      | Some e => (sd, ([], Some e))
      | None =>
          let '(sd, (events, err)) :=
            window_events sd ws minSilenceSamples speechPadSamples in
          (sd, (event :: events, err))
      end
  end.

(** The probabilities [Infer] returns for successive windows, up to the
    first failure. *)
Fixpoint infer_probs (sd : Detector) (ws : list (list F32)) : list F32 :=
  match ws with
  | [] => []
  | w :: ws =>
      match Infer ort_run sd w with
      | (sd, (p, None)) => p :: infer_probs sd ws
      | (_, (_, Some _)) => []
      end
  end.

(** The windows [Infer] accepts when it is given [ws] one after the other,
    up to the first failure: the history behind the context samples. *)
Fixpoint inferred (sd : Detector) (ws : list (list F32)) : list (list F32) :=
  match ws with
  | [] => []
  | w :: ws =>
      match Infer ort_run sd w with
      | (sd, (_, None)) => w :: inferred sd ws
      | (_, (_, Some _)) => []
      end
  end.

(** *** Calls on a detector *)

Inductive call :=
| CallInfer (samples : list F32)
| CallDetect (pcm : list F32)
| CallDetectStream (pcm : list F32)
| CallReset
| CallSetThreshold (value : F32).

Inductive reply :=
| ReplyInfer (prob : F32) (err : option error)
| ReplySegments (segments : list Segment) (err : option error)
| ReplyDone.

Definition do_call (sd : Detector) (c : call) : option (Detector * reply) :=
  match c with
  | CallInfer samples =>
      let '(sd, (p, err)) := Infer ort_run sd samples in Some (sd, ReplyInfer p err)
  | CallDetect pcm =>
      match Detect ort_run sd pcm with
      | Some (sd, (segments, err)) => Some (sd, ReplySegments segments err)
      | None => None
      end
  | CallDetectStream pcm =>
      match DetectStream ort_run sd pcm with
      | Some (sd, (segments, err)) => Some (sd, ReplySegments segments err)
      | None => None
      end
  | CallReset => Some (Reset sd, ReplyDone)
  | CallSetThreshold value => Some (SetThreshold sd value, ReplyDone)
  end.

Fixpoint do_calls (sd : Detector) (cs : list call) : option (Detector * list reply) :=
  match cs with
  | [] => Some (sd, [])
  | c :: cs =>
      match do_call sd c with
      | None => None
      | Some (sd, r) =>
          match do_calls sd cs with
          | None => None
          | Some (sd, rs) => Some (sd, r :: rs)
          end
      end
  end.

Definition reply_error (r : reply) : option error :=
  match r with
  | ReplyInfer _ err => err
  | ReplySegments _ err => err
  | ReplyDone => None
  end.

(** The windows a call has inferred successfully. *)
Definition accepted_windows (sd : Detector) (c : call) : list (list F32) :=
  let n := Z.to_nat (windowSize sd) in
  match c with
  | CallInfer samples => inferred sd [samples]
  | CallDetect pcm =>
      if len pcm <? windowSize sd then [] else inferred sd (windows n pcm)
  | CallDetectStream pcm =>
      match pcm with
      | [] => []
      | _ => inferred sd (windows n (streamBuf sd ++ pcm))
      end
  | CallReset => []
  | CallSetThreshold _ => []
  end.

(** The accepted windows since construction or the last [Reset]. *)
Definition history_after (history : list (list F32)) (sd : Detector) (c : call)
  : list (list F32) :=
  match c with
  | CallReset => []
  | _ => history ++ accepted_windows sd c
  end.

(** The detectors a program can hold: constructed by [NewDetector], then
    any calls. *)
Inductive reachable : Detector -> Prop :=
| reachable_new c sd : NewDetector c = inl sd -> reachable sd
| reachable_call sd c sd' r :
    reachable sd -> do_call sd c = Some (sd', r) -> reachable sd'.

(** A detector as [NewDetector] or [Reset] leaves it. *)
Inductive fresh : Detector -> Prop :=
| fresh_new c sd : NewDetector c = inl sd -> fresh sd
| fresh_reset sd : reachable sd -> fresh (Reset sd).

(** Successive [DetectStream] calls, one per chunk; the segments of all
    calls in order, up to the first error. *)
Fixpoint stream_chunks (sd : Detector) (chunks : list (list F32)) : outcome :=
  match chunks with
  | [] => Some (sd, ([], None))
  | chunk :: chunks =>
      match DetectStream ort_run sd chunk with
      | None => None
      | Some (sd, (_, Some e)) => Some (sd, ([], Some e))
      | Some (sd, (segments, None)) =>
          match stream_chunks sd chunks with
          | None => None
          | Some (sd, (_, Some e)) => Some (sd, ([], Some e))
          | Some (sd, (more, None)) => Some (sd, (segments ++ more, None))
          end
      end
  end.

End Runs.

(** ** Reading segments back from streaming updates *)

Definition is_open (s : Segment) : bool := Qeq_bool (SpeechEndAt s) 0%Q.

(** Set the end of the earliest open segment that carries the start of the
    closed update [c]. *)
Fixpoint close_open (acc : list Segment) (c : Segment) : option (list Segment) :=
  match acc with
  | [] => None
  | s :: acc =>
      if is_open s && Qeq_bool (SpeechStartAt s) (SpeechStartAt c) then
        Some ({| SpeechStartAt := SpeechStartAt s; SpeechEndAt := SpeechEndAt c |} :: acc)
      else
        match close_open acc c with
        | Some acc' => Some (s :: acc')
        | None => None
        end
  end.

(** A start-only update opens a pair; a closed update is paired with the
    open one of the same start, and stands alone when there is none. *)
Definition reconstruct_step (acc : list Segment) (u : Segment) : list Segment :=
  if is_open u then acc ++ [u]
  else match close_open acc u with
       | Some acc' => acc'
       | None => acc ++ [u]
       end.

Definition reconstruct (updates : list Segment) : list Segment :=
  fold_left reconstruct_step updates [].

(** ** The batch assembler as the specification words it *)

Definition assemble_step (segments : list Segment) (event : speechEvent) : list Segment :=
  let segments :=
    if hasStart event
    then segments ++ [{| SpeechStartAt := startAt event; SpeechEndAt := 0%Q |}]
    else segments in
  if hasEnd event then
    match rev segments with
    | recent :: earlier =>
        if Qeq_bool (SpeechEndAt recent) 0%Q
           && Qeq_bool (SpeechStartAt recent) (endStartAt event)
        then rev earlier
               ++ [{| SpeechStartAt := SpeechStartAt recent; SpeechEndAt := endAt event |}]
        else segments
               ++ [{| SpeechStartAt := endStartAt event; SpeechEndAt := endAt event |}]
    | [] => [{| SpeechStartAt := endStartAt event; SpeechEndAt := endAt event |}]
    end
  else segments.

Definition assemble (events : list speechEvent) : list Segment :=
  fold_left assemble_step events [].

(** ** The context samples *)

(** The last [contextLen] samples of a window. *)
Definition window_tail (w : list F32) : list F32 :=
  skipn (length w - Z.to_nat contextLen) w.

(** The context after the accepted windows [history]: zeros at first, then
    the tail of the latest one. *)
Definition context_after (history : list (list F32)) : list F32 :=
  match rev history with
  | [] => repeat 0%Q (Z.to_nat contextLen)
  | w :: _ => window_tail w
  end.

Definition context (sd : Detector) : list F32 := slice_to (inputBuf sd) contextLen.

(** [max(0, x)] on timestamps. *)
Definition clamp0 (x : F64) : F64 := if Qltb x 0%Q then 0%Q else x.

(** ** Streaming updates against the batch list *)

(** The start-only segment of a start at [ps]. *)
Definition open_at (ps : F64) : Segment :=
  {| SpeechStartAt := ps; SpeechEndAt := 0%Q |}.

(** The batch list [B] agrees with the pending start: when a start is
    pending, the last segment is its open segment and all before are closed;
    when none is, all are closed. *)
Definition assembled (valid : bool) (ps : F64) (B : list Segment) : Prop :=
  if valid
  then exists pre, B = pre ++ [open_at ps] /\ Forall (fun s => is_open s = false) pre
  else Forall (fun s => is_open s = false) B.

(** What one window's event does to the pending start: nothing, open a
    segment, or close the pending one with a nonzero end. *)
Definition step_kind (valid : bool) (ps : F64) (valid' : bool) (ps' : F64)
    (ev : speechEvent) : Prop :=
  (hasStart ev = false /\ hasEnd ev = false /\ valid' = valid /\ ps' = ps)
  \/ (valid = false /\ hasStart ev = true /\ hasEnd ev = false
      /\ valid' = true /\ ps' = startAt ev)
  \/ (valid = true /\ hasStart ev = false /\ hasEnd ev = true
      /\ endStartAt ev = ps /\ valid' = false
      /\ Qeq_bool (endAt ev) 0%Q = false).

(** The engine never fails: inference is a function of its inputs. *)
Definition engine_total (run : list F32 -> rstate -> Z -> option (F32 * rstate)) : Prop :=
  forall input st rate, run input st rate <> None.

(** The sample positions are in order, and the count stays below [bound]. *)
Definition positions_ok (sd : Detector) (bound : Z) : Prop :=
  0 <= tempEnd sd <= currSample sd /\ currSample sd <= bound.

(** ** Invariants *)

(** The shape every constructed detector keeps: a supported sample rate, the
    window size that goes with it, and an input buffer of context plus
    window. *)
Definition well_formed (sd : Detector) : Prop :=
  (SampleRate (cfg sd) = 8000 \/ SampleRate (cfg sd) = 16000)
  /\ windowSize sd = windowSizeForSampleRate (SampleRate (cfg sd))
  /\ len (inputBuf sd) = contextLen + windowSize sd.

(** The trigger is on exactly when a start is pending. *)
Definition trigger_consistent (sd : Detector) : Prop :=
  triggered sd = pendingStartValid sd.

Definition good (sd : Detector) : Prop := well_formed sd /\ trigger_consistent sd.

(** A good detector whose carry-over buffer holds at most one window. *)
Definition sound (sd : Detector) : Prop :=
  good sd /\ (length (streamBuf sd) <= Z.to_nat (windowSize sd))%nat.

(** What a [DetectStream] call amounts to: the carry-over buffer followed
    by the chunk is cut into windows, these are processed in order, and the
    rest is carried over; after an error the buffer holds [b]. *)
Definition stream_outcome (ort_run : list F32 -> rstate -> Z -> option (F32 * rstate))
    (sd : Detector) (pcm b : list F32)
  : Detector * (list Segment * option error) :=
  let n := Z.to_nat (windowSize sd) in
  let all := streamBuf sd ++ pcm in
  match run_windows ort_run stream_append sd (windows n all)
          (minSilenceSamplesOf (cfg sd)) (speechPadSamplesOf (cfg sd)) [] with
  | (sd', (segs, None)) => (set_streamBuf (remainder n all) sd', (segs, None))
  | (sd', (segs, Some e)) => (set_streamBuf b sd', (segs, Some e))
  end.

(** ** The trigger's timestamps and levels *)

(** The timestamp of a start event: [max(0, (currSample - windowSize -
    speechPadSamples) / sampleRate)]. *)
Definition start_timestamp (sd : Detector) (speechPadSamples : Z) : F64 :=
  clamp0 (float64_of_int
            (GoInt.sub (GoInt.sub (currSample sd) (windowSize sd)) speechPadSamples)
          / float64_of_int (SampleRate (cfg sd)))%Q.

(** The release level [Threshold - 0.15]. *)
Definition below_release (sd : Detector) (p : F32) : bool :=
  Qltb p (Threshold (cfg sd) - releaseGap)%Q.

(** The silence the next window below the release level will measure. *)
Definition next_elapsed (sd : Detector) : Z :=
  if tempEnd sd =? 0 then 0
  else GoInt.sub (GoInt.add (currSample sd) (windowSize sd)) (tempEnd sd).

(** ** Windows the trigger lets pass, and the shape of a segment list *)
(** A probability the trigger lets pass: below the threshold, and either
    the detector is not inside a segment or the probability is not below
    the release level. *)
Definition inert (sd : Detector) (p : F32) : bool :=
  negb (Qgeb p (Threshold (cfg sd)))
  && (negb (triggered sd) || negb (below_release sd p)).


(** A closed segment of positive length. *)
Definition positive (s : Segment) : Prop :=
  is_open s = false /\ (SpeechStartAt s < SpeechEndAt s)%Q.

(** The list [B] as the pending start wants it: when a start is pending the
    last segment is its open segment, and every other segment is closed and
    of positive length. *)
Definition well_shaped (valid : bool) (ps : F64) (B : list Segment) : Prop :=
  if valid
  then exists pre, B = pre ++ [open_at ps] /\ Forall positive pre
  else Forall positive B.

(** The pending start lies at least one window behind the sample counter,
    and behind the pending silence. *)
Definition start_behind (sd : Detector) : Prop :=
  pendingStartValid sd = true ->
  (pendingStart sd
   <= float64_of_int (currSample sd - windowSize sd)
      / float64_of_int (SampleRate (cfg sd)))%Q
  /\ (tempEnd sd <> 0 ->
      (pendingStart sd
       <= float64_of_int (tempEnd sd - windowSize sd)
          / float64_of_int (SampleRate (cfg sd)))%Q).

(** ** Concrete engines and inputs for examples *)

(** An engine that answers with the first sample of the window and keeps
    the recurrent state. *)
Definition first_sample_engine (input : list F32) (st : rstate) (rate : Z)
  : option (F32 * rstate) :=
  Some (nth (Z.to_nat contextLen) input 0%Q, st).

(** A window of 512 samples, all equal to [p]. *)
Definition flat_window (p : F32) : list F32 := repeat p 512.

Definition example_string : string := "silero_vad.onnx"%string.

Definition scenario_cfg : DetectorConfig :=
  {| ModelPath := example_string; SampleRate := 16000; Threshold := 1 # 2;
     MinSilenceDurationMs := 0; SpeechPadMs := 0; LogLevel := 0 |}.

Definition scenario_probs : list F32 :=
  [1 # 10; 1 # 10; 6 # 10; 6 # 10; 1 # 10; 1 # 10].

Definition scenario_pcm : list F32 := concat (map flat_window scenario_probs).

(** The detector [NewDetector] builds, or an empty one when the
    configuration is refused. *)
Definition new_or_zero (c : DetectorConfig) : Detector :=
  match NewDetector c with
  | inl sd => sd
  | inr _ =>
      {| cfg := c; state := zero_state; windowSize := 0; inputBuf := [];
         pendingStart := 0%Q; pendingStartValid := false; streamBuf := [];
         currSample := 0; triggered := false; tempEnd := 0 |}
  end.

(** The detector after a call that ran to completion. *)
Definition after (o : outcome) (default : Detector) : Detector :=
  match o with
  | Some (sd, _) => sd
  | None => default
  end.
(** ** Concrete detectors and inputs *)

Definition scenario_sd : Detector := new_or_zero scenario_cfg.

(** A detector in the middle of the count, for the start timestamp. *)
Definition counting_sd : Detector := set_currSample 1536 scenario_sd.

(** A padding whose product with the sample rate leaves the range of
    [int]: [(2^57 - 128) * 16000] wraps to [-2048000], so the padding in
    samples is [-2048]. *)
Definition overflow_cfg : DetectorConfig :=
  {| ModelPath := example_string; SampleRate := 16000; Threshold := 1 # 2;
     MinSilenceDurationMs := 0; SpeechPadMs := 2 ^ 57 - 128; LogLevel := 0 |}.

Definition overflow_sd : Detector := new_or_zero overflow_cfg.

Definition overflow_pcm : list F32 :=
  concat (map flat_window [6 # 10; 6 # 10; 6 # 10; 1 # 10]).

(** A minimum silence of 100 ms, that is 1600 samples or a little more than
    three windows. *)
Definition debounce_cfg : DetectorConfig :=
  {| ModelPath := example_string; SampleRate := 16000; Threshold := 1 # 2;
     MinSilenceDurationMs := 100; SpeechPadMs := 0; LogLevel := 0 |}.

(** Speech, one window below the release level, then three windows between
    the release level and the threshold. *)
Definition debounce_pcm : list F32 :=
  concat (map flat_window [6 # 10; 1 # 10; 4 # 10; 4 # 10; 4 # 10]).

(** The detector after [Detect] over [debounce_pcm]: inside a segment, with
    the silence that began at the second window still pending. *)
Definition debounce_sd : Detector :=
  after (Detect first_sample_engine (new_or_zero debounce_cfg) debounce_pcm)
        (new_or_zero debounce_cfg).

(** The detector after [Detect] over one window of speech: inside a
    segment, no silence pending. *)
Definition speaking_sd : Detector :=
  after (Detect first_sample_engine (new_or_zero debounce_cfg) (flat_window (6 # 10)))
        (new_or_zero debounce_cfg).

(** ** Further concrete engines and inputs *)

(** An engine that always fails. *)
Definition failing_engine (input : list F32) (st : rstate) (rate : Z)
  : option (F32 * rstate) := None.

(** Six windows with the probabilities of the scenario in their first
    sample and silence behind it. *)
Definition spiky_pcm : list F32 :=
  concat (map (fun p => p :: repeat 0%Q 511) scenario_probs).


(** A detector whose threshold is below the release gap. *)
Definition low_threshold_sd : Detector := SetThreshold scenario_sd (1 # 10).

(** The scenario cut after 700 samples, and after three windows. *)
Definition scenario_head : list F32 := firstn 700 scenario_pcm.
Definition scenario_tail : list F32 := skipn 700 scenario_pcm.
Definition scenario_first_half : list F32 := firstn 1536 scenario_pcm.
Definition scenario_second_half : list F32 := skipn 1536 scenario_pcm.

Definition scenario_segment : Segment :=
  {| SpeechStartAt := 1024 # 16000; SpeechEndAt := 2560 # 16000 |}.
Definition scenario_open : Segment :=
  {| SpeechStartAt := 1024 # 16000; SpeechEndAt := 0%Q |}.

(** A detector that did not come from [NewDetector]: no window size, no
    input buffer, sample rate 0. *)
Definition blank_cfg : DetectorConfig :=
  {| ModelPath := EmptyString; SampleRate := 0; Threshold := 1 # 2;
     MinSilenceDurationMs := 0; SpeechPadMs := 0; LogLevel := 0 |}.
Definition blank_sd : Detector := new_or_zero blank_cfg.

(** A detector with a hundred samples carried over, the engine failing. *)
Definition buffering_sd : Detector :=
  after (DetectStream failing_engine scenario_sd (firstn 100 scenario_pcm)) scenario_sd.

(** Two windows below the threshold. *)
Definition quiet_pcm : list F32 := concat (map flat_window [1 # 10; 2 # 10]).

(** * Properties *)

(** ** Arithmetic *)

Lemma wrap_small z : GoInt.in_range z -> GoInt.wrap z = z.
Proof.
  unfold GoInt.in_range, GoInt.min_int, GoInt.max_int, GoInt.wrap. intros H.
  rewrite Z.mod_small; lia.
Qed.

Lemma wrap_range z : GoInt.in_range (GoInt.wrap z).
Proof.
  unfold GoInt.in_range, GoInt.min_int, GoInt.max_int, GoInt.wrap.
  pose proof (Z.mod_pos_bound (z + 2 ^ 63) (2 ^ 64)). lia.
Qed.

Lemma wrap_congr a b : (a - b) mod 2 ^ 64 = 0 -> GoInt.wrap a = GoInt.wrap b.
Proof.
  unfold GoInt.wrap. intros H. f_equal.
  apply Z.mod_divide in H; [|lia]. destruct H as [k Hk].
  replace (a + 2 ^ 63) with (b + 2 ^ 63 + k * 2 ^ 64) by lia.
  apply Z.mod_add. lia.
Qed.

Lemma wrap_mod z : (GoInt.wrap z - z) mod 2 ^ 64 = 0.
Proof.
  unfold GoInt.wrap. apply Z.mod_divide; [lia|].
  exists (- ((z + 2 ^ 63) / 2 ^ 64)).
  pose proof (Z.div_mod (z + 2 ^ 63) (2 ^ 64)). lia.
Qed.

Lemma Qgeb_not_release p t :
  Qgeb p t = true -> Qltb p (t - releaseGap)%Q = false.
Proof.
  unfold Qgeb, Qltb. intros H. apply Qle_bool_iff in H.
  apply negb_false_iff. apply Qle_bool_iff.
  apply Qle_trans with t; [|exact H].
  rewrite <- (Qplus_0_r t) at 2. unfold Qminus. apply Qplus_le_r. discriminate.
Qed.

Lemma Qltb_release_not_geb p t :
  Qltb p (t - releaseGap)%Q = true -> Qgeb p t = false.
Proof.
  intros H. destruct (Qgeb p t) eqn:E; [|reflexivity].
  apply Qgeb_not_release in E. congruence.
Qed.

Lemma Qeq_bool_refl_true x : Qeq_bool x x = true.
Proof. apply Qeq_bool_iff. reflexivity. Qed.

Lemma Qle_bool_Qeq_l p q t : (p == q)%Q -> Qle_bool t p = Qle_bool t q.
Proof.
  intros E. destruct (Qle_bool t q) eqn:H.
  - apply Qle_bool_iff. apply Qle_bool_iff in H. rewrite E. exact H.
  - destruct (Qle_bool t p) eqn:H'; [|reflexivity].
    apply Qle_bool_iff in H'. rewrite E in H'. apply Qle_bool_iff in H'. congruence.
Qed.

Lemma Qle_bool_Qeq_r p q t : (p == q)%Q -> Qle_bool p t = Qle_bool q t.
Proof.
  intros E. destruct (Qle_bool q t) eqn:H.
  - apply Qle_bool_iff. apply Qle_bool_iff in H. rewrite E. exact H.
  - destruct (Qle_bool p t) eqn:H'; [|reflexivity].
    apply Qle_bool_iff in H'. rewrite E in H'. apply Qle_bool_iff in H'. congruence.
Qed.

(** ** Slices *)

Lemma len_app {A} (a b : list A) : len (a ++ b) = len a + len b.
Proof. unfold len. rewrite length_app. lia. Qed.

Lemma len_nonneg {A} (a : list A) : 0 <= len a.
Proof. unfold len. lia. Qed.

Lemma length_copy {A} (dst src : list A) : length (copy dst src) = length dst.
Proof.
  unfold copy. rewrite length_app, length_firstn, length_skipn. lia.
Qed.

Lemma copy_full {A} (dst src : list A) : length dst = length src -> copy dst src = src.
Proof.
  intros H. unfold copy. rewrite H, firstn_all, skipn_all2 by lia.
  apply app_nil_r.
Qed.

Lemma slice_middle {A} (pre w rest : list A) :
  slice (pre ++ w ++ rest) (len pre) (len pre + len w) = w.
Proof.
  unfold slice, len. rewrite Nat2Z.id.
  replace (Z.of_nat (length pre) + Z.of_nat (length w) - Z.of_nat (length pre))
    with (Z.of_nat (length w)) by lia.
  rewrite Nat2Z.id, skipn_app, skipn_all, Nat.sub_diag. simpl.
  rewrite firstn_app, firstn_all, Nat.sub_diag. simpl. apply app_nil_r.
Qed.

Lemma slice_from_app {A} (pre rest : list A) : slice_from (pre ++ rest) (len pre) = rest.
Proof.
  unfold slice_from, len. rewrite Nat2Z.id, skipn_app, skipn_all, Nat.sub_diag.
  reflexivity.
Qed.

Lemma clear_make (s : list F32) : clear s = make (len s).
Proof.
  unfold clear, make, len. rewrite Nat2Z.id.
  induction s as [|x s IH]; simpl; [reflexivity|]. now rewrite IH.
Qed.

Lemma len_make n : 0 <= n -> len (make n) = n.
Proof. intros H. unfold len, make. rewrite repeat_length. lia. Qed.

Lemma firstn_app_exact {A} n (a b : list A) : length a = n -> firstn n (a ++ b) = a.
Proof.
  intros <-. rewrite firstn_app, Nat.sub_diag, firstn_all. cbn [firstn]. apply app_nil_r.
Qed.

Lemma skipn_app_exact {A} n (a b : list A) : length a = n -> skipn n (a ++ b) = b.
Proof.
  intros <-. rewrite skipn_app, Nat.sub_diag, skipn_all. reflexivity.
Qed.

Lemma skipn_app_ge {A} n (a b : list A) :
  (length a <= n)%nat -> skipn n (a ++ b) = skipn (n - length a) b.
Proof.
  intros H. rewrite skipn_app, skipn_all2 by lia. reflexivity.
Qed.

Lemma vector_map_const {A B} (b : B) n (v : Vector.t A n) :
  Vector.map (fun _ => b) v = Vector.const b n.
Proof. induction v as [|x n v IH]; simpl; [reflexivity|]. now rewrite IH. Qed.

(** Normalise record projections without touching the arithmetic. *)
Tactic Notation "simp" :=
  cbn -[GoInt.add GoInt.sub GoInt.mul GoInt.quot GoInt.wrap Qdiv Qminus
        Qle_bool Qeq_bool Qltb Qgeb Z.add Z.sub Z.leb Z.ltb Z.eqb Z.to_nat
        firstn skipn repeat len make].
Tactic Notation "simp" "in" hyp(H) :=
  cbn -[GoInt.add GoInt.sub GoInt.mul GoInt.quot GoInt.wrap Qdiv Qminus
        Qle_bool Qeq_bool Qltb Qgeb Z.add Z.sub Z.leb Z.ltb Z.eqb Z.to_nat
        firstn skipn repeat len make] in H.

(** Split on the condition of the outermost conditional of the goal. *)
Ltac split_if :=
  match goal with
  | |- context [if ?b then _ else _] =>
      lazymatch b with
      | context [if _ then _ else _] => fail
      | _ => destruct b eqn:?
      end
  end.

(** [advanceSpeech] leaves the configuration, the engine's fields and the
    sample counter alone. *)
Lemma advanceSpeech_frame sd p mins pad sd' r :
  advanceSpeech sd p mins pad = (sd', r) ->
  cfg sd' = cfg sd /\ state sd' = state sd /\ windowSize sd' = windowSize sd
  /\ inputBuf sd' = inputBuf sd /\ streamBuf sd' = streamBuf sd
  /\ currSample sd' = currSample sd.
Proof.
  unfold advanceSpeech.
  repeat (simp; split_if); simp;
    intros H; inversion H; subst; simp; auto 10.
Qed.

(** C3: when the probability reaches the threshold and the detector is not
    triggered, [advanceSpeech] (entered with [currSample] already advanced by
    the window) emits one start event and no end event; its timestamp is
    [max(0, (currSample - windowSize - speechPadSamples) / sampleRate)];
    [pendingStart] holds that timestamp, [pendingStartValid] and [triggered]
    are true afterwards. *)
Theorem start_event_timestamp sd p mins pad :
  Qgeb p (Threshold (cfg sd)) = true ->
  triggered sd = false ->
  exists sd',
    advanceSpeech sd p mins pad
    = (sd', ({| hasStart := true; startAt := start_timestamp sd pad;
                hasEnd := false; endAt := 0%Q; endStartAt := 0%Q |}, None))
    /\ pendingStart sd' = start_timestamp sd pad
    /\ pendingStartValid sd' = true
    /\ triggered sd' = true.
Proof.
  intros Hp Ht. unfold advanceSpeech, start_timestamp, clamp0.
  rewrite Hp. simpl.
  destruct (negb (tempEnd sd =? 0)); simpl; rewrite ?Hp, ?Ht; simpl;
    rewrite (Qgeb_not_release _ _ Hp); simpl; eexists; repeat split.
Qed.

(** ** Infer *)

Arguments GoInt.wrap : simpl never.
Arguments GoInt.add : simpl never.
Arguments GoInt.sub : simpl never.
Arguments GoInt.mul : simpl never.
Arguments GoInt.quot : simpl never.
Arguments minSilenceSamplesOf : simpl never.
Arguments speechPadSamplesOf : simpl never.
Arguments float64_of_int : simpl never.
Arguments Qltb : simpl never.
Arguments Qgeb : simpl never.
Arguments Qle_bool : simpl never.
Arguments Qeq_bool : simpl never.
Arguments Qdiv : simpl never.
Arguments Qminus : simpl never.
Arguments windowSizeForSampleRate : simpl never.
Arguments make : simpl never.
Arguments len : simpl never.

Lemma well_formed_windowSize sd :
  well_formed sd -> windowSize sd = 256 \/ windowSize sd = 512.
Proof.
  intros (Hr & Hw & _). rewrite Hw. unfold windowSizeForSampleRate.
  destruct Hr as [-> | ->]; simpl; auto.
Qed.

Lemma fix_windowSize_id sd : windowSize sd <> 0 -> fix_windowSize sd = sd.
Proof.
  intros H. unfold fix_windowSize. apply Z.eqb_neq in H. now rewrite H.
Qed.

Lemma well_formed_fix sd : well_formed sd -> fix_windowSize sd = sd.
Proof.
  intros H. apply fix_windowSize_id.
  destruct (well_formed_windowSize sd H); lia.
Qed.

Section Properties.

Variable ort_run : list F32 -> rstate -> Z -> option (F32 * rstate).

(** [Infer] touches the window size (when unset), the input buffer and the
    recurrent state only. *)
Lemma Infer_frame sd w sd' r :
  Infer ort_run sd w = (sd', r) ->
  cfg sd' = cfg sd /\ windowSize sd' = windowSize (fix_windowSize sd)
  /\ pendingStart sd' = pendingStart sd
  /\ pendingStartValid sd' = pendingStartValid sd
  /\ streamBuf sd' = streamBuf sd /\ currSample sd' = currSample sd
  /\ triggered sd' = triggered sd /\ tempEnd sd' = tempEnd sd.
Proof.
  unfold Infer, fix_windowSize.
  repeat (simp;
          first [ split_if
                | match goal with
                  | |- context [match ort_run ?a ?b ?c with _ => _ end] =>
                      destruct (ort_run a b c) as [[? ?]|]
                  end ]);
    simp; intros H; inversion H; subst; simp; auto 10.
Qed.

Lemma Infer_rejects run sd samples :
  len samples <> windowSize (fix_windowSize sd) ->
  Infer run sd samples
  = (fix_windowSize sd,
     (0%Q, Some (ErrSamplesLength (windowSize (fix_windowSize sd)) (len samples)))).
Proof.
  intros H. apply Z.eqb_neq in H. unfold Infer. now rewrite H.
Qed.

(** C9: a sample slice whose length is not the window size, shorter or
    longer, makes [Infer] return probability 0 and an error; the engine is
    not run (the result does not depend on it) and the recurrent state and
    the input buffer are as before. *)
Theorem Infer_rejects_wrong_length sd samples :
  len samples <> windowSize (fix_windowSize sd) ->
  Infer ort_run sd samples
  = (fix_windowSize sd,
     (0%Q, Some (ErrSamplesLength (windowSize (fix_windowSize sd)) (len samples))))
  /\ state (fix_windowSize sd) = state sd
  /\ inputBuf (fix_windowSize sd) = inputBuf sd
  /\ forall other_run, Infer other_run sd samples = Infer ort_run sd samples.
Proof.
  intros H. repeat split.
  - now apply Infer_rejects.
  - unfold fix_windowSize. now destruct (windowSize sd =? 0).
  - unfold fix_windowSize. now destruct (windowSize sd =? 0).
  - intros other. now rewrite !Infer_rejects.
Qed.

Lemma context_length sd :
  well_formed sd -> length (context sd) = Z.to_nat contextLen.
Proof.
  intros Hwf. pose proof (well_formed_windowSize sd Hwf) as Hws.
  destruct Hwf as (_ & _ & Hb).
  unfold context, slice_to. rewrite length_firstn.
  unfold len, contextLen in *. lia.
Qed.

(** On a window of the right length the engine is run on the context
    followed by the window; on success the state is replaced and the
    context becomes the tail of the window. *)
Lemma Infer_accepts sd w :
  well_formed sd -> len w = windowSize sd ->
  Infer ort_run sd w =
  match ort_run (context sd ++ w) (state sd) (SampleRate (cfg sd)) with
  | None => (set_inputBuf (context sd ++ w) sd, (0%Q, Some ErrOrt))
  | Some (p, stateN) =>
      (set_inputBuf (window_tail w ++ w) (set_state stateN sd), (p, None))
  end.
Proof.
  intros Hwf Hlen. pose proof (well_formed_windowSize sd Hwf) as Hws.
  pose proof (context_length sd Hwf) as Hctx.
  destruct Hwf as (Hr & Hw & Hb).
  unfold Infer. rewrite fix_windowSize_id by lia.
  apply Z.eqb_eq in Hlen as Hlen'. rewrite Hlen'. cbn [negb].
  assert (Ha : GoInt.add contextLen (windowSize sd) = contextLen + windowSize sd).
  { unfold GoInt.add. apply wrap_small.
    unfold GoInt.in_range, GoInt.min_int, GoInt.max_int, contextLen. lia. }
  rewrite Ha. apply Z.eqb_eq in Hb as Hb'. rewrite Hb'. cbn [negb].
  assert (Hc : copy (slice_from (inputBuf sd) contextLen) w = w).
  { apply copy_full. unfold slice_from. rewrite length_skipn.
    unfold len, contextLen in *. lia. }
  rewrite Hc. fold (context sd).
  cbn [inputBuf set_inputBuf state cfg set_state windowSize].
  destruct (ort_run (context sd ++ w) (state sd) (SampleRate (cfg sd)))
    as [[p st]|]; [|reflexivity].
  assert (E1 : slice_to (context sd ++ w) contextLen = context sd).
  { unfold slice_to. now apply firstn_app_exact. }
  assert (E2 : slice_from (context sd ++ w) contextLen = w).
  { unfold slice_from. now apply skipn_app_exact. }
  assert (E3 : slice_from (context sd ++ w) (windowSize sd) = window_tail w).
  { unfold slice_from, window_tail. rewrite skipn_app_ge.
    - f_equal. unfold len, contextLen in *. lia.
    - unfold contextLen in *. lia. }
  rewrite E1, E2, E3.
  rewrite copy_full.
  - reflexivity.
  - unfold window_tail. rewrite length_skipn, Hctx. unfold len, contextLen in *. lia.
Qed.

(** ** Invariants of the trigger and of the buffers *)

Lemma advanceSpeech_consistent sd p mins pad sd' ev err :
  trigger_consistent sd ->
  advanceSpeech sd p mins pad = (sd', (ev, err)) ->
  trigger_consistent sd' /\ err = None.
Proof.
  unfold trigger_consistent, advanceSpeech. intros Ht.
  destruct (pendingStartValid sd) eqn:Hv;
    repeat (cbn -[GoInt.sub GoInt.add Qdiv]; rewrite ?Ht, ?Hv;
            match goal with
            | |- context [if ?b then _ else _] =>
                lazymatch b with
                | context [if _ then _ else _] => fail
                | _ => destruct b eqn:?
                end
            end);
    cbn -[GoInt.sub GoInt.add Qdiv]; rewrite ?Ht, ?Hv;
    intros H; inversion H; subst; cbn; rewrite ?Ht, ?Hv;
    rewrite ?andb_false_r, ?andb_true_r in *; try discriminate; auto.
Qed.

Lemma Infer_well_formed sd w sd' r :
  well_formed sd -> Infer ort_run sd w = (sd', r) -> well_formed sd'.
Proof.
  intros Hwf H. pose proof (well_formed_windowSize sd Hwf) as Hws.
  pose proof (context_length sd Hwf) as Hctx.
  destruct (Z.eq_dec (len w) (windowSize sd)) as [E|E].
  - rewrite (Infer_accepts sd w Hwf E) in H.
    destruct Hwf as (Hr & Hw & Hb).
    assert (Hl : forall t, length t = Z.to_nat contextLen -> len (t ++ w) = contextLen + windowSize sd).
    { intros t Ht. rewrite len_app, <- E. unfold len at 1. rewrite Ht. unfold contextLen. lia. }
    destruct (ort_run _ _ _) as [[p st]|]; inversion H; subst; unfold well_formed; simpl;
      repeat split; auto.
    + apply Hl. unfold window_tail. rewrite length_skipn. unfold len, contextLen in *. lia.
  - rewrite <- (well_formed_fix sd Hwf) in E.
    rewrite (Infer_rejects ort_run sd w E) in H.
    inversion H; subst. now rewrite well_formed_fix.
Qed.

Lemma processWindow_streamBuf b sd w mins pad :
  processWindow ort_run (set_streamBuf b sd) w mins pad
  = let '(sd', r) := processWindow ort_run sd w mins pad in (set_streamBuf b sd', r).
Proof.
  unfold processWindow, Infer, fix_windowSize, advanceSpeech.
  repeat (simp;
          first [ split_if
                | match goal with
                  | |- context [match ort_run ?a ?b ?c with _ => _ end] =>
                      destruct (ort_run a b c) as [[? ?]|]
                  end ]);
    simp; reflexivity.
Qed.


Lemma processWindow_ok sd w mins pad sd1 p :
  Infer ort_run sd w = (sd1, (p, None)) ->
  processWindow ort_run sd w mins pad
  = advanceSpeech (set_currSample (GoInt.add (currSample sd1) (windowSize sd1)) sd1)
                  p mins pad.
Proof. intros H. unfold processWindow. now rewrite H. Qed.

Lemma processWindow_failed sd w mins pad sd1 p e :
  Infer ort_run sd w = (sd1, (p, Some e)) ->
  processWindow ort_run sd w mins pad = (sd1, (zero_event, Some (ErrInferFailed e))).
Proof. intros H. unfold processWindow. now rewrite H. Qed.

Lemma well_formed_same a b :
  cfg b = cfg a -> windowSize b = windowSize a -> inputBuf b = inputBuf a ->
  well_formed a -> well_formed b.
Proof. unfold well_formed. intros -> -> ->. auto. Qed.

(** One window keeps the detector well formed and the trigger consistent;
    the only error it can return is a failed inference. *)
Lemma processWindow_good sd w mins pad sd' ev err :
  good sd ->
  processWindow ort_run sd w mins pad = (sd', (ev, err)) ->
  good sd' /\ (err = None \/ exists e, err = Some (ErrInferFailed e)).
Proof.
  intros [Hwf Htc] H.
  destruct (Infer ort_run sd w) as [sd1 [p [e|]]] eqn:HI.
  - rewrite (processWindow_failed _ _ _ _ _ _ _ HI) in H. inversion H; subst.
    split; [|right; eauto]. split.
    + eapply Infer_well_formed; eauto.
    + apply Infer_frame in HI. unfold trigger_consistent in *.
      destruct HI as (_ & _ & _ & -> & _ & _ & -> & _). exact Htc.
  - rewrite (processWindow_ok _ _ _ _ _ _ HI) in H.
    pose proof (Infer_well_formed _ _ _ _ Hwf HI) as Hwf1.
    pose proof (Infer_frame _ _ _ _ HI) as (_ & _ & _ & Hv & _ & _ & Ht & _).
    apply advanceSpeech_consistent in H as Hc.
    2:{ unfold trigger_consistent in *. simpl. congruence. }
    destruct Hc as [Hc ->]. split; [|now left]. split; [|exact Hc].
    apply advanceSpeech_frame in H. simpl in H.
    destruct H as (Hcfg & _ & Hws & Hib & _).
    eapply well_formed_same; eauto.
Qed.

(** ** Windows *)

Lemma split_windows_is_split {A} n fuel (l : list A) :
  (0 < n)%nat -> (length l <= fuel)%nat ->
  is_split n l (fst (split_windows fuel n l)) (snd (split_windows fuel n l)).
Proof.
  intros Hn. revert l. induction fuel as [|fuel IH]; intros l Hl.
  - destruct l; [|simpl in Hl; lia]. simpl. repeat split; auto. 
  - cbn [split_windows]. destruct (n <=? length l)%nat eqn:E.
    + apply Nat.leb_le in E.
      specialize (IH (skipn n l)). rewrite length_skipn in IH.
      destruct (split_windows fuel n (skipn n l)) as [ws r]. cbn [fst snd] in *.
      destruct IH as (H1 & H2 & H3); [lia|].
      repeat split; auto.
      * cbn [concat]. rewrite <- app_assoc, <- H1. symmetry. apply firstn_skipn.
      * constructor; auto. rewrite length_firstn. lia.
    + apply Nat.leb_gt in E. cbn [fst snd]. repeat split; auto.
Qed.

Lemma windows_is_split {A} n (l : list A) :
  (0 < n)%nat -> is_split n l (windows n l) (remainder n l).
Proof. intros Hn. apply split_windows_is_split; auto. Qed.

Lemma is_split_unique {A} n (l : list A) ws r ws' r' :
  is_split n l ws r -> is_split n l ws' r' -> ws = ws' /\ r = r'.
Proof.
  revert l ws'. induction ws as [|w ws IH]; intros l ws' (H1 & H2 & H3) (H1' & H2' & H3').
  - cbn [concat app] in H1. rewrite H1 in H1'. destruct ws' as [|w' ws'].
    + cbn [concat app] in H1'. auto.
    + exfalso. apply Forall_inv in H2'. cbv beta in H2'. cbn [concat] in H1'.
      apply (f_equal (@length A)) in H1'. rewrite !length_app in H1'. lia.
  - pose proof (Forall_inv H2) as Hw. cbv beta in Hw. apply Forall_inv_tail in H2.
    rewrite H1 in H1'. destruct ws' as [|w' ws'].
    + exfalso. cbn [concat app] in H1'.
      apply (f_equal (@length A)) in H1'. rewrite !length_app in H1'. lia.
    + pose proof (Forall_inv H2') as Hw'. cbv beta in Hw'. apply Forall_inv_tail in H2'.
      cbn [concat] in H1'. rewrite <- !app_assoc in H1'.
      assert (E : w = w').
      { apply (f_equal (firstn n)) in H1'.
        now rewrite !firstn_app_exact in H1' by assumption. }
      rewrite <- E in H1'. apply app_inv_head in H1'.
      destruct (IH (concat ws ++ r) ws') as [E1 E2].
      * repeat split; auto.
      * repeat split; auto.
      * subst. auto.
Qed.

Lemma is_split_app {A} n (l1 l2 : list A) ws1 r1 ws2 r2 :
  is_split n l1 ws1 r1 -> is_split n (r1 ++ l2) ws2 r2 ->
  is_split n (l1 ++ l2) (ws1 ++ ws2) r2.
Proof.
  intros (H1 & H2 & H3) (H1' & H2' & H3'). repeat split; auto.
  - rewrite concat_app, H1, <- !app_assoc, H1'. reflexivity.
  - apply Forall_app. auto.
Qed.

Lemma is_split_length {A} n (l : list A) ws r :
  is_split n l ws r -> length l = (n * length ws + length r)%nat.
Proof.
  intros (H1 & H2 & _). subst l. rewrite length_app. f_equal.
  induction H2 as [|w ws Hw _ IH]; cbn [concat length]; [lia|].
  rewrite length_app, IH, Hw. lia.
Qed.


(** ** The loops run [processWindow] over the windows in order *)

Lemma detect_loop_run ws : forall pre r sd segs fuel n mins pad,
  (0 < n)%nat -> Forall (fun w => length w = n) ws -> (length r < n)%nat ->
  (length ws < fuel)%nat ->
  detect_loop ort_run fuel sd (pre ++ concat ws ++ r) (Z.of_nat n) mins pad
              (len pre) segs
  = Some (run_windows ort_run batch_append sd ws mins pad segs).
Proof.
  induction ws as [|w ws IH]; intros pre r sd segs fuel n mins pad Hn Hws Hr Hfuel.
  - destruct fuel as [|fuel]; [lia|]. cbn [concat app detect_loop run_windows].
    rewrite len_app. unfold len.
    destruct (_ <=? _) eqn:E; [apply Z.leb_le in E; lia|reflexivity].
  - destruct fuel as [|fuel]; [cbn [length] in Hfuel; lia|].
    pose proof (Forall_inv Hws) as Hw. cbv beta in Hw. apply Forall_inv_tail in Hws.
    cbn [concat detect_loop run_windows]. rewrite <- app_assoc.
    replace (len pre + Z.of_nat n <=? len (pre ++ w ++ concat ws ++ r)) with true.
    2:{ symmetry. apply Z.leb_le. rewrite !len_app. unfold len. lia. }
    replace (Z.of_nat n) with (len w) by (unfold len; lia).
    rewrite slice_middle.
    destruct (processWindow ort_run sd w mins pad) as [sd1 [ev [e|]]]; [reflexivity|].
    specialize (IH (pre ++ w) r sd1 (batch_append segs ev) fuel n mins pad Hn Hws Hr).
    rewrite len_app, <- app_assoc in IH.
    replace (len w) with (Z.of_nat n) in * by (unfold len; lia).
    apply IH. cbn [length] in Hfuel. lia.
Qed.

Lemma stream_loop_run ws : forall pre r sd segs fuel n mins pad,
  (0 < n)%nat -> Forall (fun w => length w = n) ws -> (length r < n)%nat ->
  (length ws < fuel)%nat ->
  stream_loop ort_run fuel sd (pre ++ concat ws ++ r) (Z.of_nat n) mins pad
              (len pre) segs
  = Some (match run_windows ort_run stream_append sd ws mins pad segs with
          | (sd', (segs', None)) =>
              ((if 0 <? len r then set_streamBuf (streamBuf sd' ++ r) sd' else sd'),
               (segs', None))
          | failed => failed
          end).
Proof.
  induction ws as [|w ws IH]; intros pre r sd segs fuel n mins pad Hn Hws Hr Hfuel.
  - destruct fuel as [|fuel]; [lia|]. cbn [concat app stream_loop run_windows].
    rewrite len_app.
    destruct (_ <=? _) eqn:E; [apply Z.leb_le in E; unfold len in E; lia|].
    replace (len pre <? len pre + len r) with (0 <? len r).
    2:{ destruct (0 <? len r) eqn:E1; symmetry.
        - apply Z.ltb_lt. apply Z.ltb_lt in E1. lia.
        - apply Z.ltb_ge. apply Z.ltb_ge in E1. lia. }
    rewrite slice_from_app. reflexivity.
  - destruct fuel as [|fuel]; [cbn [length] in Hfuel; lia|].
    pose proof (Forall_inv Hws) as Hw. cbv beta in Hw. apply Forall_inv_tail in Hws.
    cbn [concat stream_loop run_windows]. rewrite <- app_assoc.
    replace (len pre + Z.of_nat n <=? len (pre ++ w ++ concat ws ++ r)) with true.
    2:{ symmetry. apply Z.leb_le. rewrite !len_app. unfold len. lia. }
    replace (Z.of_nat n) with (len w) by (unfold len; lia).
    rewrite slice_middle.
    destruct (processWindow ort_run sd w mins pad) as [sd1 [ev [e|]]]; [reflexivity|].
    specialize (IH (pre ++ w) r sd1 (stream_append segs ev) fuel n mins pad Hn Hws Hr).
    rewrite len_app, <- app_assoc in IH.
    replace (len w) with (Z.of_nat n) in * by (unfold len; lia).
    apply IH. cbn [length] in Hfuel. lia.
Qed.

Lemma is_split_count {A} n (l : list A) ws r :
  (0 < n)%nat -> is_split n l ws r -> (length ws <= length l)%nat.
Proof.
  intros Hn H. apply is_split_length in H. nia.
Qed.


Lemma set_streamBuf_id sd : set_streamBuf (streamBuf sd) sd = sd.
Proof. now destruct sd. Qed.

Lemma set_streamBuf_twice a b sd : set_streamBuf a (set_streamBuf b sd) = set_streamBuf a sd.
Proof. reflexivity. Qed.

Lemma run_windows_streamBuf append b ws : forall sd mins pad segs,
  run_windows ort_run append (set_streamBuf b sd) ws mins pad segs
  = let '(sd', r) := run_windows ort_run append sd ws mins pad segs in
    (set_streamBuf b sd', r).
Proof.
  induction ws as [|w ws IH]; intros sd mins pad segs; cbn [run_windows].
  - reflexivity.
  - rewrite processWindow_streamBuf.
    destruct (processWindow ort_run sd w mins pad) as [sd1 [ev [e|]]].
    + reflexivity.
    + apply IH.
Qed.

Lemma Detect_run sd pcm :
  well_formed sd ->
  Detect ort_run sd pcm
  = if len pcm <? windowSize sd then Some (sd, ([], Some ErrNotEnoughSamples))
    else Some (run_windows ort_run batch_append sd
                 (windows (Z.to_nat (windowSize sd)) pcm)
                 (minSilenceSamplesOf (cfg sd)) (speechPadSamplesOf (cfg sd)) []).
Proof.
  intros Hwf. pose proof (well_formed_windowSize sd Hwf) as Hws.
  unfold Detect. rewrite (well_formed_fix sd Hwf).
  destruct (len pcm <? windowSize sd); [reflexivity|].
  set (n := Z.to_nat (windowSize sd)).
  assert (Hn : (0 < n)%nat) by lia.
  pose proof (windows_is_split n pcm Hn) as Hs.
  pose proof (is_split_count n pcm _ _ Hn Hs) as Hc.
  destruct Hs as (H1 & H2 & H3).
  pose proof (detect_loop_run (windows n pcm) [] (remainder n pcm) sd []
                (S (length pcm)) n (minSilenceSamplesOf (cfg sd))
                (speechPadSamplesOf (cfg sd)) Hn H2 H3 ltac:(lia)) as L.
  cbn [app] in L. rewrite <- H1 in L.
  replace (Z.of_nat n) with (windowSize sd) in L by lia. exact L.
Qed.

Lemma windows_short {A} n (l : list A) :
  (length l < n)%nat -> windows n l = [] /\ remainder n l = l.
Proof.
  intros H. assert (Hn : (0 < n)%nat) by lia.
  apply (is_split_unique n l _ _ [] l (windows_is_split n l Hn)).
  repeat split; auto.
Qed.

Lemma windows_cons {A} n (w rest : list A) :
  (0 < n)%nat -> length w = n ->
  windows n (w ++ rest) = w :: windows n rest
  /\ remainder n (w ++ rest) = remainder n rest.
Proof.
  intros Hn Hw.
  apply (is_split_unique n (w ++ rest) _ _ (w :: windows n rest) (remainder n rest)
           (windows_is_split n _ Hn)).
  destruct (windows_is_split n rest Hn) as (H1 & H2 & H3).
  repeat split; auto. cbn [concat]. rewrite <- app_assoc. now rewrite <- H1.
Qed.


Lemma run_windows_keeps_streamBuf append sd ws mins pad segs :
  streamBuf (fst (run_windows ort_run append sd ws mins pad segs)) = streamBuf sd.
Proof.
  rewrite <- (set_streamBuf_id sd) at 1. rewrite run_windows_streamBuf.
  now destruct (run_windows ort_run append sd ws mins pad segs).
Qed.

Lemma stream_tail_buffer r sd :
  (if 0 <? len r then set_streamBuf ([] ++ r) (set_streamBuf [] sd)
   else set_streamBuf [] sd) = set_streamBuf r sd.
Proof.
  destruct r as [|x r]; [reflexivity|].
  replace (0 <? len (x :: r)) with true; [reflexivity|].
  symmetry. apply Z.ltb_lt. unfold len. cbn [length]. lia.
Qed.

Lemma DetectStream_run sd pcm :
  well_formed sd ->
  (length (streamBuf sd) <= Z.to_nat (windowSize sd))%nat ->
  pcm <> [] ->
  exists b, (length b <= Z.to_nat (windowSize sd))%nat
            /\ DetectStream ort_run sd pcm = Some (stream_outcome ort_run sd pcm b).
Proof.
  intros Hwf Hbuf Hpcm. pose proof (well_formed_windowSize sd Hwf) as Hws.
  set (n := Z.to_nat (windowSize sd)) in *.
  assert (Hn : (0 < n)%nat) by lia.
  assert (Hnz : Z.of_nat n = windowSize sd) by lia.
  unfold DetectStream, stream_outcome. fold n.
  replace (len pcm =? 0) with false.
  2:{ symmetry. apply Z.eqb_neq. destruct pcm; [congruence|]. unfold len.
      cbn [length]. lia. }
  rewrite (well_formed_fix sd Hwf).
  set (mins := minSilenceSamplesOf (cfg sd)). set (pad := speechPadSamplesOf (cfg sd)).
  destruct (streamBuf sd) as [|x xs] eqn:Hsb.
  - (* nothing carried over *)
    replace (0 <? len (@nil F32)) with false by reflexivity. cbn [app].
    destruct (windows_is_split n pcm Hn) as (H1 & H2 & H3).
    pose proof (is_split_count n pcm _ _ Hn (windows_is_split n pcm Hn)) as Hc.
    pose proof (stream_loop_run (windows n pcm) [] (remainder n pcm) sd []
                  (S (length pcm)) n mins pad Hn H2 H3 ltac:(lia)) as L.
    cbn [app] in L. rewrite <- H1, Hnz in L. change (len []) with 0 in L.
    rewrite L. clear L.
    pose proof (run_windows_keeps_streamBuf stream_append sd (windows n pcm) mins pad [])
      as Hk.
    destruct (run_windows ort_run stream_append sd (windows n pcm) mins pad [])
      as [sd' [segs [e|]]]; cbn [fst] in Hk; rewrite Hsb in Hk.
    + exists []. split; [cbn [length]; lia|].
      rewrite <- Hk. now rewrite set_streamBuf_id.
    + assert (E : set_streamBuf [] sd' = sd')
        by (rewrite <- Hk; apply set_streamBuf_id).
      exists []. split; [cbn [length]; lia|].
      rewrite Hk, <- (stream_tail_buffer (remainder n pcm) sd'), E. reflexivity.
  - (* a partial window is pending *)
    remember (x :: xs) as buf eqn:Ebuf.
    assert (Hbl : 0 < len buf) by (subst buf; unfold len; cbn [length]; lia).
    clear Ebuf x xs.
    replace (0 <? len buf) with true by (symmetry; now apply Z.ltb_lt).
    destruct (len pcm <? windowSize sd - len buf) eqn:Hshort.
    + apply Z.ltb_lt in Hshort. exists []. split; [cbn [length]; lia|].
      destruct (windows_short n (buf ++ pcm)) as [-> ->].
      { rewrite length_app. unfold len in Hshort. lia. }
      reflexivity.
    + apply Z.ltb_ge in Hshort.
      remember (buf ++ slice_to pcm (windowSize sd - len buf)) as w1 eqn:Ew1.
      set (k := Z.to_nat (windowSize sd - len buf)).
      assert (Hk : (k <= length pcm)%nat) by (unfold len in *; lia).
      assert (Hw1 : length w1 = n).
      { subst w1. unfold slice_to. fold k. rewrite length_app, length_firstn.
        unfold len in *. lia. }
      assert (Hall : buf ++ pcm = w1 ++ skipn k pcm).
      { subst w1. unfold slice_to. fold k. rewrite <- app_assoc.
        now rewrite firstn_skipn. }
      clear Ew1.
      rewrite Hall. destruct (windows_cons n w1 (skipn k pcm) Hn Hw1) as [-> ->].
      cbn [run_windows]. cbv zeta. cbn [streamBuf set_streamBuf].
      rewrite processWindow_streamBuf.
      destruct (processWindow ort_run sd w1 mins pad) as [sd1 [ev [e|]]].
      * exists w1. split; [lia|]. reflexivity.
      * destruct (windows_is_split n (skipn k pcm) Hn) as (H1 & H2 & H3).
        pose proof (is_split_count n _ _ _ Hn (windows_is_split n (skipn k pcm) Hn)) as Hc.
        rewrite length_skipn in Hc.
        pose proof (stream_loop_run (windows n (skipn k pcm)) (firstn k pcm)
                      (remainder n (skipn k pcm)) (set_streamBuf [] sd1)
                      (stream_append [] ev)
                      (S (length pcm)) n mins pad Hn H2 H3 ltac:(lia)) as L.
        rewrite <- H1, firstn_skipn, Hnz in L.
        replace (len (firstn k pcm)) with (windowSize sd - len buf) in L.
        2:{ unfold len. rewrite length_firstn. unfold len in *. lia. }
        assert (L' : stream_loop ort_run (S (length pcm))
                       (set_streamBuf (slice_to w1 0) (set_streamBuf w1 sd1)) pcm
                       (windowSize sd) mins pad (windowSize sd - len buf)
                       (stream_append [] ev)
                     = Some (match run_windows ort_run stream_append sd1
                                     (windows n (skipn k pcm)) mins pad
                                     (stream_append [] ev) with
                             | (sd', (segs', None)) =>
                                 (set_streamBuf (remainder n (skipn k pcm)) sd',
                                  (segs', None))
                             | (sd', (segs', Some e)) =>
                                 (set_streamBuf [] sd', (segs', Some e))
                             end)).
        { replace (slice_to w1 0) with (@nil F32) by reflexivity.
          rewrite set_streamBuf_twice, L, run_windows_streamBuf.
          destruct (run_windows ort_run stream_append sd1 (windows n (skipn k pcm))
                      mins pad (stream_append [] ev)) as [sd2 [segs [e|]]].
          - reflexivity.
          - now rewrite stream_tail_buffer. }
        exists []. split; [cbn [length]; lia|]. exact L'.
Qed.


(** ** Every reachable detector is sound *)

Lemma processWindow_frame sd w mins pad sd' r :
  well_formed sd ->
  processWindow ort_run sd w mins pad = (sd', r) ->
  cfg sd' = cfg sd /\ windowSize sd' = windowSize sd /\ streamBuf sd' = streamBuf sd.
Proof.
  intros Hwf H. unfold processWindow in H.
  destruct (Infer ort_run sd w) as [sd1 [p [e|]]] eqn:HI;
    apply Infer_frame in HI; rewrite (well_formed_fix sd Hwf) in HI;
    destruct HI as (Hc & Hw & _ & _ & Hs & _).
  - inversion H; subst. auto.
  - apply advanceSpeech_frame in H. simp in H.
    destruct H as (Hc' & _ & Hw' & _ & Hs' & _). repeat split; congruence.
Qed.

Lemma run_windows_good append ws : forall sd mins pad segs sd' segs' err,
  good sd ->
  run_windows ort_run append sd ws mins pad segs = (sd', (segs', err)) ->
  good sd' /\ cfg sd' = cfg sd /\ windowSize sd' = windowSize sd
  /\ (err = None \/ exists e, err = Some (ErrInferFailed e)).
Proof.
  induction ws as [|w ws IH]; intros sd mins pad segs sd' segs' err Hg H;
    cbn [run_windows] in H.
  - inversion H; subst. auto.
  - destruct (processWindow ort_run sd w mins pad) as [sd1 [ev o]] eqn:HP.
    destruct (processWindow_good _ _ _ _ _ _ _ Hg HP) as [Hg1 He].
    destruct (processWindow_frame _ _ _ _ _ _ (proj1 Hg) HP) as (Hc & Hw & _).
    destruct o as [e|].
    + inversion H; subst. auto.
    + destruct (IH _ _ _ _ _ _ _ Hg1 H) as (Hg' & Hc' & Hw' & He').
      split; [assumption|]. split; [congruence|]. split; [congruence|assumption].
Qed.

Lemma good_set_streamBuf b sd : good sd -> good (set_streamBuf b sd).
Proof. intros [H1 H2]. split; assumption. Qed.

Lemma NewDetector_fields c sd :
  NewDetector c = inl sd ->
  IsValid c = None
  /\ sd = {| cfg := c; state := zero_state;
             windowSize := windowSizeForSampleRate (SampleRate c);
             inputBuf := make (contextLen + windowSizeForSampleRate (SampleRate c));
             pendingStart := 0%Q; pendingStartValid := false; streamBuf := [];
             currSample := 0; triggered := false; tempEnd := 0 |}.
Proof.
  unfold NewDetector. destruct (IsValid c) eqn:E; [discriminate|].
  intros H. inversion H. split; [reflexivity|]. f_equal.
  unfold windowSizeForSampleRate. destruct (SampleRate c =? 8000); reflexivity.
Qed.

Lemma IsValid_SampleRate c :
  IsValid c = None -> SampleRate c = 8000 \/ SampleRate c = 16000.
Proof.
  unfold IsValid. destruct (String.eqb _ _); [discriminate|].
  destruct (SampleRate c =? 8000) eqn:E1; [apply Z.eqb_eq in E1; auto|].
  destruct (SampleRate c =? 16000) eqn:E2; [apply Z.eqb_eq in E2; auto|].
  discriminate.
Qed.

Lemma NewDetector_sound c sd : NewDetector c = inl sd -> sound sd.
Proof.
  intros H. apply NewDetector_fields in H as [Hv ->].
  pose proof (IsValid_SampleRate c Hv) as Hr.
  repeat split; simp; auto.
  - apply len_make. unfold windowSizeForSampleRate, contextLen.
    destruct (SampleRate c =? 8000); lia.
  - cbn [length]. lia.
Qed.

Lemma Reset_sound sd : sound sd -> sound (Reset sd).
Proof.
  intros [[(Hr & Hw & Hb) Ht] Hs]. unfold Reset. repeat split; simp; auto.
  - unfold clear, len in *. now rewrite length_map.
  - unfold slice_to. cbn [Z.to_nat firstn length]. lia.
Qed.

Lemma do_call_sound sd c sd' r :
  sound sd -> do_call ort_run sd c = Some (sd', r) -> sound sd'.
Proof.
  intros Hs H. destruct Hs as [Hg Hb]. pose proof Hg as [Hwf Ht].
  destruct c as [samples|pcm|pcm| |value]; cbn [do_call] in H.
  - destruct (Infer ort_run sd samples) as [sd1 [p err]] eqn:HI. inversion H; subst.
    pose proof (Infer_well_formed _ _ _ _ Hwf HI) as Hwf'.
    apply Infer_frame in HI. rewrite (well_formed_fix sd Hwf) in HI.
    destruct HI as (_ & Hw & _ & Hv & Hsb & _ & Htr & _).
    repeat split; try apply Hwf'.
    + unfold trigger_consistent in *. congruence.
    + rewrite Hsb, Hw. exact Hb.
  - rewrite (Detect_run sd pcm Hwf) in H.
    destruct (len pcm <? windowSize sd).
    + inversion H; subst. split; assumption.
    + pose proof (run_windows_keeps_streamBuf batch_append sd
                    (windows (Z.to_nat (windowSize sd)) pcm)
                    (minSilenceSamplesOf (cfg sd)) (speechPadSamplesOf (cfg sd)) []) as Hk.
      destruct (run_windows ort_run batch_append sd _ _ _ _) as [sd1 [segs err]] eqn:R.
      inversion H; subst. cbn [fst] in Hk.
      destruct (run_windows_good _ _ _ _ _ _ _ _ _ Hg R) as (Hg' & _ & Hw & _).
      split; [exact Hg'|]. rewrite Hk, Hw. exact Hb.
  - destruct pcm as [|x pcm].
    + cbn in H. inversion H; subst. split; assumption.
    + destruct (DetectStream_run sd (x :: pcm) Hwf Hb ltac:(discriminate))
        as (b & Hbl & E).
      rewrite E in H. unfold stream_outcome in H.
      destruct (run_windows ort_run stream_append sd _ _ _ _) as [sd1 [segs err]] eqn:R.
      destruct (run_windows_good _ _ _ _ _ _ _ _ _ Hg R) as (Hg' & _ & Hw & _).
      destruct err as [e|]; inversion H; subst.
      * split; [now apply good_set_streamBuf|]. simp. rewrite Hw. exact Hbl.
      * split; [now apply good_set_streamBuf|]. simp. rewrite Hw.
        pose proof (well_formed_windowSize sd Hwf).
        destruct (windows_is_split (Z.to_nat (windowSize sd))
                    (streamBuf sd ++ x :: pcm)) as (_ & _ & H3); lia.
  - inversion H; subst. apply Reset_sound. split; assumption.
  - inversion H; subst. unfold SetThreshold. repeat split; simp; try apply Hwf; auto.
Qed.

Lemma reachable_sound sd : reachable ort_run sd -> sound sd.
Proof.
  induction 1 as [c sd H|sd c sd' r _ IH H].
  - eapply NewDetector_sound; eauto.
  - eapply do_call_sound; eauto.
Qed.


(** ** Errors and resets *)

Lemma Infer_errors sd w sd' p e :
  Infer ort_run sd w = (sd', (p, Some e)) ->
  e = ErrOrt \/ exists a b, e = ErrSamplesLength a b.
Proof.
  unfold Infer.
  destruct (negb (len w =? windowSize (fix_windowSize sd))).
  - intros H. inversion H. right. eauto.
  - cbv zeta. destruct (ort_run _ _ _) as [[? ?]|]; intros H; inversion H. now left.
Qed.

Lemma run_windows_errors append sd ws mins pad segs sd' segs' e :
  good sd ->
  run_windows ort_run append sd ws mins pad segs = (sd', (segs', Some e)) ->
  e <> ErrUnexpectedSpeechEnd.
Proof.
  intros Hg H. apply run_windows_good in H; [|exact Hg].
  destruct H as (_ & _ & _ & [H|[e' H]]); [discriminate|].
  inversion H. discriminate.
Qed.

(** C6: in every detector reachable from [NewDetector] by any mix of
    [Infer], [Detect], [DetectStream], [Reset] and [SetThreshold] calls,
    [triggered] implies [pendingStartValid]; hence [advanceSpeech] never
    takes the "unexpected speech end" branch there, and no call returns
    that error. *)
Theorem no_unexpected_speech_end sd :
  reachable ort_run sd ->
  (triggered sd = true -> pendingStartValid sd = true)
  /\ (forall curr p mins pad,
        snd (snd (advanceSpeech (set_currSample curr sd) p mins pad)) = None)
  /\ (forall c sd' r,
        do_call ort_run sd c = Some (sd', r) ->
        reply_error r <> Some ErrUnexpectedSpeechEnd).
Proof.
  intros Hr. apply reachable_sound in Hr. destruct Hr as [Hg Hb].
  pose proof Hg as [Hwf Ht]. split; [|split].
  - unfold trigger_consistent in Ht. congruence.
  - intros curr p mins pad.
    destruct (advanceSpeech (set_currSample curr sd) p mins pad) as [sd' [ev err]] eqn:E.
    apply advanceSpeech_consistent in E; [|exact Ht]. apply E.
  - intros c sd' r H. destruct c as [samples|pcm|pcm| |value]; cbn [do_call] in H.
    + destruct (Infer ort_run sd samples) as [sd1 [p [e|]]] eqn:HI;
        inversion H; subst; cbn [reply_error]; [|discriminate].
      apply Infer_errors in HI. destruct HI as [->|(a & b & ->)]; discriminate.
    + rewrite (Detect_run sd pcm Hwf) in H. destruct (len pcm <? windowSize sd).
      * inversion H; subst. cbn [reply_error]. discriminate.
      * destruct (run_windows ort_run batch_append sd _ _ _ _)
          as [sd1 [segs [e|]]] eqn:R; inversion H; subst; cbn [reply_error];
          [|discriminate].
        intros E. inversion E; subst. eapply run_windows_errors; eauto.
    + destruct pcm as [|x pcm].
      * cbn in H. inversion H; subst. cbn [reply_error]. discriminate.
      * destruct (DetectStream_run sd (x :: pcm) Hwf Hb ltac:(discriminate))
          as (b & Hbl & E).
        rewrite E in H. unfold stream_outcome in H.
        destruct (run_windows ort_run stream_append sd _ _ _ _)
          as [sd1 [segs [e|]]] eqn:R; inversion H; subst; cbn [reply_error];
          [|discriminate].
        intros E'. inversion E'; subst. eapply run_windows_errors; eauto.
    + inversion H; subst. cbn [reply_error]. discriminate.
    + inversion H; subst. cbn [reply_error]. discriminate.
Qed.

(** C8: [Detect] on fewer samples than one window (256 at 8000 Hz, 512 at
    16000 Hz) returns the "not enough samples" error and a nil segment
    list; the detector is left as it was (no inference, no event), and the
    result does not depend on the engine. *)
Theorem Detect_insufficient_input sd pcm :
  reachable ort_run sd ->
  len pcm < windowSize sd ->
  Detect ort_run sd pcm = Some (sd, ([], Some ErrNotEnoughSamples))
  /\ (forall other_run, Detect other_run sd pcm = Detect ort_run sd pcm)
  /\ (SampleRate (cfg sd) = 8000 /\ windowSize sd = 256
      \/ SampleRate (cfg sd) = 16000 /\ windowSize sd = 512).
Proof.
  intros Hr Hlen. apply reachable_sound in Hr. destruct Hr as [[Hwf _] _].
  assert (E : forall run, Detect run sd pcm = Some (sd, ([], Some ErrNotEnoughSamples))).
  { intros run. unfold Detect. rewrite (well_formed_fix sd Hwf).
    apply Z.ltb_lt in Hlen. now rewrite Hlen. }
  split; [apply E|]. split; [intros other; now rewrite !E|].
  destruct Hwf as (Hrate & Hw & _). rewrite Hw. unfold windowSizeForSampleRate.
  destruct Hrate as [R|R]; rewrite R; [left|right]; now split.
Qed.

Lemma Reset_fresh sd d1 :
  sound sd -> NewDetector (cfg sd) = inl d1 -> Reset sd = d1.
Proof.
  intros [[(Hr & Hw & Hb) _] _] H. apply NewDetector_fields in H as [_ ->].
  unfold Reset. simp. unfold set_inputBuf. simp.
  rewrite vector_map_const, clear_make, Hb, Hw. reflexivity.
Qed.

(** C7: [Reset] puts a reachable detector into exactly the state
    [NewDetector] builds for its configuration: recurrent state, context,
    carry-over buffer and trigger state all agree, so replaying any
    sequence of calls gives the same replies as on the new detector. *)
Theorem Reset_replays_like_new sd d1 calls :
  reachable ort_run sd ->
  NewDetector (cfg sd) = inl d1 ->
  Reset sd = d1
  /\ do_calls ort_run (Reset sd) calls = do_calls ort_run d1 calls.
Proof.
  intros Hr H. apply reachable_sound in Hr.
  pose proof (Reset_fresh sd d1 Hr H) as E. split; [exact E|now rewrite E].
Qed.


(** ** The batch assembler *)

Lemma rev_last_removelast {A} (l : list A) d :
  l <> [] -> rev l = last l d :: rev (removelast l).
Proof.
  intros H. rewrite (app_removelast_last d H) at 1.
  rewrite rev_app_distr. reflexivity.
Qed.

Lemma batch_append_assemble_step segs ev :
  batch_append segs ev = assemble_step segs ev.
Proof.
  unfold batch_append, assemble_step, batch_end, start_segment, end_segment.
  destruct (hasStart ev); destruct (hasEnd ev); try reflexivity.
  - set (l := segs ++ _).
    assert (Hl : l <> []) by (unfold l; destruct segs; discriminate).
    rewrite (rev_last_removelast l (end_segment ev) Hl).
    replace (0 <? len l) with true.
    2:{ symmetry. apply Z.ltb_lt. unfold len. destruct l; [congruence|].
        cbn [length]. lia. }
    rewrite rev_involutive. reflexivity.
  - destruct segs as [|s segs]; [reflexivity|].
    set (l := s :: segs).
    assert (Hl : l <> []) by discriminate.
    rewrite (rev_last_removelast l (end_segment ev) Hl).
    replace (0 <? len l) with true.
    2:{ symmetry. apply Z.ltb_lt. unfold len, l. cbn [length]. lia. }
    rewrite rev_involutive. reflexivity.
Qed.

Lemma run_windows_events append ws : forall sd mins pad segs,
  run_windows ort_run append sd ws mins pad segs
  = match window_events ort_run sd ws mins pad with
    | (sd', (events, None)) => (sd', (fold_left append events segs, None))
    | (sd', (_, Some e)) => (sd', ([], Some e))
    end.
Proof.
  induction ws as [|w ws IH]; intros sd mins pad segs;
    cbn [run_windows window_events].
  - reflexivity.
  - destruct (processWindow ort_run sd w mins pad) as [sd1 [ev [e|]]]; [reflexivity|].
    rewrite IH.
    destruct (window_events ort_run sd1 ws mins pad) as [sd2 [evs [e|]]]; reflexivity.
Qed.

Lemma fold_batch_assemble events : forall segs,
  fold_left batch_append events segs = fold_left assemble_step events segs.
Proof.
  induction events as [|ev events IH]; intros segs; cbn [fold_left].
  - reflexivity.
  - now rewrite batch_append_assemble_step, IH.
Qed.

(** C5: the list a successful [Detect] returns is the events of its
    windows, in order, folded by the assembler rule: a start event appends a
    segment with [SpeechEndAt = 0]; an end event sets [SpeechEndAt] of the
    most recently appended segment when that one is open and has the
    event's start, and appends a closed segment otherwise. *)
Theorem Detect_assembles_events sd pcm sd' segs :
  reachable ort_run sd ->
  Detect ort_run sd pcm = Some (sd', (segs, None)) ->
  exists events,
    window_events ort_run sd (windows (Z.to_nat (windowSize sd)) pcm)
      (minSilenceSamplesOf (cfg sd)) (speechPadSamplesOf (cfg sd))
    = (sd', (events, None))
    /\ segs = assemble events.
Proof.
  intros Hr H. apply reachable_sound in Hr. destruct Hr as [[Hwf _] _].
  rewrite (Detect_run sd pcm Hwf) in H.
  destruct (len pcm <? windowSize sd); [discriminate|].
  rewrite run_windows_events in H.
  destruct (window_events ort_run sd _ _ _) as [sd1 [events [e|]]]; [discriminate|].
  inversion H; subst. exists events. split; [reflexivity|].
  apply fold_batch_assemble.
Qed.


(** ** The trigger sees the windows only through their probabilities *)

Lemma graft_self sd : graft sd sd = sd.
Proof. now destruct sd. Qed.

Lemma Infer_graft t e w :
  SampleRate (cfg t) = SampleRate (cfg e) ->
  Infer ort_run (graft t e) w
  = let '(e', r) := Infer ort_run e w in (graft t e', r).
Proof.
  intros H. unfold Infer, fix_windowSize, graft.
  repeat (simp; rewrite ?H;
          first [ split_if
                | match goal with
                  | |- context [match ort_run ?a ?b ?c with _ => _ end] =>
                      destruct (ort_run a b c) as [[? ?]|]
                  end ]);
    simp; rewrite ?H; reflexivity.
Qed.

Lemma advanceSpeech_graft t e p mins pad :
  windowSize t = windowSize e ->
  advanceSpeech (graft t e) p mins pad
  = let '(t', r) := advanceSpeech t p mins pad in (graft t' e, r).
Proof.
  intros H. unfold advanceSpeech, graft. simp. rewrite <- H.
  repeat (simp; split_if); simp; reflexivity.
Qed.

Lemma advanceSpeech_Qeq sd p q mins pad :
  (p == q)%Q -> advanceSpeech sd p mins pad = advanceSpeech sd q mins pad.
Proof.
  intros E. unfold advanceSpeech.
  assert (E1 : forall x, Qgeb p x = Qgeb q x)
    by (intros x; unfold Qgeb; now apply Qle_bool_Qeq_l).
  assert (E2 : forall x, Qltb p x = Qltb q x)
    by (intros x; unfold Qltb; f_equal; now apply Qle_bool_Qeq_l).
  cbv zeta. rewrite !E1.
  repeat (simp; rewrite ?E2; split_if); simp; rewrite ?E2; reflexivity.
Qed.

Lemma trigger_run_Qeq ps qs : forall sd mins pad,
  Forall2 Qeq ps qs -> trigger_run sd ps mins pad = trigger_run sd qs mins pad.
Proof.
  intros sd mins pad H. revert sd.
  induction H as [|p q ps qs Hpq _ IH]; intros sd; cbn [trigger_run].
  - reflexivity.
  - unfold advance_window. rewrite (advanceSpeech_Qeq _ p q _ _ Hpq).
    destruct (advanceSpeech _ q mins pad) as [sd1 [ev [e|]]]; [reflexivity|].
    now rewrite IH.
Qed.

Lemma run_windows_by_probs append ws : forall t e segs probs mins pad,
  SampleRate (cfg t) = SampleRate (cfg e) ->
  windowSize t = windowSize e -> windowSize e <> 0 ->
  infer_probs ort_run e ws = probs -> length probs = length ws ->
  exists e',
    run_windows ort_run append (graft t e) ws mins pad segs
    = match trigger_run t probs mins pad with
      | (t', (events, None)) => (graft t' e', (fold_left append events segs, None))
      | (t', (_, Some err)) => (graft t' e', ([], Some err))
      end.
Proof.
  induction ws as [|w ws IH]; intros t e segs probs mins pad Hr Hw Hz Hp Hl.
  - destruct probs; [|discriminate]. exists e. reflexivity.
  - cbn [infer_probs] in Hp.
    destruct (Infer ort_run e w) as [e1 [p [err|]]] eqn:HI.
    { subst probs. discriminate. }
    subst probs. cbn [length] in Hl. cbn [run_windows trigger_run].
    unfold processWindow. rewrite (Infer_graft t e w Hr), HI.
    pose proof (Infer_frame _ _ _ _ HI) as (Hc1 & Hw1 & _).
    rewrite (fix_windowSize_id e Hz) in Hw1.
    change (set_currSample (GoInt.add (currSample (graft t e1)) (windowSize (graft t e1)))
              (graft t e1))
      with (graft (set_currSample (GoInt.add (currSample t) (windowSize e1)) t) e1).
    rewrite advanceSpeech_graft by (simp; congruence).
    unfold advance_window. rewrite Hw1, <- Hw.
    destruct (advanceSpeech _ p mins pad) as [t1 [ev [err|]]] eqn:HA.
    + exists e1. reflexivity.
    + apply advanceSpeech_frame in HA. simp in HA.
      destruct HA as (Hc & _ & Hwt & _).
      destruct (IH t1 e1 (append segs ev) (infer_probs ort_run e1 ws) mins pad)
        as [e' E]; try congruence; try lia.
      exists e'. rewrite E.
      destruct (trigger_run t1 _ mins pad) as [t2 [evs [err|]]]; reflexivity.
Qed.


(** ** The six-window scenario *)

Lemma windows_count {A} n k (l : list A) :
  (0 < n)%nat -> length l = (k * n)%nat -> length (windows n l) = k.
Proof.
  intros Hn Hl. pose proof (windows_is_split n l Hn) as H.
  pose proof (is_split_length n l _ _ H) as E. destruct H as (_ & _ & Hr).
  rewrite Hl in E. nia.
Qed.

(** C2, as the code behaves: sample rate 16000, threshold 0.5, no minimum
    silence, no padding: six windows of 512 samples with probabilities
    0.1, 0.1, 0.6, 0.6, 0.1, 0.1 on a new detector give exactly one
    segment; it starts at 2*512/16000 = 0.064 s and ends at
    5*512/16000 = 0.16 s, the end of the first window below the release
    level. *)
Theorem six_window_scenario c sd pcm :
  SampleRate c = 16000 -> Threshold c = 1 # 2 ->
  MinSilenceDurationMs c = 0 -> SpeechPadMs c = 0 ->
  NewDetector c = inl sd ->
  length pcm = (6 * 512)%nat ->
  Forall2 Qeq (infer_probs ort_run sd (windows 512 pcm)) scenario_probs ->
  exists sd' seg,
    Detect ort_run sd pcm = Some (sd', ([seg], None))
    /\ (SpeechStartAt seg == 64 # 1000)%Q
    /\ (SpeechEndAt seg == 160 # 1000)%Q.
Proof.
  intros Hrate Hth Hms Hpad Hnew Hlen Hprobs.
  pose proof (NewDetector_sound c sd Hnew) as [[Hwf _] _].
  apply NewDetector_fields in Hnew as [_ Hsd].
  assert (Hws : windowSize sd = 512) by (subst sd; simp; now rewrite Hrate).
  rewrite (Detect_run sd pcm Hwf), Hws.
  replace (len pcm <? 512) with false
    by (symmetry; apply Z.ltb_ge; unfold len; lia).
  change (Z.to_nat 512) with 512%nat.
  pose proof (windows_count 512 6 pcm ltac:(lia) Hlen) as Hcount.
  pose proof (Forall2_length Hprobs) as Hpl.
  assert (Hz : windowSize sd <> 0) by lia.
  assert (Hl : length (infer_probs ort_run sd (windows 512 pcm))
               = length (windows 512 pcm))
    by (etransitivity; [exact Hpl|symmetry; exact Hcount]).
  destruct (run_windows_by_probs batch_append (windows 512 pcm) sd sd []
              (infer_probs ort_run sd (windows 512 pcm))
              (minSilenceSamplesOf (cfg sd)) (speechPadSamplesOf (cfg sd))
              eq_refl eq_refl Hz eq_refl Hl) as [e' E].
  rewrite graft_self in E. rewrite E. clear E.
  rewrite (trigger_run_Qeq _ _ sd _ _ Hprobs).
  destruct c as [m r th ms sp ll]. cbn [SampleRate Threshold MinSilenceDurationMs
                                        SpeechPadMs] in *. subst r th ms sp.
  subst sd.
  set (T := trigger_run _ _ _ _). vm_compute in T. subst T.
  cbv iota beta. 
  set (S := fold_left _ _ _). vm_compute in S. subst S.
  eexists. eexists. split; [reflexivity|]. split; reflexivity.
Qed.


(** ** Debounce *)

Lemma sub_add_step c t w :
  0 <= GoInt.sub c t -> GoInt.sub c t + w <= GoInt.max_int -> 0 <= w ->
  GoInt.sub (GoInt.add c w) t = GoInt.sub c t + w.
Proof.
  intros H0 H1 Hw. unfold GoInt.sub, GoInt.add in *.
  rewrite <- (wrap_small (GoInt.wrap (c - t) + w)).
  - apply wrap_congr.
    pose proof (wrap_mod (c + w)) as A. pose proof (wrap_mod (c - t)) as B.
    apply Z.mod_divide in A; [|lia]. apply Z.mod_divide in B; [|lia].
    destruct A as [a A], B as [b B]. apply Z.mod_divide; [lia|].
    exists (a - b). lia.
  - unfold GoInt.in_range, GoInt.min_int in *. lia.
Qed.

Lemma sub_self c : GoInt.sub c c = 0.
Proof. unfold GoInt.sub. rewrite Z.sub_diag. reflexivity. Qed.

(** A window below the release level, while triggered and with too little
    silence yet: nothing is emitted, only [tempEnd] may be set. *)
Lemma low_window sd q mins pad :
  triggered sd = true -> below_release sd q = true ->
  next_elapsed sd < mins ->
  exists sd',
    advance_window sd q mins pad = (sd', (zero_event, None))
    /\ cfg sd' = cfg sd /\ windowSize sd' = windowSize sd
    /\ triggered sd' = true
    /\ pendingStart sd' = pendingStart sd
    /\ pendingStartValid sd' = pendingStartValid sd
    /\ currSample sd' = GoInt.add (currSample sd) (windowSize sd)
    /\ tempEnd sd'
       = (if tempEnd sd =? 0 then GoInt.add (currSample sd) (windowSize sd)
          else tempEnd sd).
Proof.
  unfold below_release, next_elapsed, advance_window, advanceSpeech.
  intros Ht Hq Hel. pose proof (Qltb_release_not_geb _ _ Hq) as Hge.
  repeat (simp; first [rewrite Hge | rewrite Ht | rewrite Hq]).
  destruct (tempEnd sd =? 0) eqn:E; simp.
  - rewrite sub_self. replace (0 <? mins) with true by (symmetry; now apply Z.ltb_lt).
    eexists. repeat split; simp; auto.
  - replace (_ <? mins) with true by (symmetry; now apply Z.ltb_lt).
    eexists. repeat split; simp; auto.
Qed.

(** A window at or above the threshold, while triggered: nothing is
    emitted and the pending release is cancelled. *)
Lemma recovering_window sd p mins pad :
  triggered sd = true -> Qgeb p (Threshold (cfg sd)) = true ->
  exists sd',
    advance_window sd p mins pad = (sd', (zero_event, None))
    /\ triggered sd' = true
    /\ pendingStart sd' = pendingStart sd
    /\ pendingStartValid sd' = pendingStartValid sd
    /\ tempEnd sd' = 0.
Proof.
  unfold advance_window, advanceSpeech. intros Ht Hp.
  pose proof (Qgeb_not_release _ _ Hp) as Hlt.
  destruct (tempEnd sd =? 0) eqn:E;
    repeat (simp; first [rewrite Hp | rewrite Ht | rewrite Hlt | rewrite E]);
    simp; eexists; repeat split; auto.
  now apply Z.eqb_eq in E.
Qed.

Lemma debounce_run lows : forall sd p mins pad b,
  triggered sd = true -> 0 <= windowSize sd -> mins <= GoInt.max_int + 1 ->
  Forall (fun q => below_release sd q = true) lows ->
  Qgeb p (Threshold (cfg sd)) = true ->
  (lows <> [] -> 0 <= next_elapsed sd <= b) ->
  (forall k, (k < length lows)%nat -> b + Z.of_nat k * windowSize sd < mins) ->
  exists sd' events,
    trigger_run sd (lows ++ [p]) mins pad = (sd', (events, None))
    /\ Forall (fun ev => hasEnd ev = false) events
    /\ length events = S (length lows)
    /\ triggered sd' = true
    /\ pendingStart sd' = pendingStart sd
    /\ pendingStartValid sd' = pendingStartValid sd
    /\ tempEnd sd' = 0.
Proof.
  induction lows as [|q lows IH]; intros sd p mins pad b Ht Hw Hm Hlow Hp Hb Hk.
  - cbn [app trigger_run].
    destruct (recovering_window sd p mins pad Ht Hp) as (sd' & E & H1 & H2 & H3 & H4).
    rewrite E. exists sd', [zero_event]. repeat split; auto.
  - pose proof (Forall_inv Hlow) as Hq. cbv beta in Hq. apply Forall_inv_tail in Hlow.
    destruct (Hb ltac:(discriminate)) as [Hb0 Hb1].
    pose proof (Hk 0%nat ltac:(cbn [length]; lia)) as Hk0.
    destruct (low_window sd q mins pad Ht Hq ltac:(lia))
      as (sd1 & E & Hc & Hws & Ht1 & Hps & Hpv & Hcur & Hte).
    cbn [app trigger_run]. rewrite E.
    destruct (IH sd1 p mins pad (b + windowSize sd)) as (sd' & evs & E' & F & L & R).
    + exact Ht1.
    + lia.
    + exact Hm.
    + unfold below_release in *. now rewrite Hc.
    + now rewrite Hc.
    + intros Hne.
      assert (Hk1 : b + windowSize sd < mins).
      { destruct lows as [|q' lows']; [congruence|].
        pose proof (Hk 1%nat ltac:(cbn [length]; lia)). lia. }
      unfold next_elapsed in *. rewrite Hte, Hcur, Hws.
      destruct (tempEnd sd =? 0) eqn:Ez.
      * destruct (GoInt.add (currSample sd) (windowSize sd) =? 0) eqn:Ez'; [lia|].
        rewrite sub_add_step; rewrite ?sub_self; unfold GoInt.max_int in *; lia.
      * rewrite Ez. rewrite sub_add_step; unfold GoInt.max_int in *; lia.
    + intros k Hkl. rewrite Hws.
      pose proof (Hk (S k) ltac:(cbn [length]; lia)). lia.
    + rewrite E'. exists sd', (zero_event :: evs).
      destruct R as (R1 & R2 & R3 & R4).
      repeat split; auto; try congruence.
      cbn [length]. now rewrite L.
Qed.

(** C4, as the code behaves: from a triggered state with no release
    pending ([tempEnd = 0]): a run of windows below [threshold - 0.15]
    whose elapsed samples since the first of them stay below
    [minSilenceSamples], followed by a window at or above the threshold,
    emits no end event; [triggered] stays true, [pendingStart] and
    [pendingStartValid] are unchanged, and [tempEnd] is 0 afterwards. *)
Theorem debounce_holds sd lows p :
  well_formed sd ->
  triggered sd = true -> tempEnd sd = 0 ->
  Forall (fun q => below_release sd q = true) lows ->
  (forall k, (k < length lows)%nat ->
             Z.of_nat k * windowSize sd < minSilenceSamplesOf (cfg sd)) ->
  Qgeb p (Threshold (cfg sd)) = true ->
  exists sd' events,
    trigger_run sd (lows ++ [p]) (minSilenceSamplesOf (cfg sd))
                (speechPadSamplesOf (cfg sd))
    = (sd', (events, None))
    /\ Forall (fun ev => hasEnd ev = false) events
    /\ length events = S (length lows)
    /\ triggered sd' = true
    /\ pendingStart sd' = pendingStart sd
    /\ pendingStartValid sd' = pendingStartValid sd
    /\ tempEnd sd' = 0.
Proof.
  intros Hwf Ht Hte Hlow Hk Hp.
  pose proof (well_formed_windowSize sd Hwf) as Hws.
  apply (debounce_run lows sd p _ _ 0); auto.
  - lia.
  - pose proof (wrap_range (Z.quot (GoInt.mul (MinSilenceDurationMs (cfg sd))
                                               (SampleRate (cfg sd))) 1000)) as R.
    unfold minSilenceSamplesOf, GoInt.quot, GoInt.in_range in *. lia.
  - intros _. unfold next_elapsed. rewrite Hte. cbn. lia.
Qed.


(** ** The context samples *)

Lemma graft_same a b :
  state a = state b -> windowSize a = windowSize b -> inputBuf a = inputBuf b ->
  graft a b = a.
Proof. destruct a, b. cbn. intros -> -> ->. reflexivity. Qed.

Lemma inferred_graft ws : forall t e,
  SampleRate (cfg t) = SampleRate (cfg e) ->
  inferred ort_run (graft t e) ws = inferred ort_run e ws.
Proof.
  induction ws as [|w ws IH]; intros t e H; cbn [inferred]; [reflexivity|].
  rewrite (Infer_graft t e w H).
  destruct (Infer ort_run e w) as [e1 [p [err|]]] eqn:HI; [reflexivity|].
  f_equal. apply IH. apply Infer_frame in HI. destruct HI as (-> & _). exact H.
Qed.

Lemma context_after_snoc h w : context_after (h ++ [w]) = window_tail w.
Proof. unfold context_after. now rewrite rev_app_distr. Qed.

Lemma Infer_context sd w sd' p err h :
  well_formed sd -> context sd = context_after h ->
  Infer ort_run sd w = (sd', (p, err)) ->
  context sd' = context_after (h ++ inferred ort_run sd [w]).
Proof.
  intros Hwf Hc H. cbn [inferred]. rewrite H.
  pose proof (context_length sd Hwf) as Hl.
  destruct (Z.eq_dec (len w) (windowSize sd)) as [E|E].
  - rewrite (Infer_accepts sd w Hwf E) in H.
    pose proof (well_formed_windowSize sd Hwf) as Hws.
    destruct (ort_run _ _ _) as [[p' st]|]; inversion H; subst.
    + rewrite context_after_snoc. unfold context, slice_to. simp.
      apply firstn_app_exact. unfold window_tail. rewrite length_skipn.
      unfold len, contextLen in *. lia.
    + rewrite app_nil_r, <- Hc. unfold context at 1, slice_to. simp.
      now apply firstn_app_exact.
  - rewrite <- (well_formed_fix sd Hwf) in E.
    rewrite (Infer_rejects ort_run sd w E) in H. inversion H; subst.
    now rewrite app_nil_r, well_formed_fix.
Qed.

Lemma run_windows_context append ws : forall sd mins pad segs h,
  good sd -> context sd = context_after h ->
  context (fst (run_windows ort_run append sd ws mins pad segs))
  = context_after (h ++ inferred ort_run sd ws).
Proof.
  induction ws as [|w ws IH]; intros sd mins pad segs h Hg Hc;
    cbn [run_windows inferred].
  - now rewrite app_nil_r.
  - pose proof Hg as [Hwf _].
    destruct (Infer ort_run sd w) as [sd1 [p [err|]]] eqn:HI.
    + rewrite (processWindow_failed _ _ _ _ _ _ _ HI). cbn [fst].
      pose proof (Infer_context _ _ _ _ _ _ Hwf Hc HI) as H.
      cbn [inferred] in H. now rewrite HI in H.
    + destruct (processWindow ort_run sd w mins pad) as [sd2 [ev o]] eqn:HP.
      destruct (processWindow_good _ _ _ _ _ _ _ Hg HP) as [Hg2 _].
      pose proof HP as HP'. rewrite (processWindow_ok _ _ _ _ _ _ HI) in HP'.
      apply advanceSpeech_frame in HP'. simp in HP'.
      destruct HP' as (Hcfg & Hst & Hws & Hib & _).
      pose proof (Infer_context _ _ _ _ _ _ Hwf Hc HI) as H1.
      cbn [inferred] in H1. rewrite HI in H1.
      assert (Hc2 : context sd2 = context_after (h ++ [w])).
      { unfold context in *. now rewrite Hib. }
      assert (Hinf : inferred ort_run sd2 ws = inferred ort_run sd1 ws).
      { rewrite <- (graft_same sd2 sd1 Hst Hws Hib).
        apply inferred_graft. now rewrite Hcfg. }
      destruct o as [e|].
      * cbn [fst]. (* the trigger never fails on a sound detector *)
        destruct (processWindow_good _ _ _ _ _ _ _ Hg HP) as [_ [Hn|[e' He]]];
          [discriminate|].
        unfold processWindow in HP. rewrite HI in HP.
        apply advanceSpeech_consistent in HP; [destruct HP; discriminate|].
        apply Infer_frame in HI. destruct Hg as [_ Ht].
        unfold trigger_consistent in *. simp.
        destruct HI as (_ & _ & _ & -> & _ & _ & -> & _). exact Ht.
      * rewrite (IH sd2 mins pad (append segs ev) (h ++ [w]) Hg2 Hc2), Hinf.
        now rewrite <- app_assoc.
Qed.

Lemma firstn_repeat_le {A} (x : A) k : forall n,
  (k <= n)%nat -> firstn k (repeat x n) = repeat x k.
Proof.
  induction k as [|k IH]; intros n H; [reflexivity|].
  destruct n as [|n]; [lia|]. cbn [repeat firstn]. f_equal. apply IH. lia.
Qed.

Lemma Reset_context sd : well_formed sd -> context (Reset sd) = context_after [].
Proof.
  intros Hwf. pose proof (well_formed_windowSize sd Hwf) as Hws.
  destruct Hwf as (_ & _ & Hb).
  unfold Reset, context, context_after, slice_to. simp. rewrite clear_make.
  unfold make. apply firstn_repeat_le. unfold len, contextLen in *. lia.
Qed.

(** C10: the engine is run on the 64 context samples followed by the
    window; a successful [Infer] leaves the last 64 samples of that window
    as the context; the context is all zeros in a new detector and after
    [Reset]; and every call keeps the context equal to the tail of the
    latest accepted window (zeros when there is none). *)
Theorem context_invariant :
  (forall c sd, NewDetector c = inl sd -> context sd = context_after [])
  /\ (forall sd, reachable ort_run sd -> context (Reset sd) = context_after [])
  /\ (forall sd w,
        reachable ort_run sd -> len w = windowSize sd ->
        Infer ort_run sd w
        = match ort_run (context sd ++ w) (state sd) (SampleRate (cfg sd)) with
          | None => (set_inputBuf (context sd ++ w) sd, (0%Q, Some ErrOrt))
          | Some (p, stateN) =>
              (set_inputBuf (window_tail w ++ w) (set_state stateN sd), (p, None))
          end)
  /\ (forall sd history c sd' r,
        reachable ort_run sd -> context sd = context_after history ->
        do_call ort_run sd c = Some (sd', r) ->
        context sd' = context_after (history_after ort_run history sd c)).
Proof.
  split; [|split; [|split]].
  - intros c sd H. apply NewDetector_fields in H as [Hv ->].
    unfold context, context_after, slice_to, make. simp.
    apply firstn_repeat_le.
    destruct (IsValid_SampleRate c Hv) as [-> | ->]; cbv; lia.
  - intros sd Hr. apply Reset_context. now apply reachable_sound in Hr as [[? _] _].
  - intros sd w Hr Hl. apply Infer_accepts; [|exact Hl].
    now apply reachable_sound in Hr as [[? _] _].
  - intros sd h c sd' r Hr Hc H. apply reachable_sound in Hr as [Hg Hb].
    pose proof Hg as [Hwf _].
    destruct c as [samples|pcm|pcm| |value]; cbn [do_call history_after accepted_windows] in *.
    + destruct (Infer ort_run sd samples) as [sd1 [p err]] eqn:HI. inversion H; subst.
      eapply Infer_context; eauto.
    + rewrite (Detect_run sd pcm Hwf) in H. destruct (len pcm <? windowSize sd).
      * inversion H; subst. now rewrite app_nil_r.
      * pose proof (run_windows_context batch_append
                      (windows (Z.to_nat (windowSize sd)) pcm) sd
                      (minSilenceSamplesOf (cfg sd)) (speechPadSamplesOf (cfg sd))
                      [] h Hg Hc) as E.
        destruct (run_windows ort_run batch_append sd _ _ _ _) as [sd1 [segs err]].
        inversion H; subst. exact E.
    + destruct pcm as [|x pcm].
      * cbn in H. inversion H; subst. now rewrite app_nil_r.
      * destruct (DetectStream_run sd (x :: pcm) Hwf Hb ltac:(discriminate))
          as (b & Hbl & E).
        rewrite E in H. unfold stream_outcome in H.
        pose proof (run_windows_context stream_append
                      (windows (Z.to_nat (windowSize sd)) (streamBuf sd ++ x :: pcm)) sd
                      (minSilenceSamplesOf (cfg sd)) (speechPadSamplesOf (cfg sd))
                      [] h Hg Hc) as E'.
        destruct (run_windows ort_run stream_append sd _ _ _ _) as [sd1 [segs [e|]]];
          inversion H; subst; exact E'.
    + inversion H; subst. now apply Reset_context.
    + inversion H; subst. now rewrite app_nil_r.
Qed.


(** ** Streaming updates and the batch list *)

(** The three things a window can do to a consistent trigger: nothing,
    open a segment, or close the open one. *)
Lemma advanceSpeech_cases sd p mins pad :
  trigger_consistent sd ->
  exists sd' ev,
    advanceSpeech sd p mins pad = (sd', (ev, None))
    /\ currSample sd' = currSample sd
    /\ (tempEnd sd' = tempEnd sd \/ tempEnd sd' = 0 \/ tempEnd sd' = currSample sd)
    /\ ((hasStart ev = false /\ hasEnd ev = false
         /\ pendingStartValid sd' = pendingStartValid sd
         /\ pendingStart sd' = pendingStart sd)
        \/ (pendingStartValid sd = false
            /\ hasStart ev = true /\ hasEnd ev = false
            /\ pendingStartValid sd' = true
            /\ pendingStart sd' = startAt ev)
        \/ (pendingStartValid sd = true
            /\ hasStart ev = false /\ hasEnd ev = true
            /\ endStartAt ev = pendingStart sd
            /\ pendingStartValid sd' = false
            /\ endAt ev
               = (float64_of_int
                    (GoInt.add (if tempEnd sd =? 0 then currSample sd else tempEnd sd)
                               pad)
                  / float64_of_int (SampleRate (cfg sd)))%Q)).
Proof.
  unfold trigger_consistent, advanceSpeech. intros Ht.
  destruct (pendingStartValid sd) eqn:Hv;
    destruct (tempEnd sd =? 0) eqn:Hte;
    destruct (Qgeb p (Threshold (cfg sd))) eqn:Hge;
    try (pose proof (Qgeb_not_release _ _ Hge) as Hlt);
    repeat (simp;
            first [ rewrite Hge | rewrite Hlt | rewrite Ht | rewrite Hv
                  | rewrite Hte | split_if ]);
    rewrite ?andb_false_r, ?andb_true_r in *; try discriminate;
    simp; eexists; eexists; (split; [reflexivity|]); simp;
    rewrite ?Hv, ?Hte;
    (split; [reflexivity|]);
    (split; [auto|]);
    first [ left; repeat split; auto; fail
          | right; left; repeat split; auto; fail
          | right; right; repeat split; auto; fail
          | idtac ].
Qed.


(** *** The two assemblers on one event *)

Lemma close_open_last pre ps e :
  Forall (fun s => is_open s = false) pre ->
  close_open (pre ++ [open_at ps]) {| SpeechStartAt := ps; SpeechEndAt := e |}
  = Some (pre ++ [{| SpeechStartAt := ps; SpeechEndAt := e |}]).
Proof.
  induction 1 as [|s pre Hs Hpre IH]; cbn [app close_open].
  - unfold is_open, open_at. cbn [SpeechEndAt SpeechStartAt].
    rewrite !Qeq_bool_refl_true. reflexivity.
  - rewrite Hs. cbn [andb]. rewrite IH. reflexivity.
Qed.

Lemma step_agree v ps v' ps' ev B :
  step_kind v ps v' ps' ev -> assembled v ps B ->
  fold_left reconstruct_step (stream_append [] ev) B = batch_append B ev
  /\ assembled v' ps' (batch_append B ev).
Proof.
  unfold step_kind, assembled, stream_append, batch_append.
  intros [(Hs & He & -> & ->) | [(-> & Hs & He & -> & ->)
                                | (-> & Hs & He & Hps & -> & Hz)]] HB;
    rewrite Hs, He.
  - split; [reflexivity | exact HB].
  - cbn [app fold_left]. unfold reconstruct_step, start_segment at 1, is_open.
    cbn [SpeechEndAt]. rewrite Qeq_bool_refl_true.
    split; [reflexivity|]. exists B. split; [reflexivity | exact HB].
  - destruct HB as (pre & -> & Hpre).
    cbn [app fold_left]. unfold reconstruct_step, is_open, end_segment.
    cbn [SpeechEndAt SpeechStartAt]. rewrite Hz, Hps, close_open_last by exact Hpre.
    assert (Hl : forall x : Segment, (0 <? len (pre ++ [x])) = true).
    { intros x. apply Z.ltb_lt. rewrite len_app. pose proof (len_nonneg pre).
      unfold len at 2. cbn [length]. lia. }
    unfold batch_end. rewrite Hl, last_last, removelast_last.
    unfold open_at. cbn [SpeechEndAt SpeechStartAt].
    rewrite Hps, !Qeq_bool_refl_true.
    cbn [andb]. split; [reflexivity|].
    apply Forall_app. split; [exact Hpre|].
    constructor; [|constructor]. unfold is_open. cbn [SpeechEndAt]. exact Hz.
Qed.

Lemma fold_stream_append events : forall S,
  fold_left stream_append events S
  = S ++ concat (map (stream_append []) events).
Proof.
  induction events as [|ev events IH]; intros S; cbn [fold_left map concat].
  - now rewrite app_nil_r.
  - rewrite IH, app_assoc. f_equal.
    unfold stream_append. destruct (hasStart ev), (hasEnd ev);
      cbn [app]; rewrite <- ?app_assoc, ?app_nil_r; reflexivity.
Qed.

Lemma timestamp_nonzero k r :
  0 < k -> 0 < r -> Qeq_bool (float64_of_int k / float64_of_int r) 0 = false.
Proof.
  intros Hk Hr. destruct k as [|k|k]; try lia. destruct r as [|r|r]; try lia.
  reflexivity.
Qed.


(** *** One window, with an engine that never fails *)

Lemma processWindow_step sd w mins pad bound :
  engine_total ort_run -> good sd -> len w = windowSize sd ->
  0 <= pad -> bound + pad <= GoInt.max_int ->
  positions_ok sd (bound - windowSize sd) ->
  exists sd' ev,
    processWindow ort_run sd w mins pad = (sd', (ev, None))
    /\ good sd' /\ cfg sd' = cfg sd /\ windowSize sd' = windowSize sd
    /\ currSample sd' = currSample sd + windowSize sd
    /\ positions_ok sd' bound
    /\ step_kind (pendingStartValid sd) (pendingStart sd)
                 (pendingStartValid sd') (pendingStart sd') ev.
Proof.
  intros Htot Hgood Hw Hpad Hbound ((Ht0 & Ht1) & Hc).
  pose proof Hgood as (Hwf & Hcons).
  pose proof (well_formed_windowSize sd Hwf) as Hws.
  pose proof (Infer_accepts sd w Hwf Hw) as HI.
  destruct (ort_run (context sd ++ w) (state sd) (SampleRate (cfg sd)))
    as [[p stN]|] eqn:Hrun; [|now apply Htot in Hrun].
  pose proof (processWindow_ok sd w mins pad _ _ HI) as HP.
  simp in HP.
  assert (Hadd : GoInt.add (currSample sd) (windowSize sd)
                 = currSample sd + windowSize sd).
  { apply wrap_small. unfold GoInt.in_range, GoInt.min_int, GoInt.max_int in *. lia. }
  rewrite Hadd in HP.
  remember (set_currSample (currSample sd + windowSize sd)
              (set_inputBuf (window_tail w ++ w) (set_state stN sd))) as sd0 eqn:E0.
  assert (Hc0 : trigger_consistent sd0) by (subst sd0; exact Hcons).
  destruct (advanceSpeech_cases sd0 p mins pad Hc0)
    as (sd' & ev & HA & Hcur & Hte & Hkind).
  rewrite HA in HP.
  assert (F0 : currSample sd0 = currSample sd + windowSize sd
               /\ tempEnd sd0 = tempEnd sd
               /\ pendingStartValid sd0 = pendingStartValid sd
               /\ pendingStart sd0 = pendingStart sd
               /\ cfg sd0 = cfg sd)
    by (subst sd0; repeat split).
  destruct F0 as (F1 & F2 & F3 & F4 & F5).
  destruct (processWindow_good sd w mins pad sd' ev None Hgood HP) as (Hg' & _).
  destruct (processWindow_frame sd w mins pad sd' _ Hwf HP) as (Hcfg & Hwin & _).
  exists sd', ev. split; [exact HP|].
  split; [exact Hg'|]. split; [exact Hcfg|]. split; [exact Hwin|].
  split; [congruence|].
  split.
  - unfold positions_ok. rewrite Hcur, F1.
    destruct Hte as [-> | [-> | ->]]; rewrite ?F1, ?F2; lia.
  - unfold step_kind. rewrite <- F3, <- F4.
    destruct Hkind as [H | [H | (H1 & H2 & H3 & H4 & H5 & H6)]];
      [left; exact H | right; left; exact H | right; right].
    repeat (split; [assumption|]).
    rewrite H6. destruct Hwf as (Hrate & _).
    assert (Hpos : 0 < (if tempEnd sd0 =? 0 then currSample sd0 else tempEnd sd0)
                   <= bound).
    { rewrite F1, F2. destruct (tempEnd sd =? 0) eqn:Ez; [lia|].
      apply Z.eqb_neq in Ez. lia. }
    rewrite F5. unfold GoInt.add. rewrite wrap_small
      by (unfold GoInt.in_range, GoInt.min_int, GoInt.max_int in *; lia).
    apply timestamp_nonzero; [lia | destruct Hrate as [-> | ->]; lia].
Qed.


(** *** A run of windows *)

Lemma window_events_agree mins pad ws : forall sd B bound,
  engine_total ort_run -> good sd ->
  Forall (fun w => len w = windowSize sd) ws ->
  0 <= pad -> bound + pad <= GoInt.max_int ->
  positions_ok sd (bound - windowSize sd * len ws) ->
  assembled (pendingStartValid sd) (pendingStart sd) B ->
  exists sd' events,
    window_events ort_run sd ws mins pad = (sd', (events, None))
    /\ fold_left reconstruct_step (fold_left stream_append events []) B
       = fold_left batch_append events B.
Proof.
  induction ws as [|w ws IH]; intros sd B bound Htot Hgood Hws Hpad Hbound Hpos HB.
  - exists sd, []. split; reflexivity.
  - pose proof (Forall_inv Hws) as Hw. cbv beta in Hw.
    pose proof (Forall_inv_tail Hws) as Hws'.
    pose proof (well_formed_windowSize sd (proj1 Hgood)) as Hsz.
    assert (Hlen : len (w :: ws) = 1 + len ws)
      by (unfold len; cbn [length]; lia).
    pose proof (len_nonneg ws) as Hnn.
    destruct (processWindow_step sd w mins pad
                (bound - windowSize sd * len ws) Htot Hgood Hw Hpad)
      as (sd1 & ev & HP & Hg1 & Hcfg & Hwin & Hcur & Hpos1 & Hkind).
    { nia. }
    { unfold positions_ok in *. rewrite Hlen in Hpos. nia. }
    destruct (step_agree _ _ _ _ _ B Hkind HB) as (Hstep & HB1).
    destruct (IH sd1 (batch_append B ev) bound Htot Hg1) as (sd' & events & HE & Hfold);
      try assumption.
    { rewrite Hwin. exact Hws'. }
    { rewrite Hwin. exact Hpos1. }
    exists sd', (ev :: events). split.
    + cbn [window_events]. rewrite HP, HE. reflexivity.
    + cbn [fold_left]. rewrite fold_stream_append, fold_left_app, Hstep.
      rewrite fold_stream_append in Hfold. cbn [app] in Hfold. exact Hfold.
Qed.

Lemma window_events_app mins pad ws1 : forall sd ws2,
  window_events ort_run sd (ws1 ++ ws2) mins pad
  = match window_events ort_run sd ws1 mins pad with
    | (sd1, (e1, None)) =>
        let '(sd2, (e2, err)) := window_events ort_run sd1 ws2 mins pad in
        (sd2, (e1 ++ e2, err))
    | (sd1, (e1, Some e)) => (sd1, (e1, Some e))
    end.
Proof.
  induction ws1 as [|w ws1 IH]; intros sd ws2; cbn [app window_events].
  - destruct (window_events ort_run sd ws2 mins pad) as (sd2 & e2 & err).
    reflexivity.
  - destruct (processWindow ort_run sd w mins pad) as (sd1 & ev & [e|]);
      [reflexivity|].
    rewrite IH.
    destruct (window_events ort_run sd1 ws1 mins pad) as (sd2 & e1 & [e|]).
    + reflexivity.
    + destruct (window_events ort_run sd2 ws2 mins pad) as (sd3 & e2 & err).
      reflexivity.
Qed.


Lemma window_events_streamBuf b mins pad ws : forall sd,
  window_events ort_run (set_streamBuf b sd) ws mins pad
  = let '(sd', r) := window_events ort_run sd ws mins pad in (set_streamBuf b sd', r).
Proof.
  induction ws as [|w ws IH]; intros sd; cbn [window_events]; [reflexivity|].
  rewrite processWindow_streamBuf.
  destruct (processWindow ort_run sd w mins pad) as (sd1 & ev & [e|]);
    [reflexivity|].
  rewrite IH.
  destruct (window_events ort_run sd1 ws mins pad) as (sd2 & evs & err).
  reflexivity.
Qed.

Lemma window_events_good sd ws mins pad sd' events err :
  good sd ->
  window_events ort_run sd ws mins pad = (sd', (events, err)) ->
  good sd' /\ cfg sd' = cfg sd /\ windowSize sd' = windowSize sd.
Proof.
  intros Hgood HE.
  pose proof (run_windows_events stream_append ws sd mins pad []) as HR.
  rewrite HE in HR.
  destruct err as [e|];
    destruct (run_windows_good _ _ _ _ _ _ _ _ _ Hgood HR) as (H1 & H2 & H3 & _);
    auto.
Qed.

Lemma DetectStream_empty sd : DetectStream ort_run sd [] = Some (sd, ([], None)).
Proof. reflexivity. Qed.

(** Successive streaming calls process the windows of the buffered samples
    followed by all chunks, and keep the short rest. *)
Lemma stream_chunks_run n mins pad chunks : forall sd sd' events,
  good sd -> (length (streamBuf sd) < n)%nat ->
  n = Z.to_nat (windowSize sd) ->
  mins = minSilenceSamplesOf (cfg sd) -> pad = speechPadSamplesOf (cfg sd) ->
  window_events ort_run sd (windows n (streamBuf sd ++ concat chunks)) mins pad
  = (sd', (events, None)) ->
  stream_chunks ort_run sd chunks
  = Some (set_streamBuf (remainder n (streamBuf sd ++ concat chunks)) sd',
          (fold_left stream_append events [], None)).
Proof.
  induction chunks as [|c rest IH]; intros sd sd' events Hgood Hbuf Hn Hmins Hp HE.
  - cbn [concat] in *. rewrite app_nil_r in *.
    destruct (windows_short n (streamBuf sd) Hbuf) as (Hw & Hr).
    rewrite Hw in HE. cbn [window_events] in HE. inversion HE; subst sd' events.
    rewrite Hr, set_streamBuf_id. reflexivity.
  - destruct c as [|x c'].
    + cbn [concat app] in *. cbn [stream_chunks]. rewrite DetectStream_empty.
      rewrite (IH sd sd' events Hgood Hbuf Hn Hmins Hp HE). reflexivity.
    + remember (x :: c') as c eqn:Ec.
      pose proof (well_formed_windowSize sd (proj1 Hgood)) as Hsz.
      assert (Hn0 : (0 < n)%nat) by lia.
      destruct (DetectStream_run sd c (proj1 Hgood)) as (b & _ & HD);
        [lia | subst c; discriminate |].
      pose proof (windows_is_split n (streamBuf sd ++ c) Hn0) as S1.
      remember (windows n (streamBuf sd ++ c)) as ws1 eqn:E1.
      remember (remainder n (streamBuf sd ++ c)) as r1 eqn:Er1.
      pose proof (windows_is_split n (r1 ++ concat rest) Hn0) as S2.
      pose proof (is_split_app n _ _ _ _ _ _ S1 S2) as S12.
      pose proof (windows_is_split n (streamBuf sd ++ concat (c :: rest)) Hn0) as Sall.
      cbn [concat] in Sall, HE |- *. rewrite app_assoc in Sall, HE |- *.
      destruct (is_split_unique n _ _ _ _ _ Sall S12) as (Hws & Hr).
      rewrite Hws in HE. rewrite Hr. clear Sall S12 Hws Hr.
      rewrite window_events_app in HE.
      destruct (window_events ort_run sd ws1 mins pad) as (sd1 & e1 & [e|]) eqn:HE1;
        [discriminate|].
      destruct (window_events ort_run sd1 (windows n (r1 ++ concat rest)) mins pad)
        as (sd2 & e2 & err) eqn:HE2.
      inversion HE; subst sd' events err. clear HE.
      destruct (window_events_good _ _ _ _ _ _ _ Hgood HE1) as (Hg1 & Hcfg1 & Hwin1).
      unfold stream_outcome in HD. rewrite <- Hn, <- Hmins, <- Hp, <- E1, <- Er1 in HD.
      rewrite run_windows_events, HE1 in HD.
      cbn [stream_chunks]. rewrite HD.
      rewrite (IH (set_streamBuf r1 sd1) (set_streamBuf r1 sd2) e2).
      * rewrite set_streamBuf_twice, fold_left_app.
        rewrite (fold_stream_append e2 (fold_left stream_append e1 [])).
        rewrite (fold_stream_append e2 []). reflexivity.
      * apply good_set_streamBuf. exact Hg1.
      * destruct S1 as (_ & _ & Hlt). exact Hlt.
      * rewrite Hn. cbn. now rewrite Hwin1.
      * rewrite Hmins. cbn. now rewrite Hcfg1.
      * rewrite Hp. cbn. now rewrite Hcfg1.
      * rewrite window_events_streamBuf. cbn [streamBuf set_streamBuf].
        rewrite HE2. reflexivity.
Qed.


Lemma fresh_idle sd :
  fresh ort_run sd ->
  sound sd /\ streamBuf sd = [] /\ currSample sd = 0 /\ tempEnd sd = 0
  /\ pendingStartValid sd = false.
Proof.
  intros [c sd0 HN | sd0 Hr].
  - split; [exact (NewDetector_sound c sd0 HN)|].
    destruct (NewDetector_fields c sd0 HN) as (_ & ->). repeat split.
  - split; [apply Reset_sound, reachable_sound; exact Hr|]. repeat split.
Qed.

(** C1 (amended): from a fresh detector and with an engine that never
    fails, however the samples are cut into chunks for [DetectStream], the
    pairs read back from the streaming updates are the segments of one
    [Detect] call over all samples, provided the padding in samples is not
    negative and adding it to the sample count does not overflow [int].
    When the samples do not fill one window, [Detect] reports
    [ErrNotEnoughSamples] and both lists are empty. *)
Theorem chunking_invariance sd samples chunks :
  engine_total ort_run -> fresh ort_run sd -> concat chunks = samples ->
  0 <= speechPadSamplesOf (cfg sd) ->
  len samples + speechPadSamplesOf (cfg sd) <= GoInt.max_int ->
  exists sd_s updates sd_b segments err,
    stream_chunks ort_run sd chunks = Some (sd_s, (updates, None))
    /\ Detect ort_run sd samples = Some (sd_b, (segments, err))
    /\ reconstruct updates = segments
    /\ (err = None \/ (err = Some ErrNotEnoughSamples /\ segments = [])).
Proof.
  intros Htot Hf <- Hpad Hb.
  destruct (fresh_idle sd Hf) as ((Hgood & _) & Hbuf & Hc & Ht & Hv).
  pose proof (well_formed_windowSize sd (proj1 Hgood)) as Hsz.
  remember (Z.to_nat (windowSize sd)) as n eqn:En.
  assert (Hn0 : (0 < n)%nat) by lia.
  pose proof (windows_is_split n (concat chunks) Hn0) as S.
  pose proof (is_split_length n _ _ _ S) as Hlen.
  destruct S as (_ & Hall & Hr).
  destruct (window_events_agree (minSilenceSamplesOf (cfg sd))
              (speechPadSamplesOf (cfg sd)) (windows n (concat chunks)) sd []
              (len (concat chunks)) Htot Hgood)
    as (sd' & events & HE & Hfold).
  { eapply Forall_impl; [|exact Hall]. intros w Hw. cbv beta in Hw.
    unfold len. rewrite Hw. lia. }
  { exact Hpad. }
  { exact Hb. }
  { unfold positions_ok. rewrite Ht, Hc. unfold len. rewrite Hlen. nia. }
  { rewrite Hv. constructor. }
  pose proof (stream_chunks_run n (minSilenceSamplesOf (cfg sd))
                (speechPadSamplesOf (cfg sd)) chunks sd sd' events Hgood) as HS.
  rewrite Hbuf in HS. cbn [app] in HS.
  specialize (HS ltac:(cbn [length]; lia) En eq_refl eq_refl HE).
  rewrite HS, (Detect_run sd _ (proj1 Hgood)).
  destruct (len (concat chunks) <? windowSize sd) eqn:Hshort.
  - apply Z.ltb_lt in Hshort.
    destruct (windows_short n (concat chunks)) as (Hw & _);
      [unfold len in Hshort; lia|].
    rewrite Hw in HE. cbn [window_events] in HE. inversion HE; subst sd' events.
    do 5 eexists. split; [reflexivity|]. split; [reflexivity|].
    split; [reflexivity|]. right. split; reflexivity.
  - rewrite run_windows_events, <- En, HE.
    do 5 eexists. split; [reflexivity|]. split; [reflexivity|].
    split; [exact Hfold|]. left. reflexivity.
Qed.

End Properties.

(** * Further properties of the code *)

(** ** Configuration *)


Section Behaviour.

Variable ort_run : list F32 -> rstate -> Z -> option (F32 * rstate).

(** X2: in every detector reachable by calls, the input buffer holds the 64
    context samples and one window, the carry-over buffer holds at most one
    window, and the trigger is on exactly when a start is pending. *)
Theorem reachable_buffers sd :
  reachable ort_run sd ->
  len (inputBuf sd) = contextLen + windowSize sd
  /\ len (streamBuf sd) <= windowSize sd
  /\ triggered sd = pendingStartValid sd.
Proof.
  intros H. destruct (reachable_sound ort_run sd H) as ((Hwf & Hc) & Hb).
  pose proof (well_formed_windowSize sd Hwf) as Hsz.
  destruct Hwf as (_ & _ & Hin).
  split; [exact Hin|]. split; [unfold len; lia | exact Hc].
Qed.

(** X3: every call on a reachable detector returns: the loops of [Detect]
    and [DetectStream] come to their end within the samples they are
    given. *)
Theorem calls_return sd c :
  reachable ort_run sd -> exists sd' r, do_call ort_run sd c = Some (sd', r).
Proof.
  intros H. destruct (reachable_sound ort_run sd H) as ((Hwf & Hc) & Hb).
  destruct c as [w | pcm | pcm | | v]; cbn [do_call].
  - destruct (Infer ort_run sd w) as (sd' & p & err). eauto.
  - rewrite (Detect_run ort_run sd pcm Hwf).
    destruct (len pcm <? windowSize sd); [eauto|].
    destruct (run_windows ort_run batch_append sd _ _ _ []) as (sd' & segs & err).
    eauto.
  - destruct pcm as [|x pcm].
    + rewrite DetectStream_empty. eauto.
    + destruct (DetectStream_run ort_run sd (x :: pcm) Hwf Hb) as (b & _ & HD);
        [discriminate|].
      rewrite HD. destruct (stream_outcome ort_run sd (x :: pcm) b) as (sd' & segs & err).
      eauto.
  - eauto.
  - eauto.
Qed.

(** X4: [Detect] neither reads nor writes the carry-over buffer of
    [DetectStream]: the buffer is the same afterwards, and with any other
    buffer the call returns the same segments and error and leaves the same
    detector but for that buffer. *)
Theorem Detect_ignores_streamBuf sd pcm sd' r :
  reachable ort_run sd ->
  Detect ort_run sd pcm = Some (sd', r) ->
  streamBuf sd' = streamBuf sd
  /\ forall b, Detect ort_run (set_streamBuf b sd) pcm = Some (set_streamBuf b sd', r).
Proof.
  intros H HD. destruct (reachable_sound ort_run sd H) as ((Hwf & Hc) & Hb).
  assert (Hwf' : forall b, well_formed (set_streamBuf b sd)) by (intros b; exact Hwf).
  rewrite (Detect_run ort_run sd pcm Hwf) in HD.
  split.
  - destruct (len pcm <? windowSize sd); inversion HD as [E]; [reflexivity|].
    pose proof (run_windows_keeps_streamBuf ort_run batch_append sd
                  (windows (Z.to_nat (windowSize sd)) pcm)
                  (minSilenceSamplesOf (cfg sd)) (speechPadSamplesOf (cfg sd)) []) as K.
    rewrite E in K. exact K.
  - intros b. rewrite (Detect_run ort_run _ pcm (Hwf' b)).
    cbn [windowSize cfg set_streamBuf].
    destruct (len pcm <? windowSize sd); inversion HD as [E]; [reflexivity|].
    rewrite run_windows_streamBuf, E. reflexivity.
Qed.

(** X5: [Detect] works on complete windows only: samples after the last
    complete window change nothing, neither in the result nor in the
    detector. *)
Theorem Detect_drops_partial_window sd body rest :
  reachable ort_run sd ->
  (len body mod windowSize sd = 0) -> windowSize sd <= len body ->
  len rest < windowSize sd ->
  Detect ort_run sd (body ++ rest) = Detect ort_run sd body.
Proof.
  intros H Hmod Hbody Hrest.
  destruct (reachable_sound ort_run sd H) as ((Hwf & Hc) & Hb).
  pose proof (well_formed_windowSize sd Hwf) as Hsz.
  rewrite !(Detect_run ort_run sd _ Hwf).
  pose proof (len_nonneg rest) as Hr0.
  rewrite len_app.
  replace (len body + len rest <? windowSize sd) with false
    by (symmetry; apply Z.ltb_ge; lia).
  replace (len body <? windowSize sd) with false by (symmetry; apply Z.ltb_ge; lia).
  remember (Z.to_nat (windowSize sd)) as n eqn:En.
  assert (Hn0 : (0 < n)%nat) by lia.
  pose proof (windows_is_split n body Hn0) as S.
  pose proof (is_split_length n _ _ _ S) as HL.
  assert (Hrem : remainder n body = []).
  { destruct S as (_ & _ & Hlt).
    apply length_zero_iff_nil.
    assert (E : len body mod Z.of_nat n = 0) by (rewrite En, Z2Nat.id; lia).
    unfold len in E. rewrite HL in E.
    rewrite Nat2Z.inj_add, Nat2Z.inj_mul, Z.add_comm, Z.mul_comm, Z.mod_add in E by lia.
    rewrite Z.mod_small in E by lia. lia. }
  assert (S' : is_split n (body ++ rest) (windows n body) rest).
  { destruct S as (E & Hall & _). rewrite Hrem, app_nil_r in E.
    split; [now rewrite <- E|]. split; [exact Hall|]. unfold len in Hrest. lia. }
  destruct (is_split_unique n _ _ _ _ _ (windows_is_split n (body ++ rest) Hn0) S')
    as (-> & _).
  reflexivity.
Qed.

(** X6: a successful [DetectStream] call loses no sample and repeats none:
    the carry-over buffer followed by the chunk is cut into complete
    windows, processed in order, and what is left, less than one window,
    is the carry-over buffer afterwards. *)
Theorem DetectStream_keeps_samples sd pcm sd' segs :
  reachable ort_run sd -> pcm <> [] ->
  DetectStream ort_run sd pcm = Some (sd', (segs, None)) ->
  exists ws sd1,
    streamBuf sd ++ pcm = concat ws ++ streamBuf sd'
    /\ Forall (fun w => len w = windowSize sd) ws
    /\ len (streamBuf sd') < windowSize sd
    /\ run_windows ort_run stream_append sd ws
         (minSilenceSamplesOf (cfg sd)) (speechPadSamplesOf (cfg sd)) []
       = (sd1, (segs, None))
    /\ sd' = set_streamBuf (streamBuf sd') sd1.
Proof.
  intros H Hne HD. destruct (reachable_sound ort_run sd H) as ((Hwf & Hc) & Hb).
  pose proof (well_formed_windowSize sd Hwf) as Hsz.
  destruct (DetectStream_run ort_run sd pcm Hwf Hb Hne) as (b & _ & HR).
  rewrite HR in HD. unfold stream_outcome in HD.
  remember (Z.to_nat (windowSize sd)) as n eqn:En.
  assert (Hn0 : (0 < n)%nat) by lia.
  destruct (windows_is_split n (streamBuf sd ++ pcm) Hn0) as (E & Hall & Hlt).
  destruct (run_windows ort_run stream_append sd (windows n (streamBuf sd ++ pcm))
              (minSilenceSamplesOf (cfg sd)) (speechPadSamplesOf (cfg sd)) [])
    as (sd1 & segs1 & [e|]) eqn:HW; [discriminate|].
  inversion HD; subst sd' segs. clear HD.
  exists (windows n (streamBuf sd ++ pcm)), sd1. cbn [streamBuf set_streamBuf].
  split; [exact E|]. split.
  { eapply Forall_impl; [|exact Hall]. intros w Hw. cbv beta in Hw.
    unfold len. rewrite Hw. lia. }
  split; [unfold len; lia|]. split; [exact HW | reflexivity].
Qed.

(** X7: streaming composes: when one [DetectStream] call over all samples
    succeeds, feeding the same samples cut into any chunks, empty ones
    included, gives the same updates in the same order and leaves the same
    detector. *)
Theorem stream_chunks_concat sd chunks sd' segs :
  reachable ort_run sd -> len (streamBuf sd) < windowSize sd ->
  stream_chunks ort_run sd [concat chunks] = Some (sd', (segs, None)) ->
  stream_chunks ort_run sd chunks = Some (sd', (segs, None)).
Proof.
  intros H Hshort HS. destruct (reachable_sound ort_run sd H) as (Hgood & Hb).
  pose proof (well_formed_windowSize sd (proj1 Hgood)) as Hsz.
  assert (Hlt : (length (streamBuf sd) < Z.to_nat (windowSize sd))%nat)
    by (unfold len in Hshort; lia).
  destruct (window_events ort_run sd
              (windows (Z.to_nat (windowSize sd)) (streamBuf sd ++ concat chunks))
              (minSilenceSamplesOf (cfg sd)) (speechPadSamplesOf (cfg sd)))
    as (sd1 & events & [e|]) eqn:HE.
  - exfalso. cbn [stream_chunks] in HS.
    destruct (concat chunks) as [|x l] eqn:Ec.
    + rewrite app_nil_r in HE.
      destruct (windows_short _ (streamBuf sd) Hlt) as (Hw & _).
      rewrite Hw in HE. discriminate.
    + destruct (DetectStream_run ort_run sd (x :: l) (proj1 Hgood) Hb) as (b & _ & HR);
        [discriminate|].
      rewrite HR in HS. unfold stream_outcome in HS.
      rewrite run_windows_events, HE in HS. discriminate.
  - pose proof (stream_chunks_run ort_run _ _ _ chunks sd sd1 events
                  Hgood Hlt eq_refl eq_refl eq_refl HE) as R1.
    assert (HE' : window_events ort_run sd
                    (windows (Z.to_nat (windowSize sd))
                             (streamBuf sd ++ concat [concat chunks]))
                    (minSilenceSamplesOf (cfg sd)) (speechPadSamplesOf (cfg sd))
                  = (sd1, (events, None)))
      by (cbn [concat]; rewrite app_nil_r; exact HE).
    pose proof (stream_chunks_run ort_run _ _ _ [concat chunks] sd sd1 events
                  Hgood Hlt eq_refl eq_refl eq_refl HE') as R2.
    cbn [concat] in R2. rewrite app_nil_r in R2.
    rewrite R2 in HS. rewrite R1. exact HS.
Qed.

Lemma processWindow_event sd w mins pad sd' ev :
  good sd ->
  processWindow ort_run sd w mins pad = (sd', (ev, None)) ->
  hasStart ev && hasEnd ev = false.
Proof.
  intros (Hwf & Hc) HP.
  destruct (Infer ort_run sd w) as (sd1 & p & [e|]) eqn:HI.
  - rewrite (processWindow_failed ort_run _ _ _ _ _ _ _ HI) in HP. discriminate.
  - rewrite (processWindow_ok ort_run _ _ _ _ _ _ HI) in HP.
    destruct (Infer_frame ort_run _ _ _ _ HI) as (_ & _ & _ & Hv & _ & _ & Ht & _).
    destruct (advanceSpeech_cases
                (set_currSample (GoInt.add (currSample sd1) (windowSize sd1)) sd1)
                p mins pad) as (sd2 & ev2 & HA & _ & _ & Hk).
    { unfold trigger_consistent in *. cbn. congruence. }
    rewrite HA in HP. inversion HP; subst sd2 ev2.
    destruct Hk as [(-> & -> & _) | [(_ & -> & -> & _) | (_ & -> & -> & _)]];
      reflexivity.
Qed.

Lemma window_events_single mins pad ws : forall sd sd' events,
  good sd ->
  window_events ort_run sd ws mins pad = (sd', (events, None)) ->
  length events = length ws
  /\ Forall (fun ev => hasStart ev && hasEnd ev = false) events.
Proof.
  induction ws as [|w ws IH]; intros sd sd' events Hgood HE; cbn [window_events] in HE.
  - inversion HE. split; [reflexivity | constructor].
  - destruct (processWindow ort_run sd w mins pad) as (sd1 & ev & [e|]) eqn:HP;
      [discriminate|].
    destruct (window_events ort_run sd1 ws mins pad) as (sd2 & evs & err) eqn:HE1.
    inversion HE; subst sd2 events err.
    destruct (processWindow_good ort_run _ _ _ _ _ _ _ Hgood HP) as (Hg1 & _).
    destruct (IH _ _ _ Hg1 HE1) as (Hl & Hall).
    split; [cbn [length]; now rewrite Hl|].
    constructor; [exact (processWindow_event _ _ _ _ _ _ Hgood HP) | exact Hall].
Qed.

Lemma stream_updates_length events :
  Forall (fun ev => hasStart ev && hasEnd ev = false) events ->
  (length (fold_left stream_append events []) <= length events)%nat.
Proof.
  rewrite fold_stream_append. cbn [app].
  induction 1 as [|ev events Hev _ IH]; cbn [map concat length]; [lia|].
  rewrite length_app.
  assert ((length (stream_append [] ev) <= 1)%nat); [|lia].
  unfold stream_append.
  destruct (hasStart ev), (hasEnd ev); cbn [app length]; first [lia | discriminate].
Qed.

(** X8: no window both opens and closes a segment, so [DetectStream]
    returns at most one update per complete window it has processed. *)
Theorem one_update_per_window sd pcm sd' segs :
  reachable ort_run sd ->
  DetectStream ort_run sd pcm = Some (sd', (segs, None)) ->
  len segs * windowSize sd <= len (streamBuf sd) + len pcm.
Proof.
  intros H HD. destruct (reachable_sound ort_run sd H) as (Hgood & Hb).
  pose proof (well_formed_windowSize sd (proj1 Hgood)) as Hsz.
  pose proof (len_nonneg (streamBuf sd)) as Hb0.
  destruct pcm as [|x pcm].
  { rewrite DetectStream_empty in HD. inversion HD; subst sd' segs.
    change (0 * windowSize sd <= len (streamBuf sd) + 0). lia. }
  destruct (DetectStream_run ort_run sd (x :: pcm) (proj1 Hgood) Hb) as (b & _ & HR);
    [discriminate|].
  rewrite HR in HD. unfold stream_outcome in HD. rewrite run_windows_events in HD.
  remember (Z.to_nat (windowSize sd)) as n eqn:En.
  assert (Hn0 : (0 < n)%nat) by lia.
  pose proof (is_split_length n _ _ _ (windows_is_split n (streamBuf sd ++ x :: pcm) Hn0))
    as HL.
  destruct (window_events ort_run sd (windows n (streamBuf sd ++ x :: pcm))
              (minSilenceSamplesOf (cfg sd)) (speechPadSamplesOf (cfg sd)))
    as (sd1 & events & [e|]) eqn:HE; [discriminate|].
  inversion HD; subst sd' segs. clear HD.
  destruct (window_events_single _ _ _ _ _ _ Hgood HE) as (Hlen & Hall).
  pose proof (stream_updates_length events Hall) as Hle.
  rewrite <- len_app. unfold len. rewrite HL.
  assert (Z.of_nat n = windowSize sd) as <- by lia. nia.
Qed.

(** X9: the trigger sees the audio only through the probabilities: two
    [Detect] calls from the same detector, on any samples and with any
    engines, return the same segments and the same error when every
    inference succeeds and the windows get the same probabilities. *)
Theorem segments_follow_probabilities (other_run : list F32 -> rstate -> Z -> option (F32 * rstate))
    sd pcm pcm' probs :
  reachable ort_run sd ->
  infer_probs ort_run sd (windows (Z.to_nat (windowSize sd)) pcm) = probs ->
  infer_probs other_run sd (windows (Z.to_nat (windowSize sd)) pcm') = probs ->
  length (windows (Z.to_nat (windowSize sd)) pcm) = length probs ->
  length (windows (Z.to_nat (windowSize sd)) pcm') = length probs ->
  option_map snd (Detect ort_run sd pcm) = option_map snd (Detect other_run sd pcm').
Proof.
  intros H Hp Hp' Hl Hl'.
  destruct (reachable_sound ort_run sd H) as ((Hwf & Hc) & Hb).
  pose proof (well_formed_windowSize sd Hwf) as Hsz.
  rewrite (Detect_run ort_run sd pcm Hwf), (Detect_run other_run sd pcm' Hwf).
  remember (Z.to_nat (windowSize sd)) as n eqn:En.
  assert (Hn0 : (0 < n)%nat) by lia.
  assert (Hshort : forall l : list F32,
             (len l <? windowSize sd) = (length (windows n l) =? 0)%nat).
  { intros l. destruct (Z.ltb_spec (len l) (windowSize sd)) as [Hs | Hs].
    - destruct (windows_short n l) as (-> & _); [unfold len in Hs; lia | reflexivity].
    - symmetry. apply Nat.eqb_neq.
      pose proof (is_split_length n _ _ _ (windows_is_split n l Hn0)) as HL.
      destruct (windows_is_split n l Hn0) as (_ & _ & Hr).
      unfold len in Hs. nia. }
  rewrite !Hshort, Hl, Hl'.
  destruct (length probs =? 0)%nat; [reflexivity|].
  destruct (run_windows_by_probs ort_run batch_append (windows n pcm) sd sd []
              probs (minSilenceSamplesOf (cfg sd)) (speechPadSamplesOf (cfg sd)))
    as (e1 & R1); try solve [reflexivity | lia | congruence].
  destruct (run_windows_by_probs other_run batch_append (windows n pcm') sd sd []
              probs (minSilenceSamplesOf (cfg sd)) (speechPadSamplesOf (cfg sd)))
    as (e2 & R2); try solve [reflexivity | lia | congruence].
  rewrite graft_self in R1, R2. rewrite R1, R2.
  destruct (trigger_run sd probs _ _) as (t' & events & [e|]); reflexivity.
Qed.

(** X10: [Infer] leaves the trigger alone: whether it succeeds or fails,
    the configuration, the sample counter, the trigger's fields and the
    carry-over buffer are as before. *)
Theorem Infer_keeps_trigger sd samples :
  let sd' := fst (Infer ort_run sd samples) in
  cfg sd' = cfg sd /\ currSample sd' = currSample sd
  /\ triggered sd' = triggered sd /\ tempEnd sd' = tempEnd sd
  /\ pendingStart sd' = pendingStart sd
  /\ pendingStartValid sd' = pendingStartValid sd
  /\ streamBuf sd' = streamBuf sd.
Proof.
  destruct (Infer ort_run sd samples) as (sd' & r) eqn:HI. cbn [fst].
  destruct (Infer_frame ort_run _ _ _ _ HI) as (H1 & _ & H3 & H4 & H5 & H6 & H7 & H8).
  repeat split; assumption.
Qed.

Lemma Detector_ext a b :
  cfg a = cfg b -> state a = state b -> windowSize a = windowSize b ->
  inputBuf a = inputBuf b -> pendingStart a = pendingStart b ->
  pendingStartValid a = pendingStartValid b -> streamBuf a = streamBuf b ->
  currSample a = currSample b -> triggered a = triggered b ->
  tempEnd a = tempEnd b -> a = b.
Proof. destruct a, b. cbn. intros; subst; reflexivity. Qed.

(** X11: [Reset] keeps the configuration, [SetThreshold]'s threshold
    included, the window size and the length of the input buffer, and a
    second [Reset] changes nothing. *)
Theorem Reset_idempotent sd :
  Reset (Reset sd) = Reset sd
  /\ cfg (Reset sd) = cfg sd /\ windowSize (Reset sd) = windowSize sd
  /\ len (inputBuf (Reset sd)) = len (inputBuf sd).
Proof.
  split; [|split; [reflexivity|split; [reflexivity|]]].
  - apply Detector_ext; try reflexivity.
    + change (Vector.map (fun _ : F32 => 0%Q) (Vector.map (fun _ : F32 => 0%Q) (state sd))
              = Vector.map (fun _ : F32 => 0%Q) (state sd)).
      now rewrite !vector_map_const.
    + change (clear (clear (inputBuf sd)) = clear (inputBuf sd)).
      unfold clear. rewrite map_map. reflexivity.
  - change (len (clear (inputBuf sd)) = len (inputBuf sd)).
    unfold len, clear. now rewrite length_map.
Qed.
Lemma run_counter append ws : forall sd mins pad segs sd' segs',
  good sd ->
  run_windows ort_run append sd ws mins pad segs = (sd', (segs', None)) ->
  GoInt.wrap (currSample sd') = GoInt.wrap (currSample sd + windowSize sd * len ws)
  /\ (ws <> [] -> GoInt.in_range (currSample sd')).
Proof.
  induction ws as [|w ws IH]; intros sd mins pad segs sd' segs' Hgood HR;
    cbn [run_windows] in HR.
  - inversion HR; subst. split; [|congruence].
    f_equal. change (len (@nil (list F32))) with 0. lia.
  - destruct (processWindow ort_run sd w mins pad) as (sd1 & ev & [e|]) eqn:HP;
      [discriminate|].
    destruct (processWindow_good ort_run _ _ _ _ _ _ _ Hgood HP) as (Hg1 & _).
    destruct (processWindow_frame ort_run _ _ _ _ _ _ (proj1 Hgood) HP) as (_ & Hwin & _).
    assert (Hcur : currSample sd1 = GoInt.add (currSample sd) (windowSize sd)).
    { destruct (Infer ort_run sd w) as (sd0 & p & [e|]) eqn:HI.
      - rewrite (processWindow_failed ort_run _ _ _ _ _ _ _ HI) in HP. discriminate.
      - rewrite (processWindow_ok ort_run _ _ _ _ _ _ HI) in HP.
        destruct (Infer_frame ort_run _ _ _ _ HI) as (_ & Hw0 & _ & _ & _ & Hc0 & _).
        destruct (advanceSpeech_frame _ _ _ _ _ _ HP) as (_ & _ & _ & _ & _ & Hc1).
        rewrite Hc1. cbn [currSample set_currSample].
        rewrite Hc0, Hw0, (well_formed_fix sd (proj1 Hgood)). reflexivity. }
    destruct (IH _ _ _ _ _ _ Hg1 HR) as (Hw & Hin).
    assert (Hlen : len (w :: ws) = 1 + len ws) by (unfold len; cbn [length]; lia).
    split.
    + rewrite Hw, Hwin, Hcur, Hlen. unfold GoInt.add. apply wrap_congr.
      pose proof (wrap_mod (currSample sd + windowSize sd)) as M.
      apply Z.mod_divide in M; [|lia]. destruct M as [k Hk].
      apply Z.mod_divide; [lia|]. exists k. lia.
    + intros _. destruct ws as [|w' ws'].
      * cbn [run_windows] in HR. inversion HR; subst sd'.
        rewrite Hcur. apply wrap_range.
      * apply Hin. discriminate.
Qed.

(** X12: [Detect] does not start the sample counter again: a successful
    call moves it on by one window size for every complete window of the
    input, in Go's [int], so the timestamps of the next call go on from
    where this one stopped. *)
Theorem Detect_advances_counter sd pcm sd' segs :
  reachable ort_run sd ->
  Detect ort_run sd pcm = Some (sd', (segs, None)) ->
  currSample sd'
  = GoInt.wrap (currSample sd + windowSize sd * (len pcm / windowSize sd)).
Proof.
  intros H HD. destruct (reachable_sound ort_run sd H) as (Hgood & Hb).
  pose proof (well_formed_windowSize sd (proj1 Hgood)) as Hsz.
  rewrite (Detect_run ort_run sd pcm (proj1 Hgood)) in HD.
  destruct (Z.ltb_spec (len pcm) (windowSize sd)) as [Hs | Hs]; [discriminate|].
  inversion HD as [HR]. clear HD.
  remember (Z.to_nat (windowSize sd)) as n eqn:En.
  assert (Hn0 : (0 < n)%nat) by lia.
  pose proof (is_split_length n _ _ _ (windows_is_split n pcm Hn0)) as HL.
  destruct (windows_is_split n pcm Hn0) as (_ & _ & Hr).
  assert (Hk : len pcm / windowSize sd = len (windows n pcm)).
  { symmetry. apply (Z.div_unique _ _ _ (len (remainder n pcm))).
    - unfold len. lia.
    - unfold len. rewrite HL. nia. }
  destruct (run_counter _ _ _ _ _ _ _ _ Hgood HR) as (Hw & Hin).
  rewrite Hk, <- Hw. symmetry. apply wrap_small. apply Hin.
  intros E. rewrite E in Hk. change (len (@nil (list F32))) with 0 in Hk.
  assert (0 < len pcm / windowSize sd); [apply Z.div_str_pos; lia | lia].
Qed.

(** X13: the recurrent state and the context are threaded from call to
    call: after a successful [Infer] on [w1], the next [Infer] runs the
    engine on the last 64 samples of [w1] followed by the new window, with
    the state the first run returned. *)
Theorem Infer_threads_state sd w1 w2 p1 s1 :
  reachable ort_run sd ->
  len w1 = windowSize sd -> len w2 = windowSize sd ->
  ort_run (context sd ++ w1) (state sd) (SampleRate (cfg sd)) = Some (p1, s1) ->
  exists sd1,
    Infer ort_run sd w1 = (sd1, (p1, None))
    /\ state sd1 = s1
    /\ Infer ort_run sd1 w2
       = match ort_run (window_tail w1 ++ w2) s1 (SampleRate (cfg sd)) with
         | None => (set_inputBuf (window_tail w1 ++ w2) sd1, (0%Q, Some ErrOrt))
         | Some (p2, s2) =>
             (set_inputBuf (window_tail w2 ++ w2) (set_state s2 sd1), (p2, None))
         end.
Proof.
  intros H H1 H2 Hrun. destruct (reachable_sound ort_run sd H) as ((Hwf & Hc) & Hb).
  pose proof (well_formed_windowSize sd Hwf) as Hsz.
  pose proof (Infer_accepts ort_run sd w1 Hwf H1) as HI. rewrite Hrun in HI.
  eexists. split; [exact HI|]. split; [reflexivity|].
  pose proof (Infer_well_formed ort_run _ _ _ _ Hwf HI) as Hwf1.
  rewrite (Infer_accepts ort_run _ w2 Hwf1 H2).
  assert (Hctx : context (set_inputBuf (window_tail w1 ++ w1) (set_state s1 sd))
                 = window_tail w1).
  { unfold context, slice_to. cbn [inputBuf set_inputBuf].
    apply firstn_app_exact. unfold window_tail. rewrite length_skipn.
    unfold len, contextLen in *. lia. }
  rewrite Hctx. reflexivity.
Qed.

Lemma inert_window sd p mins pad :
  inert sd p = true ->
  advanceSpeech sd p mins pad = (sd, (zero_event, None)).
Proof.
  unfold inert, below_release, advanceSpeech. intros Hi.
  apply andb_true_iff in Hi. destruct Hi as (Hge & Hor).
  apply negb_true_iff in Hge.
  destruct (triggered sd) eqn:Ht; cbn [negb orb] in Hor.
  - apply negb_true_iff in Hor.
    repeat (simp; first [rewrite Hge | rewrite Hor | rewrite Ht]). reflexivity.
  - repeat (simp; first [rewrite Hge | rewrite Ht]).
    rewrite andb_false_r. reflexivity.
Qed.

(** X14: windows the trigger lets pass change nothing but the sample
    counter.  A probability below the threshold never opens a segment, and
    inside a segment a probability between the release level and the
    threshold neither ends it nor clears a pending silence, which goes on
    being measured from where it began. *)
Theorem inert_windows_ignored sd probs mins pad :
  Forall (fun p => inert sd p = true) probs ->
  exists sd',
    trigger_run sd probs mins pad = (sd', (map (fun _ => zero_event) probs, None))
    /\ cfg sd' = cfg sd /\ triggered sd' = triggered sd /\ tempEnd sd' = tempEnd sd
    /\ pendingStart sd' = pendingStart sd
    /\ pendingStartValid sd' = pendingStartValid sd.
Proof.
  revert sd. induction probs as [|p probs IH]; intros sd Hall.
  - exists sd. repeat split.
  - pose proof (Forall_inv Hall) as Hp. cbv beta in Hp.
    pose proof (Forall_inv_tail Hall) as Hrest.
    cbn [trigger_run map]. unfold advance_window.
    rewrite (inert_window (set_currSample _ sd) p mins pad) by exact Hp.
    destruct (IH (set_currSample (GoInt.add (currSample sd) (windowSize sd)) sd))
      as (sd' & HR & H1 & H2 & H3 & H4 & H5); [exact Hrest|].
    rewrite HR. exists sd'. repeat split; assumption.
Qed.


Lemma timestamp_le a b r :
  0 < r -> a <= b ->
  (float64_of_int a / float64_of_int r <= float64_of_int b / float64_of_int r)%Q.
Proof.
  intros Hr Hab. destruct r as [|r|r]; try lia.
  unfold float64_of_int, inject_Z, Qdiv, Qinv, Qmult, Qle. cbn. nia.
Qed.

Lemma timestamp_lt a b r :
  0 < r -> a < b ->
  (float64_of_int a / float64_of_int r < float64_of_int b / float64_of_int r)%Q.
Proof.
  intros Hr Hab. destruct r as [|r|r]; try lia.
  unfold float64_of_int, inject_Z, Qdiv, Qinv, Qmult, Qlt. cbn. nia.
Qed.

Lemma timestamp_nonneg a r :
  0 < r -> 0 <= a -> (0 <= float64_of_int a / float64_of_int r)%Q.
Proof.
  intros Hr Ha. destruct r as [|r|r]; try lia.
  unfold float64_of_int, inject_Z, Qdiv, Qinv, Qmult, Qle. cbn. nia.
Qed.

Lemma clamp0_le x y : (x <= y)%Q -> (0 <= y)%Q -> (clamp0 x <= y)%Q.
Proof. intros Hx Hy. unfold clamp0. destruct (Qltb x 0); assumption. Qed.

Lemma advanceSpeech_start sd p mins pad sd' ev err :
  advanceSpeech sd p mins pad = (sd', (ev, err)) ->
  hasStart ev = true ->
  startAt ev = start_timestamp sd pad /\ tempEnd sd' = 0.
Proof.
  unfold advanceSpeech.
  destruct (Qgeb p (Threshold (cfg sd))) eqn:Hge.
  - pose proof (Qgeb_not_release _ _ Hge) as Hlt.
    destruct (tempEnd sd =? 0) eqn:Hte; destruct (triggered sd) eqn:Ht;
      repeat (simp; first [rewrite Hge | rewrite Hlt | rewrite Ht | rewrite Hte]);
      simp; intros H; inversion H; subst; simp; intros Hs; try discriminate;
      (split; [reflexivity|]); try reflexivity.
    apply Z.eqb_eq in Hte. exact Hte.
  - repeat (simp; first [rewrite Hge | split_if]); simp;
      intros H; inversion H; subst; simp; intros Hs; discriminate.
Qed.

Lemma batch_append_closes pre ps ev :
  hasStart ev = false -> hasEnd ev = true -> endStartAt ev = ps ->
  batch_append (pre ++ [open_at ps]) ev
  = pre ++ [{| SpeechStartAt := ps; SpeechEndAt := endAt ev |}].
Proof.
  intros Hs He Hps. unfold batch_append. rewrite Hs, He.
  assert (Hl : forall x : Segment, (0 <? len (pre ++ [x])) = true).
  { intros x. apply Z.ltb_lt. rewrite len_app. pose proof (len_nonneg pre).
    unfold len at 2. cbn [length]. lia. }
  unfold batch_end. rewrite Hl, last_last, removelast_last.
  unfold open_at. cbn [SpeechEndAt SpeechStartAt].
  rewrite Hps, !Qeq_bool_refl_true. reflexivity.
Qed.

(** One window with an engine that never fails: the times of its event. *)
Lemma processWindow_times sd w mins pad bound B :
  engine_total ort_run -> good sd -> len w = windowSize sd ->
  0 <= pad -> bound + pad <= GoInt.max_int ->
  positions_ok sd (bound - windowSize sd) ->
  start_behind sd ->
  well_shaped (pendingStartValid sd) (pendingStart sd) B ->
  exists sd' ev,
    processWindow ort_run sd w mins pad = (sd', (ev, None))
    /\ good sd' /\ cfg sd' = cfg sd /\ windowSize sd' = windowSize sd
    /\ positions_ok sd' bound
    /\ start_behind sd'
    /\ well_shaped (pendingStartValid sd') (pendingStart sd') (batch_append B ev).
Proof.
  intros Htot Hgood Hw Hpad Hbound ((Ht0 & Ht1) & Hc) Hsb HB.
  pose proof Hgood as (Hwf & Hcons).
  pose proof (well_formed_windowSize sd Hwf) as Hws.
  assert (Hrate : 0 < SampleRate (cfg sd))
    by (destruct Hwf as ([-> | ->] & _); lia).
  pose proof (Infer_accepts ort_run sd w Hwf Hw) as HI.
  destruct (ort_run (context sd ++ w) (state sd) (SampleRate (cfg sd)))
    as [[p stN]|] eqn:Hrun; [|now apply Htot in Hrun].
  pose proof (processWindow_ok ort_run sd w mins pad _ _ HI) as HP.
  simp in HP.
  assert (Hadd : GoInt.add (currSample sd) (windowSize sd)
                 = currSample sd + windowSize sd).
  { apply wrap_small. unfold GoInt.in_range, GoInt.min_int, GoInt.max_int in *. lia. }
  rewrite Hadd in HP.
  remember (set_currSample (currSample sd + windowSize sd)
              (set_inputBuf (window_tail w ++ w) (set_state stN sd))) as sd0 eqn:E0.
  assert (Hc0 : trigger_consistent sd0) by (subst sd0; exact Hcons).
  destruct (advanceSpeech_cases sd0 p mins pad Hc0)
    as (sd' & ev & HA & Hcur & Hte & Hkind).
  rewrite HA in HP.
  assert (F0 : currSample sd0 = currSample sd + windowSize sd
               /\ tempEnd sd0 = tempEnd sd
               /\ pendingStartValid sd0 = pendingStartValid sd
               /\ pendingStart sd0 = pendingStart sd
               /\ cfg sd0 = cfg sd /\ windowSize sd0 = windowSize sd)
    by (subst sd0; repeat split).
  destruct F0 as (F1 & F2 & F3 & F4 & F5 & F6).
  destruct (processWindow_good ort_run sd w mins pad sd' ev None Hgood HP) as (Hg' & _).
  destruct (processWindow_frame ort_run sd w mins pad sd' _ Hwf HP) as (Hcfg & Hwin & _).
  exists sd', ev. split; [exact HP|].
  split; [exact Hg'|]. split; [exact Hcfg|]. split; [exact Hwin|].
  assert (Hpos' : positions_ok sd' bound).
  { unfold positions_ok. rewrite Hcur, F1.
    destruct Hte as [-> | [-> | ->]]; rewrite ?F1, ?F2; lia. }
  split; [exact Hpos'|].
  unfold start_behind, well_shaped in *. rewrite Hcfg, Hwin, Hcur, F1.
  rewrite F3, F4 in Hkind.
  destruct Hkind as [(Hs & He & Hv' & Hps') | [(Hv & Hs & He & Hv' & Hps')
                                              | (Hv & Hs & He & Hes & Hv' & Hend)]].
  - (* no event *)
    rewrite Hv', Hps'. split.
    + intros Hvalid. destruct (Hsb Hvalid) as (I1 & I2).
      assert (J1 : (pendingStart sd
                    <= float64_of_int (currSample sd + windowSize sd - windowSize sd)
                       / float64_of_int (SampleRate (cfg sd)))%Q).
      { eapply Qle_trans; [exact I1|]. apply timestamp_le; lia. }
      split; [exact J1|].
      intros Hne. destruct Hte as [E | [E | E]]; rewrite E in Hne |- *.
      * rewrite F2 in Hne |- *. exact (I2 Hne).
      * contradiction.
      * rewrite F1. exact J1.
    + unfold batch_append. rewrite Hs, He. exact HB.
  - (* a start *)
    rewrite Hv', Hps'. rewrite Hv in HB.
    destruct (advanceSpeech_start _ _ _ _ _ _ _ HA Hs) as (Hst & Hte0).
    split.
    + intros _. split; [|intros Hne; contradiction].
      rewrite Hst. unfold start_timestamp. rewrite F1, F5, F6.
      assert (S1 : GoInt.sub (currSample sd + windowSize sd) (windowSize sd)
                   = currSample sd).
      { unfold GoInt.sub. rewrite wrap_small; [lia|].
        unfold GoInt.in_range, GoInt.min_int, GoInt.max_int in *. lia. }
      rewrite S1.
      assert (S2 : GoInt.sub (currSample sd) pad = currSample sd - pad).
      { apply wrap_small. unfold GoInt.in_range, GoInt.min_int, GoInt.max_int in *. lia. }
      rewrite S2. apply clamp0_le.
      * apply timestamp_le; lia.
      * apply timestamp_nonneg; lia.
    + unfold batch_append. rewrite Hs, He. exists B. split; [|exact HB].
      unfold start_segment, open_at. reflexivity.
  - (* an end *)
    rewrite Hv'. rewrite Hv in HB. split; [intros Hf; discriminate|].
    destruct HB as (pre & -> & Hpre).
    rewrite (batch_append_closes pre (pendingStart sd) ev Hs He Hes).
    apply Forall_app. split; [exact Hpre|].
    constructor; [|constructor]. unfold positive, is_open.
    cbn [SpeechStartAt SpeechEndAt].
    destruct (Hsb Hv) as (I1 & I2).
    assert (Hin : GoInt.add (if tempEnd sd0 =? 0 then currSample sd0 else tempEnd sd0) pad
                  = (if tempEnd sd0 =? 0 then currSample sd0 else tempEnd sd0) + pad).
    { apply wrap_small. rewrite F1, F2.
      unfold GoInt.in_range, GoInt.min_int, GoInt.max_int in *.
      destruct (tempEnd sd =? 0); lia. }
    rewrite Hend, F5, Hin, F1, F2. split.
    + apply timestamp_nonzero; [|exact Hrate].
      destruct (tempEnd sd =? 0) eqn:Ez; [lia|]. apply Z.eqb_neq in Ez. lia.
    + destruct (tempEnd sd =? 0) eqn:Ez.
      * eapply Qle_lt_trans; [exact I1|]. apply timestamp_lt; lia.
      * apply Z.eqb_neq in Ez.
        eapply Qle_lt_trans; [exact (I2 Ez)|]. apply timestamp_lt; lia.
Qed.

Lemma window_events_shape mins pad ws : forall sd B bound,
  engine_total ort_run -> good sd ->
  Forall (fun w => len w = windowSize sd) ws ->
  0 <= pad -> bound + pad <= GoInt.max_int ->
  positions_ok sd (bound - windowSize sd * len ws) ->
  start_behind sd ->
  well_shaped (pendingStartValid sd) (pendingStart sd) B ->
  exists sd' events,
    window_events ort_run sd ws mins pad = (sd', (events, None))
    /\ well_shaped (pendingStartValid sd') (pendingStart sd')
                   (fold_left batch_append events B).
Proof.
  induction ws as [|w ws IH];
    intros sd B bound Htot Hgood Hws Hpad Hbound Hpos Hsb HB.
  - exists sd, []. split; [reflexivity | exact HB].
  - pose proof (Forall_inv Hws) as Hw. cbv beta in Hw.
    pose proof (Forall_inv_tail Hws) as Hws'.
    pose proof (well_formed_windowSize sd (proj1 Hgood)) as Hsz.
    assert (Hlen : len (w :: ws) = 1 + len ws)
      by (unfold len; cbn [length]; lia).
    pose proof (len_nonneg ws) as Hnn.
    destruct (processWindow_times sd w mins pad
                (bound - windowSize sd * len ws) B Htot Hgood Hw Hpad)
      as (sd1 & ev & HP & Hg1 & Hcfg & Hwin & Hpos1 & Hsb1 & HB1);
      [nia | unfold positions_ok in *; rewrite Hlen in Hpos; nia
       | exact Hsb | exact HB |].
    destruct (IH sd1 (batch_append B ev) bound Htot Hg1) as (sd' & events & HE & Hshape);
      try assumption.
    { rewrite Hwin. exact Hws'. }
    { rewrite Hwin. exact Hpos1. }
    exists sd', (ev :: events). split.
    + cbn [window_events]. rewrite HP, HE. reflexivity.
    + cbn [fold_left]. exact Hshape.
Qed.

(** X16: the list [Detect] returns from a fresh detector, with an engine
    that never fails and a padding that is not negative and does not
    overflow: every segment is closed and ends after it starts, except that
    the last one is open, with the pending start, exactly when the input
    ends inside a segment. *)
Theorem Detect_segments_shape sd pcm sd' segs :
  engine_total ort_run -> fresh ort_run sd ->
  0 <= speechPadSamplesOf (cfg sd) ->
  len pcm + speechPadSamplesOf (cfg sd) <= GoInt.max_int ->
  Detect ort_run sd pcm = Some (sd', (segs, None)) ->
  well_shaped (pendingStartValid sd') (pendingStart sd') segs.
Proof.
  intros Htot Hf Hpad Hb HD.
  destruct (fresh_idle ort_run sd Hf) as ((Hgood & _) & Hbuf & Hc & Ht & Hv).
  pose proof (well_formed_windowSize sd (proj1 Hgood)) as Hsz.
  rewrite (Detect_run ort_run sd pcm (proj1 Hgood)) in HD.
  destruct (len pcm <? windowSize sd); [discriminate|].
  inversion HD as [HR]. clear HD.
  remember (Z.to_nat (windowSize sd)) as n eqn:En.
  assert (Hn0 : (0 < n)%nat) by lia.
  pose proof (windows_is_split n pcm Hn0) as S.
  pose proof (is_split_length n _ _ _ S) as Hlen.
  destruct S as (_ & Hall & Hr).
  destruct (window_events_shape (minSilenceSamplesOf (cfg sd))
              (speechPadSamplesOf (cfg sd)) (windows n pcm) sd []
              (len pcm) Htot Hgood)
    as (sd1 & events & HE & Hshape).
  { eapply Forall_impl; [|exact Hall]. intros w Hw. cbv beta in Hw.
    unfold len. rewrite Hw. lia. }
  { exact Hpad. }
  { exact Hb. }
  { unfold positions_ok. rewrite Ht, Hc. unfold len. rewrite Hlen. nia. }
  { unfold start_behind. rewrite Hv. discriminate. }
  { unfold well_shaped. rewrite Hv. constructor. }
  rewrite run_windows_events, HE in HR. inversion HR; subst sd' segs.
  exact Hshape.
Qed.

Lemma Infer_failure sd w sd' p e :
  Infer ort_run sd w = (sd', (p, Some e)) ->
  p = 0%Q /\ state sd' = state sd.
Proof.
  unfold Infer.
  repeat (simp;
          first [ split_if
                | match goal with
                  | |- context [ort_run ?a ?b ?c] =>
                      destruct (ort_run a b c) as [[? ?]|]
                  end ]);
    simp; intros H; inversion H; subst; simp; split; try reflexivity;
    unfold fix_windowSize; split_if; reflexivity.
Qed.

(** X17: a failed [Infer], whatever the cause, returns probability 0 and
    leaves the recurrent state as it was; when the engine is the cause, on a
    reachable detector, the window has already been copied behind the
    context in the input buffer. *)
Theorem Infer_failure_keeps_state sd samples sd' p e :
  reachable ort_run sd ->
  Infer ort_run sd samples = (sd', (p, Some e)) ->
  p = 0%Q /\ state sd' = state sd
  /\ (e = ErrOrt -> inputBuf sd' = context sd ++ samples).
Proof.
  intros H HI. destruct (reachable_sound ort_run sd H) as ((Hwf & _) & _).
  destruct (Infer_failure _ _ _ _ _ HI) as (Hp & Hs).
  split; [exact Hp|]. split; [exact Hs|].
  intros ->.
  destruct (Z.eq_dec (len samples) (windowSize sd)) as [Hl | Hl].
  - rewrite (Infer_accepts ort_run sd samples Hwf Hl) in HI.
    destruct (ort_run (context sd ++ samples) (state sd) (SampleRate (cfg sd)))
      as [[q st]|]; inversion HI; subst. reflexivity.
  - pose proof (Infer_rejects ort_run sd samples) as R.
    rewrite (well_formed_fix sd Hwf) in R. pose proof (R Hl) as R1.
    rewrite R1 in HI. inversion HI.
Qed.

Lemma run_windows_error_kind append ws : forall sd mins pad segs sd' segs' e,
  good sd -> Forall (fun w => len w = windowSize sd) ws ->
  run_windows ort_run append sd ws mins pad segs = (sd', (segs', Some e)) ->
  segs' = [] /\ e = ErrInferFailed ErrOrt.
Proof.
  induction ws as [|w ws IH]; intros sd mins pad segs sd' segs' e Hgood Hall HR;
    cbn [run_windows] in HR; [discriminate|].
  pose proof (Forall_inv Hall) as Hw. cbv beta in Hw.
  pose proof (Forall_inv_tail Hall) as Hrest.
  destruct (processWindow ort_run sd w mins pad) as (sd1 & ev & [e1|]) eqn:HP.
  - inversion HR; subst. split; [reflexivity|].
    destruct (Infer ort_run sd w) as (sd0 & p & [e0|]) eqn:HI.
    + rewrite (processWindow_failed ort_run _ _ _ _ _ _ _ HI) in HP.
      inversion HP; subst. f_equal.
      rewrite (Infer_accepts ort_run sd w (proj1 Hgood) Hw) in HI.
      destruct (ort_run (context sd ++ w) (state sd) (SampleRate (cfg sd)))
        as [[q st]|]; inversion HI; reflexivity.
    + rewrite (processWindow_ok ort_run _ _ _ _ _ _ HI) in HP.
      destruct (Infer_frame ort_run _ _ _ _ HI) as (_ & _ & _ & Hv & _ & _ & Ht & _).
      assert (Hc0 : trigger_consistent
                      (set_currSample (GoInt.add (currSample sd0) (windowSize sd0)) sd0)).
      { destruct Hgood as (_ & Hc). unfold trigger_consistent in *. cbn. congruence. }
      destruct (advanceSpeech_consistent _ _ _ _ _ _ _ Hc0 HP) as (_ & Hnone).
      discriminate.
  - destruct (processWindow_good ort_run _ _ _ _ _ _ _ Hgood HP) as (Hg1 & _).
    destruct (processWindow_frame ort_run _ _ _ _ _ _ (proj1 Hgood) HP) as (_ & Hwin & _).
    rewrite <- Hwin in Hrest. exact (IH sd1 mins pad _ sd' segs' e Hg1 Hrest HR).
Qed.

(** X18: the errors a call can return on a reachable detector.  [Infer]
    fails on a wrong length or in the engine.  [Detect] fails for want of
    one window, touching nothing, or in the engine.  [DetectStream] fails in
    the engine only.  [Detect] and [DetectStream] return no segments with an
    error and never hand [Infer] a window of the wrong length; [Reset] and
    [SetThreshold] cannot fail. *)
Theorem errors_of_calls sd c sd' r e :
  reachable ort_run sd ->
  do_call ort_run sd c = Some (sd', r) -> reply_error r = Some e ->
  match c with
  | CallInfer samples =>
      e = ErrOrt
      \/ (len samples <> windowSize sd
          /\ e = ErrSamplesLength (windowSize sd) (len samples))
  | CallDetect pcm =>
      r = ReplySegments [] (Some e)
      /\ ((len pcm < windowSize sd /\ e = ErrNotEnoughSamples /\ sd' = sd)
          \/ e = ErrInferFailed ErrOrt)
  | CallDetectStream pcm =>
      r = ReplySegments [] (Some e) /\ e = ErrInferFailed ErrOrt
  | CallReset | CallSetThreshold _ => False
  end.
Proof.
  intros H HC He. destruct (reachable_sound ort_run sd H) as (Hgood & Hb).
  pose proof Hgood as (Hwf & Hc).
  pose proof (well_formed_windowSize sd Hwf) as Hsz.
  destruct c as [w | pcm | pcm | | v]; cbn [do_call] in HC.
  - destruct (Infer ort_run sd w) as (sd1 & p & err) eqn:HI.
    inversion HC; subst sd' r. cbn [reply_error] in He. subst err.
    destruct (Z.eq_dec (len w) (windowSize sd)) as [Hl | Hl].
    + left. rewrite (Infer_accepts ort_run sd w Hwf Hl) in HI.
      destruct (ort_run (context sd ++ w) (state sd) (SampleRate (cfg sd)))
        as [[q st]|]; inversion HI; reflexivity.
    + right. split; [exact Hl|].
      pose proof (Infer_rejects ort_run sd w) as R.
      rewrite (well_formed_fix sd Hwf) in R. pose proof (R Hl) as R1.
      rewrite R1 in HI. inversion HI. reflexivity.
  - rewrite (Detect_run ort_run sd pcm Hwf) in HC.
    destruct (Z.ltb_spec (len pcm) (windowSize sd)) as [Hs | Hs].
    + inversion HC; subst sd' r. cbn [reply_error] in He. inversion He; subst e.
      split; [reflexivity|]. left. repeat split. exact Hs.
    + destruct (run_windows ort_run batch_append sd _ _ _ [])
        as (sd1 & segs & err) eqn:HR.
      inversion HC; subst sd' r. cbn [reply_error] in He. subst err.
      assert (Hlens : Forall (fun w => len w = windowSize sd)
                             (windows (Z.to_nat (windowSize sd)) pcm)).
      { destruct (windows_is_split (Z.to_nat (windowSize sd)) pcm) as (_ & Hall & _);
          [lia|].
        eapply Forall_impl; [|exact Hall]. intros w Hw. cbv beta in Hw.
        unfold len. rewrite Hw. lia. }
      destruct (run_windows_error_kind _ _ _ _ _ _ _ _ _ Hgood Hlens HR) as (-> & ->).
      split; [reflexivity | right; reflexivity].
  - destruct pcm as [|x pcm].
    { rewrite DetectStream_empty in HC. inversion HC; subst. discriminate. }
    destruct (DetectStream_run ort_run sd (x :: pcm) Hwf Hb) as (b & _ & HD);
      [discriminate|].
    rewrite HD in HC. unfold stream_outcome in HC.
    destruct (run_windows ort_run stream_append sd _ _ _ [])
      as (sd1 & segs & [e1|]) eqn:HR.
    + inversion HC; subst sd' r. cbn [reply_error] in He. inversion He; subst e1.
      assert (Hlens : Forall (fun w => len w = windowSize sd)
                             (windows (Z.to_nat (windowSize sd))
                                      (streamBuf sd ++ x :: pcm))).
      { destruct (windows_is_split (Z.to_nat (windowSize sd)) (streamBuf sd ++ x :: pcm))
          as (_ & Hall & _); [lia|].
        eapply Forall_impl; [|exact Hall]. intros w Hw. cbv beta in Hw.
        unfold len. rewrite Hw. lia. }
      destruct (run_windows_error_kind _ _ _ _ _ _ _ _ _ Hgood Hlens HR) as (-> & ->).
      split; reflexivity.
    + inversion HC; subst sd' r. discriminate.
  - inversion HC; subst. discriminate.
  - inversion HC; subst. discriminate.
Qed.

Lemma windows_app_whole {A} n (a b : list A) :
  (0 < n)%nat -> (length a mod n = 0)%nat ->
  windows n (a ++ b) = windows n a ++ windows n b
  /\ remainder n (a ++ b) = remainder n b.
Proof.
  intros Hn Hmod.
  pose proof (windows_is_split n a Hn) as Sa.
  pose proof (is_split_length n _ _ _ Sa) as HL.
  assert (Hrem : remainder n a = []).
  { destruct Sa as (_ & _ & Hlt). apply length_zero_iff_nil.
    rewrite HL in Hmod.
    rewrite Nat.add_comm, Nat.mul_comm, Nat.Div0.mod_add in Hmod.
    rewrite Nat.mod_small in Hmod by exact Hlt. exact Hmod. }
  rewrite Hrem in Sa.
  pose proof (windows_is_split n ([] ++ b) Hn) as Sb.
  pose proof (is_split_app n _ _ _ _ _ _ Sa Sb) as Sab.
  cbn [app] in Sab.
  destruct (is_split_unique n _ _ _ _ _ (windows_is_split n (a ++ b) Hn) Sab)
    as (E1 & E2).
  split; assumption.
Qed.

Lemma run_windows_succeeded append sd ws mins pad segs sd' segs' :
  run_windows ort_run append sd ws mins pad segs = (sd', (segs', None)) ->
  exists events,
    window_events ort_run sd ws mins pad = (sd', (events, None))
    /\ segs' = fold_left append events segs.
Proof.
  rewrite run_windows_events.
  destruct (window_events ort_run sd ws mins pad) as (sd1 & events & [e|]);
    intros H; inversion H; subst.
  exists events. split; reflexivity.
Qed.

(** X19: [Detect] keeps the trigger, the recurrent state and the sample
    counter from call to call.  When the first input ends on a window
    boundary, two successful calls leave the detector that one call over
    both inputs leaves, and the one call returns the list the second call
    would have built on top of the first call's list. *)
Theorem Detect_resumes sd a b sd1 segs1 sd2 segs2 :
  reachable ort_run sd ->
  len a mod windowSize sd = 0 ->
  Detect ort_run sd a = Some (sd1, (segs1, None)) ->
  Detect ort_run sd1 b = Some (sd2, (segs2, None)) ->
  exists events,
    window_events ort_run sd1 (windows (Z.to_nat (windowSize sd)) b)
      (minSilenceSamplesOf (cfg sd)) (speechPadSamplesOf (cfg sd))
    = (sd2, (events, None))
    /\ segs2 = fold_left batch_append events []
    /\ Detect ort_run sd (a ++ b)
       = Some (sd2, (fold_left batch_append events segs1, None)).
Proof.
  intros H Hmod Ha Hb. destruct (reachable_sound ort_run sd H) as (Hgood & _).
  pose proof (well_formed_windowSize sd (proj1 Hgood)) as Hsz.
  rewrite (Detect_run ort_run sd a (proj1 Hgood)) in Ha.
  destruct (Z.ltb_spec (len a) (windowSize sd)) as [Hsa | Hsa]; [discriminate|].
  inversion Ha as [Ra]. clear Ha.
  destruct (run_windows_good ort_run _ _ _ _ _ _ _ _ _ Hgood Ra)
    as (Hg1 & Hcfg & Hwin & _).
  rewrite (Detect_run ort_run sd1 b (proj1 Hg1)), Hwin, Hcfg in Hb.
  destruct (Z.ltb_spec (len b) (windowSize sd)) as [Hsb | Hsb]; [discriminate|].
  inversion Hb as [Rb]. clear Hb.
  destruct (run_windows_succeeded _ _ _ _ _ _ _ _ Ra) as (e1 & E1 & ->).
  destruct (run_windows_succeeded _ _ _ _ _ _ _ _ Rb) as (e2 & E2 & ->).
  exists e2. split; [exact E2|]. split; [reflexivity|].
  rewrite (Detect_run ort_run sd (a ++ b) (proj1 Hgood)), len_app.
  replace (len a + len b <? windowSize sd) with false
    by (symmetry; apply Z.ltb_ge; lia).
  remember (Z.to_nat (windowSize sd)) as n eqn:En.
  destruct (windows_app_whole n a b) as (-> & _); [lia | |].
  { unfold len in Hmod. apply Nat2Z.inj.
    rewrite Nat2Z.inj_mod, En, Z2Nat.id by lia. exact Hmod. }
  rewrite run_windows_events, window_events_app, E1, E2, fold_left_app.
  reflexivity.
Qed.

(** X20: with nothing carried over and an input of whole windows,
    [DetectStream] processes what [Detect] processes: a successful call
    leaves the same detector, and both lists are built from the same
    events, one by the streaming rule and one by the batch rule. *)
Theorem DetectStream_like_Detect sd pcm sd' segs :
  reachable ort_run sd -> streamBuf sd = [] ->
  len pcm mod windowSize sd = 0 -> windowSize sd <= len pcm ->
  DetectStream ort_run sd pcm = Some (sd', (segs, None)) ->
  exists events,
    segs = fold_left stream_append events []
    /\ Detect ort_run sd pcm
       = Some (sd', (fold_left batch_append events [], None)).
Proof.
  intros H Hbuf Hmod Hlen HD.
  destruct (reachable_sound ort_run sd H) as (Hgood & Hb).
  pose proof (well_formed_windowSize sd (proj1 Hgood)) as Hsz.
  assert (Hne : pcm <> []).
  { intros ->. change (len (@nil F32)) with 0 in Hlen. lia. }
  destruct (DetectStream_run ort_run sd pcm (proj1 Hgood) Hb Hne) as (b & _ & HR).
  rewrite HR in HD. unfold stream_outcome in HD. rewrite Hbuf in HD. cbn [app] in HD.
  remember (Z.to_nat (windowSize sd)) as n eqn:En.
  assert (Hn0 : (0 < n)%nat) by lia.
  destruct (windows_app_whole n pcm []) as (_ & Hrem); [exact Hn0 | |].
  { unfold len in Hmod. apply Nat2Z.inj.
    rewrite Nat2Z.inj_mod, En, Z2Nat.id by lia. exact Hmod. }
  rewrite app_nil_r in Hrem.
  destruct (windows_short n (@nil F32)) as (_ & Hnil); [cbn; lia|].
  rewrite Hnil in Hrem.
  destruct (run_windows ort_run stream_append sd (windows n pcm) _ _ [])
    as (sd1 & segs1 & [e|]) eqn:R; [discriminate|].
  inversion HD; subst sd' segs. clear HD.
  pose proof (run_windows_keeps_streamBuf ort_run stream_append sd (windows n pcm)
                (minSilenceSamplesOf (cfg sd)) (speechPadSamplesOf (cfg sd)) []) as K.
  rewrite R in K. cbn [fst] in K.
  destruct (run_windows_succeeded _ _ _ _ _ _ _ _ R) as (events & E & ->).
  exists events. split; [reflexivity|].
  rewrite (Detect_run ort_run sd pcm (proj1 Hgood)).
  replace (len pcm <? windowSize sd) with false by (symmetry; apply Z.ltb_ge; lia).
  rewrite <- En, run_windows_events, E, Hrem, <- Hbuf, <- K, set_streamBuf_id.
  reflexivity.
Qed.

Lemma no_release_window sd p mins pad :
  below_release sd p = false ->
  exists sd' ev,
    advanceSpeech sd p mins pad = (sd', (ev, None))
    /\ hasEnd ev = false /\ cfg sd' = cfg sd
    /\ (triggered sd = true -> triggered sd' = true).
Proof.
  unfold below_release, advanceSpeech. intros Hlow.
  repeat (simp; first [rewrite Hlow | split_if]); simp;
    eexists; eexists; (split; [reflexivity|]); simp; auto.
Qed.

(** X21: a threshold of at most 0.15 passes [IsValid], and puts the release
    level at or below zero: as long as the probabilities are not negative no
    segment ever ends, so at most one segment is ever opened. *)
Theorem low_threshold_never_ends sd probs mins pad :
  (Threshold (cfg sd) <= releaseGap)%Q ->
  Forall (fun p => (0 <= p)%Q) probs ->
  exists sd' events,
    trigger_run sd probs mins pad = (sd', (events, None))
    /\ Forall (fun ev => hasEnd ev = false) events
    /\ (triggered sd = true -> triggered sd' = true).
Proof.
  intros Hth. revert sd Hth.
  induction probs as [|p probs IH]; intros sd Hth Hall.
  - exists sd, []. repeat split; [constructor | auto].
  - pose proof (Forall_inv Hall) as Hp. cbv beta in Hp.
    pose proof (Forall_inv_tail Hall) as Hrest.
    assert (Hlow : below_release
                     (set_currSample (GoInt.add (currSample sd) (windowSize sd)) sd) p
                   = false).
    { unfold below_release, Qltb. cbn [cfg set_currSample].
      apply negb_false_iff, Qle_bool_iff.
      apply Qle_trans with (y := 0%Q); [|exact Hp].
      apply (Qplus_le_l _ _ releaseGap). ring_simplify. exact Hth. }
    destruct (no_release_window _ p mins pad Hlow) as (sd1 & ev & HA & He & Hcfg & Ht).
    cbn [cfg set_currSample triggered] in Hcfg, Ht.
    destruct (IH sd1) as (sd' & events & HR & Hev & Ht'); [now rewrite Hcfg | exact Hrest |].
    exists sd', (ev :: events). cbn [trigger_run]. unfold advance_window.
    rewrite HA, HR. split; [reflexivity|]. split; [constructor; assumption|].
    intros T. apply Ht', Ht, T.
Qed.

Lemma Infer_accepts_shaped sd w :
  windowSize sd = 256 \/ windowSize sd = 512 ->
  len (inputBuf sd) = contextLen + windowSize sd ->
  len w = windowSize sd ->
  Infer ort_run sd w =
  match ort_run (context sd ++ w) (state sd) (SampleRate (cfg sd)) with
  | None => (set_inputBuf (context sd ++ w) sd, (0%Q, Some ErrOrt))
  | Some (p, stateN) =>
      (set_inputBuf (window_tail w ++ w) (set_state stateN sd), (p, None))
  end.
Proof.
  intros Hws Hb Hlen.
  assert (Hctx : length (context sd) = Z.to_nat contextLen).
  { unfold context, slice_to. rewrite length_firstn.
    unfold len, contextLen in *. lia. }
  unfold Infer. rewrite fix_windowSize_id by lia.
  apply Z.eqb_eq in Hlen as Hlen'. rewrite Hlen'. cbn [negb].
  assert (Ha : GoInt.add contextLen (windowSize sd) = contextLen + windowSize sd).
  { unfold GoInt.add. apply wrap_small.
    unfold GoInt.in_range, GoInt.min_int, GoInt.max_int, contextLen. lia. }
  rewrite Ha. apply Z.eqb_eq in Hb as Hb'. rewrite Hb'. cbn [negb].
  assert (Hc : copy (slice_from (inputBuf sd) contextLen) w = w).
  { apply copy_full. unfold slice_from. rewrite length_skipn.
    unfold len, contextLen in *. lia. }
  rewrite Hc. fold (context sd).
  cbn [inputBuf set_inputBuf state cfg set_state windowSize].
  destruct (ort_run (context sd ++ w) (state sd) (SampleRate (cfg sd)))
    as [[p st]|]; [|reflexivity].
  assert (E1 : slice_to (context sd ++ w) contextLen = context sd).
  { unfold slice_to. now apply firstn_app_exact. }
  assert (E2 : slice_from (context sd ++ w) contextLen = w).
  { unfold slice_from. now apply skipn_app_exact. }
  assert (E3 : slice_from (context sd ++ w) (windowSize sd) = window_tail w).
  { unfold slice_from, window_tail. rewrite skipn_app_ge.
    - f_equal. unfold len, contextLen in *. lia.
    - unfold contextLen in *. lia. }
  rewrite E1, E2, E3.
  rewrite copy_full.
  - reflexivity.
  - unfold window_tail. rewrite length_skipn, Hctx. unfold len, contextLen in *. lia.
Qed.

(** X22: a detector that was not built by [NewDetector], with window size
    0 and no input buffer, is set up by its first [Infer]: the window size
    is taken from the sample rate, 256 for 8000 and 512 for every other
    rate, the input buffer is allocated, and the engine runs on 64 zeros
    followed by the window. *)
Theorem Infer_initialises sd samples :
  windowSize sd = 0 -> inputBuf sd = [] ->
  len samples = windowSizeForSampleRate (SampleRate (cfg sd)) ->
  Infer ort_run sd samples =
  match ort_run (make contextLen ++ samples) (state sd) (SampleRate (cfg sd)) with
  | None =>
      (set_inputBuf (make contextLen ++ samples)
         (set_windowSize (windowSizeForSampleRate (SampleRate (cfg sd))) sd),
       (0%Q, Some ErrOrt))
  | Some (p, stateN) =>
      (set_inputBuf (window_tail samples ++ samples)
         (set_state stateN
            (set_windowSize (windowSizeForSampleRate (SampleRate (cfg sd))) sd)),
       (p, None))
  end.
Proof.
  intros H0 Hbuf Hlen.
  remember (windowSizeForSampleRate (SampleRate (cfg sd))) as ws eqn:Ews.
  assert (Hws : ws = 256 \/ ws = 512).
  { subst ws. unfold windowSizeForSampleRate.
    destruct (SampleRate (cfg sd) =? 8000); auto. }
  remember (set_inputBuf (make (contextLen + ws)) (set_windowSize ws sd)) as sd1 eqn:E1.
  assert (Hsame : Infer ort_run sd samples = Infer ort_run sd1 samples).
  { unfold Infer, fix_windowSize. subst sd1.
    cbn [windowSize set_inputBuf set_windowSize cfg inputBuf state].
    rewrite H0, <- Ews. cbn [Z.eqb].
    replace (ws =? 0) with false by (symmetry; apply Z.eqb_neq; lia).
    cbn [windowSize set_inputBuf set_windowSize cfg inputBuf state].
    apply Z.eqb_eq in Hlen as Hlen'. rewrite Hlen'. cbn [negb].
    assert (Ha : GoInt.add contextLen ws = contextLen + ws).
    { unfold GoInt.add. apply wrap_small.
      unfold GoInt.in_range, GoInt.min_int, GoInt.max_int, contextLen. lia. }
    rewrite Ha, Hbuf.
    replace (len (@nil F32) =? contextLen + ws) with false
      by (symmetry; apply Z.eqb_neq; change (len (@nil F32)) with 0;
          unfold contextLen; lia).
    rewrite len_make by (unfold contextLen; lia). rewrite Z.eqb_refl.
    cbn [negb windowSize set_inputBuf set_windowSize cfg inputBuf state].
    reflexivity. }
  rewrite Hsame, (Infer_accepts_shaped sd1 samples).
  - assert (Hctx : context sd1 = make contextLen).
    { subst sd1. unfold context, slice_to, make. cbn [inputBuf set_inputBuf].
      rewrite firstn_repeat_le; [reflexivity | unfold contextLen; lia]. }
    rewrite Hctx. subst sd1. reflexivity.
  - subst sd1. exact Hws.
  - subst sd1. cbn [inputBuf set_inputBuf windowSize set_windowSize].
    apply len_make. unfold contextLen. lia.
  - subst sd1. exact Hlen.
Qed.

(** X23: when the engine fails on the window that completes the carry-over
    buffer, [DetectStream] returns the error and no segments, and keeps
    that whole window in the carry-over buffer; the recurrent state and the
    sample counter are as before, and the samples of the chunk behind the
    window are dropped. *)
Theorem DetectStream_failure_keeps_window sd pcm :
  reachable ort_run sd -> pcm <> [] -> 0 < len (streamBuf sd) ->
  windowSize sd - len (streamBuf sd) <= len pcm ->
  ort_run (context sd ++ streamBuf sd
             ++ slice_to pcm (windowSize sd - len (streamBuf sd)))
          (state sd) (SampleRate (cfg sd)) = None ->
  exists sd',
    DetectStream ort_run sd pcm = Some (sd', ([], Some (ErrInferFailed ErrOrt)))
    /\ streamBuf sd'
       = streamBuf sd ++ slice_to pcm (windowSize sd - len (streamBuf sd))
    /\ len (streamBuf sd') = windowSize sd
    /\ state sd' = state sd /\ currSample sd' = currSample sd.
Proof.
  intros H Hne Hpos Hneed Hrun.
  destruct (reachable_sound ort_run sd H) as ((Hwf & Hc) & Hb).
  pose proof (well_formed_windowSize sd Hwf) as Hsz.
  remember (streamBuf sd ++ slice_to pcm (windowSize sd - len (streamBuf sd))) as w eqn:Ew.
  assert (Hlw : len w = windowSize sd).
  { subst w. rewrite len_app. unfold slice_to, len. rewrite length_firstn.
    unfold len in *. lia. }
  remember (set_streamBuf w sd) as sd1 eqn:E1.
  assert (Hwf1 : well_formed sd1) by (subst sd1; exact Hwf).
  assert (HI : Infer ort_run sd1 w
               = (set_inputBuf (context sd1 ++ w) sd1, (0%Q, Some ErrOrt))).
  { rewrite (Infer_accepts ort_run sd1 w Hwf1) by (subst sd1; exact Hlw).
    subst sd1. cbn [state cfg set_streamBuf].
    change (context (set_streamBuf w sd)) with (context sd).
    rewrite Hrun. reflexivity. }
  pose proof (processWindow_failed ort_run sd1 w
                (minSilenceSamplesOf (cfg sd)) (speechPadSamplesOf (cfg sd)) _ _ _ HI)
    as HP.
  exists (set_inputBuf (context sd1 ++ w) sd1). split.
  - unfold DetectStream. rewrite (well_formed_fix sd Hwf).
    replace (len pcm =? 0) with false
      by (symmetry; apply Z.eqb_neq; destruct pcm; [congruence|];
          unfold len; cbn [length]; lia).
    replace (0 <? len (streamBuf sd)) with true by (symmetry; apply Z.ltb_lt; lia).
    replace (len pcm <? windowSize sd - len (streamBuf sd)) with false
      by (symmetry; apply Z.ltb_ge; lia).
    rewrite <- Ew, <- E1.
    replace (streamBuf sd1) with w by (subst sd1; reflexivity).
    replace (cfg sd1) with (cfg sd) by (subst sd1; reflexivity).
    rewrite HP. reflexivity.
  - subst sd1. cbn [streamBuf set_inputBuf set_streamBuf state currSample].
    repeat split. exact Hlw.
Qed.

Lemma fold_batch_zero (l : list F32) : forall segs,
  fold_left batch_append (map (fun _ => zero_event) l) segs = segs.
Proof. induction l as [|x l IH]; intros segs; cbn [map fold_left]; [reflexivity|]. apply IH. Qed.

Lemma quiet_run probs : forall sd mins pad,
  triggered sd = false ->
  Forall (fun p => Qltb p (Threshold (cfg sd)) = true) probs ->
  exists sd',
    trigger_run sd probs mins pad = (sd', (map (fun _ => zero_event) probs, None))
    /\ triggered sd' = false /\ tempEnd sd' = tempEnd sd
    /\ pendingStart sd' = pendingStart sd
    /\ pendingStartValid sd' = pendingStartValid sd.
Proof.
  induction probs as [|p probs IH]; intros sd mins pad Ht Hall.
  - exists sd. repeat split. exact Ht.
  - pose proof (Forall_inv Hall) as Hp. cbv beta in Hp.
    pose proof (Forall_inv_tail Hall) as Hrest.
    cbn [trigger_run map]. unfold advance_window.
    rewrite (inert_window (set_currSample _ sd) p mins pad).
    + destruct (IH (set_currSample (GoInt.add (currSample sd) (windowSize sd)) sd)
                  mins pad Ht Hrest) as (sd' & HR & H1 & H2 & H3 & H4).
      rewrite HR. exists sd'. repeat split; assumption.
    + unfold inert. cbn [cfg triggered set_currSample]. rewrite Ht.
      unfold Qltb in Hp. unfold Qgeb. rewrite Hp. reflexivity.
Qed.

(** X24: silence gives no segments: when the detector is not inside a
    segment and every window of the input gets a probability below the
    threshold, [Detect] returns an empty list and no error, and the trigger
    is as before. *)
Theorem Detect_silence sd pcm probs :
  reachable ort_run sd -> triggered sd = false ->
  windowSize sd <= len pcm ->
  infer_probs ort_run sd (windows (Z.to_nat (windowSize sd)) pcm) = probs ->
  length (windows (Z.to_nat (windowSize sd)) pcm) = length probs ->
  Forall (fun p => Qltb p (Threshold (cfg sd)) = true) probs ->
  exists sd',
    Detect ort_run sd pcm = Some (sd', ([], None))
    /\ triggered sd' = false /\ tempEnd sd' = tempEnd sd
    /\ pendingStart sd' = pendingStart sd
    /\ pendingStartValid sd' = pendingStartValid sd.
Proof.
  intros H Ht Hlen Hp Hl Hall.
  destruct (reachable_sound ort_run sd H) as ((Hwf & Hc) & Hb).
  pose proof (well_formed_windowSize sd Hwf) as Hsz.
  rewrite (Detect_run ort_run sd pcm Hwf).
  replace (len pcm <? windowSize sd) with false by (symmetry; apply Z.ltb_ge; lia).
  destruct (run_windows_by_probs ort_run batch_append
              (windows (Z.to_nat (windowSize sd)) pcm) sd sd []
              probs (minSilenceSamplesOf (cfg sd)) (speechPadSamplesOf (cfg sd)))
    as (e1 & R1); try solve [reflexivity | lia | congruence].
  rewrite graft_self in R1. rewrite R1.
  destruct (quiet_run probs sd (minSilenceSamplesOf (cfg sd))
              (speechPadSamplesOf (cfg sd)) Ht Hall)
    as (t' & HR & T1 & T2 & T3 & T4).
  rewrite HR, fold_batch_zero.
  eexists. split; [reflexivity|].
  cbn [graft triggered tempEnd pendingStart pendingStartValid].
  repeat split; congruence.
Qed.

End Behaviour.

(** * Concrete instances *)

Ltac by_computation :=
  vm_compute; first [reflexivity | discriminate | intro; discriminate | lia].

Lemma first_sample_engine_total : engine_total first_sample_engine.
Proof. intros input st rate. discriminate. Defined.

Lemma scenario_sd_new : NewDetector scenario_cfg = inl scenario_sd.
Proof. reflexivity. Defined.

Lemma debounce_sd_reachable : reachable first_sample_engine debounce_sd.
Proof.
  apply (reachable_call _ (new_or_zero debounce_cfg) (CallDetect debounce_pcm) _
           (ReplySegments [ {| SpeechStartAt := 0 # 16000; SpeechEndAt := 0%Q |} ] None)).
  - apply (reachable_new _ debounce_cfg). reflexivity.
  - vm_compute. reflexivity.
Defined.

Lemma speaking_sd_reachable : reachable first_sample_engine speaking_sd.
Proof.
  apply (reachable_call _ (new_or_zero debounce_cfg) (CallDetect (flat_window (6 # 10))) _
           (ReplySegments [ {| SpeechStartAt := 0 # 16000; SpeechEndAt := 0%Q |} ] None)).
  - apply (reachable_new _ debounce_cfg). reflexivity.
  - vm_compute. reflexivity.
Defined.

(** C1, the claim as worded: a padding of [2^57 - 128] ms passes
    [IsValid], its product with the sample rate wraps and the padding in
    samples is [-2048].  With speech in the first three windows and silence
    in the fourth, the end timestamp is [(2048 - 2048) / 16000 = 0]: the
    closing update cannot be told from a start-only one, and the updates
    read back as two segments where [Detect] returns one. *)
Lemma chunking_overflow_counterexample :
  engine_total first_sample_engine
  /\ fresh first_sample_engine overflow_sd
  /\ exists sd_s sd_b,
      stream_chunks first_sample_engine overflow_sd [overflow_pcm]
      = Some (sd_s, ([ {| SpeechStartAt := 2048 # 16000; SpeechEndAt := 0%Q |};
                       {| SpeechStartAt := 2048 # 16000; SpeechEndAt := 0 # 16000 |} ],
                     None))
      /\ Detect first_sample_engine overflow_sd overflow_pcm
         = Some (sd_b, ([ {| SpeechStartAt := 2048 # 16000; SpeechEndAt := 0 # 16000 |} ],
                        None))
      /\ reconstruct [ {| SpeechStartAt := 2048 # 16000; SpeechEndAt := 0%Q |};
                       {| SpeechStartAt := 2048 # 16000; SpeechEndAt := 0 # 16000 |} ]
         <> [ {| SpeechStartAt := 2048 # 16000; SpeechEndAt := 0 # 16000 |} ].
Proof.
  split; [exact first_sample_engine_total|].
  split; [apply (fresh_new _ overflow_cfg); reflexivity|].
  eexists. eexists.
  split; [vm_compute; reflexivity|].
  split; [vm_compute; reflexivity|].
  vm_compute. intro H. discriminate H.
Qed.

Lemma chunking_invariance_witness :
  engine_total first_sample_engine
  /\ fresh first_sample_engine scenario_sd
  /\ concat [firstn 700 scenario_pcm; skipn 700 scenario_pcm] = scenario_pcm
  /\ 0 <= speechPadSamplesOf (cfg scenario_sd)
  /\ len scenario_pcm + speechPadSamplesOf (cfg scenario_sd) <= GoInt.max_int
  /\ exists sd_s updates sd_b segments err,
      stream_chunks first_sample_engine scenario_sd
        [firstn 700 scenario_pcm; skipn 700 scenario_pcm]
      = Some (sd_s, (updates, None))
      /\ Detect first_sample_engine scenario_sd scenario_pcm
         = Some (sd_b, (segments, err))
      /\ reconstruct updates = segments
      /\ (err = None \/ (err = Some ErrNotEnoughSamples /\ segments = [])).
Proof.
  assert (H1 : fresh first_sample_engine scenario_sd)
    by (apply (fresh_new _ scenario_cfg); reflexivity).
  assert (H2 : concat [firstn 700 scenario_pcm; skipn 700 scenario_pcm] = scenario_pcm)
    by by_computation.
  assert (H3 : 0 <= speechPadSamplesOf (cfg scenario_sd)) by by_computation.
  assert (H4 : len scenario_pcm + speechPadSamplesOf (cfg scenario_sd) <= GoInt.max_int)
    by by_computation.
  repeat (split; [assumption || exact first_sample_engine_total|]).
  exact (chunking_invariance first_sample_engine scenario_sd scenario_pcm _
           first_sample_engine_total H1 H2 H3 H4).
Defined.

(** C2, the claim as worded: the segment ends at 0.16 s, not at 0.128 s.
    The window of index 4 is the first below the release level; the end is
    taken after [currSample] has been advanced past it, at the boundary of
    index 5, [5 * 512 / 16000]. *)
Lemma six_window_end_counterexample :
  SampleRate scenario_cfg = 16000 /\ Threshold scenario_cfg = 1 # 2
  /\ MinSilenceDurationMs scenario_cfg = 0 /\ SpeechPadMs scenario_cfg = 0
  /\ NewDetector scenario_cfg = inl scenario_sd
  /\ length scenario_pcm = (6 * 512)%nat
  /\ infer_probs first_sample_engine scenario_sd (windows 512 scenario_pcm)
     = scenario_probs
  /\ exists sd',
      Detect first_sample_engine scenario_sd scenario_pcm
      = Some (sd', ([ {| SpeechStartAt := 1024 # 16000;
                         SpeechEndAt := 2560 # 16000 |} ], None))
      /\ ~ (2560 # 16000 == 128 # 1000)%Q.
Proof.
  repeat (split; [by_computation|]).
  eexists. split; [vm_compute; reflexivity|].
  vm_compute. intro H. discriminate H.
Qed.

Lemma six_window_scenario_witness :
  SampleRate scenario_cfg = 16000 /\ Threshold scenario_cfg = 1 # 2
  /\ MinSilenceDurationMs scenario_cfg = 0 /\ SpeechPadMs scenario_cfg = 0
  /\ NewDetector scenario_cfg = inl scenario_sd
  /\ length scenario_pcm = (6 * 512)%nat
  /\ Forall2 Qeq (infer_probs first_sample_engine scenario_sd (windows 512 scenario_pcm))
                 scenario_probs
  /\ exists sd' seg,
      Detect first_sample_engine scenario_sd scenario_pcm = Some (sd', ([seg], None))
      /\ (SpeechStartAt seg == 64 # 1000)%Q
      /\ (SpeechEndAt seg == 160 # 1000)%Q.
Proof.
  assert (H6 : length scenario_pcm = (6 * 512)%nat) by by_computation.
  assert (H7 : Forall2 Qeq
                 (infer_probs first_sample_engine scenario_sd (windows 512 scenario_pcm))
                 scenario_probs)
    by (vm_compute; repeat constructor).
  repeat (split; [first [reflexivity | assumption]|]).
  exact (six_window_scenario first_sample_engine scenario_cfg scenario_sd scenario_pcm
           eq_refl eq_refl eq_refl eq_refl eq_refl H6 H7).
Defined.

Lemma start_event_timestamp_witness :
  Qgeb (6 # 10) (Threshold (cfg counting_sd)) = true
  /\ triggered counting_sd = false
  /\ exists sd',
      advanceSpeech counting_sd (6 # 10) 0 0
      = (sd', ({| hasStart := true; startAt := start_timestamp counting_sd 0;
                  hasEnd := false; endAt := 0%Q; endStartAt := 0%Q |}, None))
      /\ pendingStart sd' = start_timestamp counting_sd 0
      /\ pendingStartValid sd' = true
      /\ triggered sd' = true.
Proof.
  split; [reflexivity|]. split; [reflexivity|].
  exact (start_event_timestamp counting_sd (6 # 10) 0 0 eq_refl eq_refl).
Defined.

(** C4, the claim as worded: in [debounce_sd] the silence that began at
    sample 1024 is still pending, because the windows after it stayed
    between the release level and the threshold.  One window below the
    release level then ends the segment, although the run of such windows
    has only just begun: the silence is measured from sample 1024, and
    [3072 - 1024 >= 1600]. *)
Lemma debounce_pending_counterexample :
  reachable first_sample_engine debounce_sd
  /\ triggered debounce_sd = true
  /\ Forall (fun q => below_release debounce_sd q = true) [1 # 10]
  /\ (forall k, (k < length [1 # 10])%nat ->
                Z.of_nat k * windowSize debounce_sd
                < minSilenceSamplesOf (cfg debounce_sd))
  /\ Qgeb (6 # 10) (Threshold (cfg debounce_sd)) = true
  /\ exists sd' ev1 ev2,
      trigger_run debounce_sd ([1 # 10] ++ [6 # 10])
                  (minSilenceSamplesOf (cfg debounce_sd))
                  (speechPadSamplesOf (cfg debounce_sd))
      = (sd', ([ev1; ev2], None))
      /\ hasEnd ev1 = true
      /\ ~ (pendingStart sd' == pendingStart debounce_sd)%Q.
Proof.
  split; [exact debounce_sd_reachable|].
  split; [by_computation|].
  split; [repeat constructor|].
  split.
  { intros k Hk. cbn [length] in Hk. assert (k = 0%nat) as -> by lia. by_computation. }
  split; [by_computation|].
  do 3 eexists. split; [vm_compute; reflexivity|].
  split; [reflexivity|].
  vm_compute. intro H. discriminate H.
Qed.

Lemma debounce_holds_witness :
  well_formed speaking_sd
  /\ triggered speaking_sd = true /\ tempEnd speaking_sd = 0
  /\ Forall (fun q => below_release speaking_sd q = true) [1 # 10; 2 # 10]
  /\ (forall k, (k < length [1 # 10; 2 # 10])%nat ->
                Z.of_nat k * windowSize speaking_sd
                < minSilenceSamplesOf (cfg speaking_sd))
  /\ Qgeb (6 # 10) (Threshold (cfg speaking_sd)) = true
  /\ exists sd' events,
      trigger_run speaking_sd ([1 # 10; 2 # 10] ++ [6 # 10])
                  (minSilenceSamplesOf (cfg speaking_sd))
                  (speechPadSamplesOf (cfg speaking_sd))
      = (sd', (events, None))
      /\ Forall (fun ev => hasEnd ev = false) events
      /\ length events = S (length [1 # 10; 2 # 10])
      /\ triggered sd' = true
      /\ pendingStart sd' = pendingStart speaking_sd
      /\ pendingStartValid sd' = pendingStartValid speaking_sd
      /\ tempEnd sd' = 0.
Proof.
  assert (H1 : well_formed speaking_sd).
  { split; [right; by_computation|]. split; by_computation. }
  assert (H2 : triggered speaking_sd = true) by by_computation.
  assert (H3 : tempEnd speaking_sd = 0) by by_computation.
  assert (H4 : Forall (fun q => below_release speaking_sd q = true) [1 # 10; 2 # 10])
    by (repeat constructor).
  assert (H5 : forall k, (k < length [1 # 10; 2 # 10])%nat ->
                         Z.of_nat k * windowSize speaking_sd
                         < minSilenceSamplesOf (cfg speaking_sd)).
  { intros k Hk. cbn [length] in Hk.
    assert (windowSize speaking_sd = 512) as -> by by_computation.
    assert (minSilenceSamplesOf (cfg speaking_sd) = 1600) as -> by by_computation.
    lia. }
  assert (H6 : Qgeb (6 # 10) (Threshold (cfg speaking_sd)) = true) by by_computation.
  repeat (split; [assumption|]).
  exact (debounce_holds speaking_sd [1 # 10; 2 # 10] (6 # 10)
           H1 H2 H3 H4 H5 H6).
Defined.

Lemma Infer_rejects_wrong_length_witness :
  len [1 # 10; 2 # 10] <> windowSize (fix_windowSize scenario_sd)
  /\ Infer first_sample_engine scenario_sd [1 # 10; 2 # 10]
     = (fix_windowSize scenario_sd,
        (0%Q, Some (ErrSamplesLength (windowSize (fix_windowSize scenario_sd))
                                     (len [1 # 10; 2 # 10]))))
  /\ state (fix_windowSize scenario_sd) = state scenario_sd
  /\ inputBuf (fix_windowSize scenario_sd) = inputBuf scenario_sd
  /\ forall other_run,
       Infer other_run scenario_sd [1 # 10; 2 # 10]
       = Infer first_sample_engine scenario_sd [1 # 10; 2 # 10].
Proof.
  assert (H : len [1 # 10; 2 # 10] <> windowSize (fix_windowSize scenario_sd))
    by by_computation.
  split; [exact H|].
  exact (Infer_rejects_wrong_length first_sample_engine scenario_sd [1 # 10; 2 # 10] H).
Defined.

Lemma no_unexpected_speech_end_witness :
  reachable first_sample_engine debounce_sd
  /\ (triggered debounce_sd = true -> pendingStartValid debounce_sd = true)
  /\ (forall curr p mins pad,
        snd (snd (advanceSpeech (set_currSample curr debounce_sd) p mins pad)) = None)
  /\ (forall c sd' r,
        do_call first_sample_engine debounce_sd c = Some (sd', r) ->
        reply_error r <> Some ErrUnexpectedSpeechEnd).
Proof.
  split; [exact debounce_sd_reachable|].
  exact (no_unexpected_speech_end first_sample_engine debounce_sd debounce_sd_reachable).
Defined.

Lemma Detect_insufficient_input_witness :
  reachable first_sample_engine debounce_sd
  /\ len (firstn 511 debounce_pcm) < windowSize debounce_sd
  /\ Detect first_sample_engine debounce_sd (firstn 511 debounce_pcm)
     = Some (debounce_sd, ([], Some ErrNotEnoughSamples))
  /\ (forall other_run,
        Detect other_run debounce_sd (firstn 511 debounce_pcm)
        = Detect first_sample_engine debounce_sd (firstn 511 debounce_pcm))
  /\ (SampleRate (cfg debounce_sd) = 8000 /\ windowSize debounce_sd = 256
      \/ SampleRate (cfg debounce_sd) = 16000 /\ windowSize debounce_sd = 512).
Proof.
  assert (H : len (firstn 511 debounce_pcm) < windowSize debounce_sd) by by_computation.
  split; [exact debounce_sd_reachable|]. split; [exact H|].
  exact (Detect_insufficient_input first_sample_engine debounce_sd
           (firstn 511 debounce_pcm) debounce_sd_reachable H).
Defined.

Lemma Reset_replays_like_new_witness :
  reachable first_sample_engine debounce_sd
  /\ NewDetector (cfg debounce_sd) = inl (new_or_zero debounce_cfg)
  /\ Reset debounce_sd = new_or_zero debounce_cfg
  /\ do_calls first_sample_engine (Reset debounce_sd)
       [CallDetectStream (firstn 700 scenario_pcm); CallDetect scenario_pcm]
     = do_calls first_sample_engine (new_or_zero debounce_cfg)
         [CallDetectStream (firstn 700 scenario_pcm); CallDetect scenario_pcm].
Proof.
  assert (H : NewDetector (cfg debounce_sd) = inl (new_or_zero debounce_cfg))
    by by_computation.
  split; [exact debounce_sd_reachable|]. split; [exact H|].
  exact (Reset_replays_like_new first_sample_engine debounce_sd
           (new_or_zero debounce_cfg) _ debounce_sd_reachable H).
Defined.

Lemma Detect_assembles_events_witness :
  reachable first_sample_engine scenario_sd
  /\ Detect first_sample_engine scenario_sd scenario_pcm
     = Some (after (Detect first_sample_engine scenario_sd scenario_pcm) scenario_sd,
             ([ {| SpeechStartAt := 1024 # 16000; SpeechEndAt := 2560 # 16000 |} ], None))
  /\ exists events,
      window_events first_sample_engine scenario_sd
        (windows (Z.to_nat (windowSize scenario_sd)) scenario_pcm)
        (minSilenceSamplesOf (cfg scenario_sd)) (speechPadSamplesOf (cfg scenario_sd))
      = (after (Detect first_sample_engine scenario_sd scenario_pcm) scenario_sd,
         (events, None))
      /\ [ {| SpeechStartAt := 1024 # 16000; SpeechEndAt := 2560 # 16000 |} ]
         = assemble events.
Proof.
  assert (H1 : reachable first_sample_engine scenario_sd)
    by (apply (reachable_new _ scenario_cfg); reflexivity).
  assert (H2 : Detect first_sample_engine scenario_sd scenario_pcm
               = Some (after (Detect first_sample_engine scenario_sd scenario_pcm)
                             scenario_sd,
                       ([ {| SpeechStartAt := 1024 # 16000;
                             SpeechEndAt := 2560 # 16000 |} ], None)))
    by by_computation.
  split; [exact H1|]. split; [exact H2|].
  exact (Detect_assembles_events first_sample_engine scenario_sd scenario_pcm _ _ H1 H2).
Defined.

Lemma context_invariant_witness :
  reachable first_sample_engine debounce_sd
  /\ len (flat_window (7 # 10)) = windowSize debounce_sd
  /\ Infer first_sample_engine debounce_sd (flat_window (7 # 10))
     = match first_sample_engine (context debounce_sd ++ flat_window (7 # 10))
               (state debounce_sd) (SampleRate (cfg debounce_sd)) with
       | None =>
           (set_inputBuf (context debounce_sd ++ flat_window (7 # 10)) debounce_sd,
            (0%Q, Some ErrOrt))
       | Some (p, stateN) =>
           (set_inputBuf (window_tail (flat_window (7 # 10)) ++ flat_window (7 # 10))
                         (set_state stateN debounce_sd), (p, None))
       end.
Proof.
  assert (H : len (flat_window (7 # 10)) = windowSize debounce_sd) by by_computation.
  split; [exact debounce_sd_reachable|]. split; [exact H|].
  exact (proj1 (proj2 (proj2 (context_invariant first_sample_engine)))
           debounce_sd (flat_window (7 # 10)) debounce_sd_reachable H).
Defined.

(** ** Instances of the further properties *)

Lemma scenario_sd_reachable : reachable first_sample_engine scenario_sd.
Proof. apply (reachable_new _ scenario_cfg). reflexivity. Defined.

Lemma scenario_sd_fresh : fresh first_sample_engine scenario_sd.
Proof. apply (fresh_new _ scenario_cfg). reflexivity. Defined.

Lemma reachable_buffers_witness :
  reachable first_sample_engine debounce_sd
  /\ len (inputBuf debounce_sd) = contextLen + windowSize debounce_sd
  /\ len (streamBuf debounce_sd) <= windowSize debounce_sd
  /\ triggered debounce_sd = pendingStartValid debounce_sd.
Proof.
  split; [exact debounce_sd_reachable|].
  exact (reachable_buffers first_sample_engine debounce_sd debounce_sd_reachable).
Defined.

Lemma calls_return_witness :
  reachable first_sample_engine debounce_sd
  /\ exists sd' r,
      do_call first_sample_engine debounce_sd (CallDetectStream scenario_head)
      = Some (sd', r).
Proof.
  split; [exact debounce_sd_reachable|].
  exact (calls_return first_sample_engine debounce_sd (CallDetectStream scenario_head)
           debounce_sd_reachable).
Defined.

Lemma Detect_ignores_streamBuf_witness :
  reachable first_sample_engine scenario_sd
  /\ Detect first_sample_engine scenario_sd scenario_pcm
     = Some (after (Detect first_sample_engine scenario_sd scenario_pcm) scenario_sd,
             ([scenario_segment], None))
  /\ streamBuf (after (Detect first_sample_engine scenario_sd scenario_pcm) scenario_sd)
     = streamBuf scenario_sd
  /\ forall b,
       Detect first_sample_engine (set_streamBuf b scenario_sd) scenario_pcm
       = Some (set_streamBuf b
                 (after (Detect first_sample_engine scenario_sd scenario_pcm) scenario_sd),
               ([scenario_segment], None)).
Proof.
  assert (H : Detect first_sample_engine scenario_sd scenario_pcm
              = Some (after (Detect first_sample_engine scenario_sd scenario_pcm)
                            scenario_sd, ([scenario_segment], None)))
    by by_computation.
  split; [exact scenario_sd_reachable|]. split; [exact H|].
  exact (Detect_ignores_streamBuf first_sample_engine scenario_sd scenario_pcm _ _
           scenario_sd_reachable H).
Defined.

Lemma Detect_drops_partial_window_witness :
  reachable first_sample_engine scenario_sd
  /\ len scenario_pcm mod windowSize scenario_sd = 0
  /\ windowSize scenario_sd <= len scenario_pcm
  /\ len (firstn 100 scenario_head) < windowSize scenario_sd
  /\ Detect first_sample_engine scenario_sd (scenario_pcm ++ firstn 100 scenario_head)
     = Detect first_sample_engine scenario_sd scenario_pcm.
Proof.
  assert (H1 : len scenario_pcm mod windowSize scenario_sd = 0) by by_computation.
  assert (H2 : windowSize scenario_sd <= len scenario_pcm) by by_computation.
  assert (H3 : len (firstn 100 scenario_head) < windowSize scenario_sd) by by_computation.
  split; [exact scenario_sd_reachable|]. split; [exact H1|]. split; [exact H2|].
  split; [exact H3|].
  exact (Detect_drops_partial_window first_sample_engine scenario_sd scenario_pcm
           (firstn 100 scenario_head) scenario_sd_reachable H1 H2 H3).
Defined.

Lemma DetectStream_keeps_samples_witness :
  reachable first_sample_engine scenario_sd
  /\ scenario_head <> []
  /\ DetectStream first_sample_engine scenario_sd scenario_head
     = Some (after (DetectStream first_sample_engine scenario_sd scenario_head)
                   scenario_sd, ([], None))
  /\ exists ws sd1,
      streamBuf scenario_sd ++ scenario_head
      = concat ws
        ++ streamBuf (after (DetectStream first_sample_engine scenario_sd scenario_head)
                            scenario_sd)
      /\ Forall (fun w => len w = windowSize scenario_sd) ws
      /\ len (streamBuf (after (DetectStream first_sample_engine scenario_sd scenario_head)
                               scenario_sd))
         < windowSize scenario_sd
      /\ run_windows first_sample_engine stream_append scenario_sd ws
           (minSilenceSamplesOf (cfg scenario_sd)) (speechPadSamplesOf (cfg scenario_sd)) []
         = (sd1, ([], None))
      /\ after (DetectStream first_sample_engine scenario_sd scenario_head) scenario_sd
         = set_streamBuf
             (streamBuf (after (DetectStream first_sample_engine scenario_sd scenario_head)
                               scenario_sd)) sd1.
Proof.
  assert (H1 : scenario_head <> []) by by_computation.
  assert (H2 : DetectStream first_sample_engine scenario_sd scenario_head
               = Some (after (DetectStream first_sample_engine scenario_sd scenario_head)
                             scenario_sd, ([], None)))
    by by_computation.
  split; [exact scenario_sd_reachable|]. split; [exact H1|]. split; [exact H2|].
  exact (DetectStream_keeps_samples first_sample_engine scenario_sd scenario_head _ _
           scenario_sd_reachable H1 H2).
Defined.

Lemma stream_chunks_concat_witness :
  reachable first_sample_engine scenario_sd
  /\ len (streamBuf scenario_sd) < windowSize scenario_sd
  /\ stream_chunks first_sample_engine scenario_sd
       [concat [scenario_head; []; scenario_tail]]
     = Some (after (stream_chunks first_sample_engine scenario_sd [scenario_pcm])
                   scenario_sd, ([scenario_open; scenario_segment], None))
  /\ stream_chunks first_sample_engine scenario_sd [scenario_head; []; scenario_tail]
     = Some (after (stream_chunks first_sample_engine scenario_sd [scenario_pcm])
                   scenario_sd, ([scenario_open; scenario_segment], None)).
Proof.
  assert (H1 : len (streamBuf scenario_sd) < windowSize scenario_sd) by by_computation.
  assert (H2 : stream_chunks first_sample_engine scenario_sd
                 [concat [scenario_head; []; scenario_tail]]
               = Some (after (stream_chunks first_sample_engine scenario_sd [scenario_pcm])
                             scenario_sd, ([scenario_open; scenario_segment], None)))
    by by_computation.
  split; [exact scenario_sd_reachable|]. split; [exact H1|]. split; [exact H2|].
  exact (stream_chunks_concat first_sample_engine scenario_sd
           [scenario_head; []; scenario_tail] _ _ scenario_sd_reachable H1 H2).
Defined.

Lemma one_update_per_window_witness :
  reachable first_sample_engine scenario_sd
  /\ DetectStream first_sample_engine scenario_sd scenario_pcm
     = Some (after (DetectStream first_sample_engine scenario_sd scenario_pcm)
                   scenario_sd, ([scenario_open; scenario_segment], None))
  /\ len [scenario_open; scenario_segment] * windowSize scenario_sd
     <= len (streamBuf scenario_sd) + len scenario_pcm.
Proof.
  assert (H : DetectStream first_sample_engine scenario_sd scenario_pcm
              = Some (after (DetectStream first_sample_engine scenario_sd scenario_pcm)
                            scenario_sd, ([scenario_open; scenario_segment], None)))
    by by_computation.
  split; [exact scenario_sd_reachable|]. split; [exact H|].
  exact (one_update_per_window first_sample_engine scenario_sd scenario_pcm _ _
           scenario_sd_reachable H).
Defined.

Lemma segments_follow_probabilities_witness :
  reachable first_sample_engine scenario_sd
  /\ infer_probs first_sample_engine scenario_sd
       (windows (Z.to_nat (windowSize scenario_sd)) scenario_pcm) = scenario_probs
  /\ infer_probs first_sample_engine scenario_sd
       (windows (Z.to_nat (windowSize scenario_sd)) spiky_pcm) = scenario_probs
  /\ length (windows (Z.to_nat (windowSize scenario_sd)) scenario_pcm)
     = length scenario_probs
  /\ length (windows (Z.to_nat (windowSize scenario_sd)) spiky_pcm)
     = length scenario_probs
  /\ option_map snd (Detect first_sample_engine scenario_sd scenario_pcm)
     = option_map snd (Detect first_sample_engine scenario_sd spiky_pcm).
Proof.
  assert (H1 : infer_probs first_sample_engine scenario_sd
                 (windows (Z.to_nat (windowSize scenario_sd)) scenario_pcm)
               = scenario_probs) by by_computation.
  assert (H2 : infer_probs first_sample_engine scenario_sd
                 (windows (Z.to_nat (windowSize scenario_sd)) spiky_pcm)
               = scenario_probs) by by_computation.
  assert (H3 : length (windows (Z.to_nat (windowSize scenario_sd)) scenario_pcm)
               = length scenario_probs) by by_computation.
  assert (H4 : length (windows (Z.to_nat (windowSize scenario_sd)) spiky_pcm)
               = length scenario_probs) by by_computation.
  split; [exact scenario_sd_reachable|].
  split; [exact H1|]. split; [exact H2|]. split; [exact H3|]. split; [exact H4|].
  exact (segments_follow_probabilities first_sample_engine first_sample_engine
           scenario_sd scenario_pcm spiky_pcm scenario_probs
           scenario_sd_reachable H1 H2 H3 H4).
Defined.

Lemma Detect_advances_counter_witness :
  reachable first_sample_engine debounce_sd
  /\ Detect first_sample_engine debounce_sd scenario_pcm
     = Some (after (Detect first_sample_engine debounce_sd scenario_pcm) debounce_sd,
             ([ {| SpeechStartAt := 0 # 16000; SpeechEndAt := 1024 # 16000 |};
                {| SpeechStartAt := 3584 # 16000; SpeechEndAt := 0%Q |} ], None))
  /\ currSample (after (Detect first_sample_engine debounce_sd scenario_pcm) debounce_sd)
     = GoInt.wrap (currSample debounce_sd
                   + windowSize debounce_sd * (len scenario_pcm / windowSize debounce_sd)).
Proof.
  assert (H : Detect first_sample_engine debounce_sd scenario_pcm
              = Some (after (Detect first_sample_engine debounce_sd scenario_pcm)
                            debounce_sd,
                      ([ {| SpeechStartAt := 0 # 16000; SpeechEndAt := 1024 # 16000 |};
                         {| SpeechStartAt := 3584 # 16000; SpeechEndAt := 0%Q |} ], None)))
    by by_computation.
  split; [exact debounce_sd_reachable|]. split; [exact H|].
  exact (Detect_advances_counter first_sample_engine debounce_sd scenario_pcm _ _
           debounce_sd_reachable H).
Defined.

Lemma Infer_threads_state_witness :
  reachable first_sample_engine scenario_sd
  /\ len (flat_window (6 # 10)) = windowSize scenario_sd
  /\ len (flat_window (1 # 10)) = windowSize scenario_sd
  /\ first_sample_engine (context scenario_sd ++ flat_window (6 # 10))
       (state scenario_sd) (SampleRate (cfg scenario_sd))
     = Some (6 # 10, zero_state)
  /\ exists sd1,
      Infer first_sample_engine scenario_sd (flat_window (6 # 10))
      = (sd1, (6 # 10, None))
      /\ state sd1 = zero_state
      /\ Infer first_sample_engine sd1 (flat_window (1 # 10))
         = match first_sample_engine
                   (window_tail (flat_window (6 # 10)) ++ flat_window (1 # 10))
                   zero_state (SampleRate (cfg scenario_sd)) with
           | None =>
               (set_inputBuf (window_tail (flat_window (6 # 10)) ++ flat_window (1 # 10))
                             sd1, (0%Q, Some ErrOrt))
           | Some (p2, s2) =>
               (set_inputBuf (window_tail (flat_window (1 # 10)) ++ flat_window (1 # 10))
                             (set_state s2 sd1), (p2, None))
           end.
Proof.
  assert (H1 : len (flat_window (6 # 10)) = windowSize scenario_sd) by by_computation.
  assert (H2 : len (flat_window (1 # 10)) = windowSize scenario_sd) by by_computation.
  assert (H3 : first_sample_engine (context scenario_sd ++ flat_window (6 # 10))
                 (state scenario_sd) (SampleRate (cfg scenario_sd))
               = Some (6 # 10, zero_state)) by by_computation.
  split; [exact scenario_sd_reachable|].
  split; [exact H1|]. split; [exact H2|]. split; [exact H3|].
  exact (Infer_threads_state first_sample_engine scenario_sd _ _ _ _
           scenario_sd_reachable H1 H2 H3).
Defined.

Lemma inert_windows_ignored_witness :
  Forall (fun p => inert debounce_sd p = true) [4 # 10; 45 # 100]
  /\ exists sd',
      trigger_run debounce_sd [4 # 10; 45 # 100] 1600 0
      = (sd', (map (fun _ => zero_event) [4 # 10; 45 # 100], None))
      /\ cfg sd' = cfg debounce_sd /\ triggered sd' = triggered debounce_sd
      /\ tempEnd sd' = tempEnd debounce_sd
      /\ pendingStart sd' = pendingStart debounce_sd
      /\ pendingStartValid sd' = pendingStartValid debounce_sd.
Proof.
  assert (H : Forall (fun p => inert debounce_sd p = true) [4 # 10; 45 # 100])
    by (repeat (constructor; [by_computation|]); constructor).
  split; [exact H|].
  exact (inert_windows_ignored debounce_sd [4 # 10; 45 # 100] 1600 0 H).
Defined.


Lemma Detect_segments_shape_witness :
  engine_total first_sample_engine /\ fresh first_sample_engine scenario_sd
  /\ 0 <= speechPadSamplesOf (cfg scenario_sd)
  /\ len scenario_first_half + speechPadSamplesOf (cfg scenario_sd) <= GoInt.max_int
  /\ Detect first_sample_engine scenario_sd scenario_first_half
     = Some (after (Detect first_sample_engine scenario_sd scenario_first_half)
                   scenario_sd, ([scenario_open], None))
  /\ well_shaped
       (pendingStartValid
          (after (Detect first_sample_engine scenario_sd scenario_first_half) scenario_sd))
       (pendingStart
          (after (Detect first_sample_engine scenario_sd scenario_first_half) scenario_sd))
       [scenario_open].
Proof.
  assert (H1 : 0 <= speechPadSamplesOf (cfg scenario_sd)) by by_computation.
  assert (H2 : len scenario_first_half + speechPadSamplesOf (cfg scenario_sd)
               <= GoInt.max_int) by by_computation.
  assert (H3 : Detect first_sample_engine scenario_sd scenario_first_half
               = Some (after (Detect first_sample_engine scenario_sd scenario_first_half)
                             scenario_sd, ([scenario_open], None))) by by_computation.
  split; [exact first_sample_engine_total|]. split; [exact scenario_sd_fresh|].
  split; [exact H1|]. split; [exact H2|]. split; [exact H3|].
  exact (Detect_segments_shape first_sample_engine scenario_sd scenario_first_half _ _
           first_sample_engine_total scenario_sd_fresh H1 H2 H3).
Defined.

Lemma Infer_failure_keeps_state_witness :
  reachable failing_engine scenario_sd
  /\ Infer failing_engine scenario_sd (flat_window (6 # 10))
     = (fst (Infer failing_engine scenario_sd (flat_window (6 # 10))),
        (0%Q, Some ErrOrt))
  /\ 0%Q = 0%Q
  /\ state (fst (Infer failing_engine scenario_sd (flat_window (6 # 10))))
     = state scenario_sd
  /\ (ErrOrt = ErrOrt ->
      inputBuf (fst (Infer failing_engine scenario_sd (flat_window (6 # 10))))
      = context scenario_sd ++ flat_window (6 # 10)).
Proof.
  assert (H1 : reachable failing_engine scenario_sd)
    by (apply (reachable_new _ scenario_cfg); reflexivity).
  assert (H2 : Infer failing_engine scenario_sd (flat_window (6 # 10))
               = (fst (Infer failing_engine scenario_sd (flat_window (6 # 10))),
                  (0%Q, Some ErrOrt))) by by_computation.
  split; [exact H1|]. split; [exact H2|].
  exact (Infer_failure_keeps_state failing_engine scenario_sd (flat_window (6 # 10))
           _ _ _ H1 H2).
Defined.

Lemma errors_of_calls_witness :
  reachable first_sample_engine scenario_sd
  /\ do_call first_sample_engine scenario_sd (CallDetect (firstn 100 scenario_head))
     = Some (scenario_sd, ReplySegments [] (Some ErrNotEnoughSamples))
  /\ reply_error (ReplySegments [] (Some ErrNotEnoughSamples))
     = Some ErrNotEnoughSamples
  /\ ReplySegments [] (Some ErrNotEnoughSamples)
     = ReplySegments [] (Some ErrNotEnoughSamples)
  /\ ((len (firstn 100 scenario_head) < windowSize scenario_sd
       /\ ErrNotEnoughSamples = ErrNotEnoughSamples /\ scenario_sd = scenario_sd)
      \/ ErrNotEnoughSamples = ErrInferFailed ErrOrt).
Proof.
  assert (H : do_call first_sample_engine scenario_sd
                (CallDetect (firstn 100 scenario_head))
              = Some (scenario_sd, ReplySegments [] (Some ErrNotEnoughSamples)))
    by by_computation.
  split; [exact scenario_sd_reachable|]. split; [exact H|].
  split; [reflexivity|].
  exact (errors_of_calls first_sample_engine scenario_sd
           (CallDetect (firstn 100 scenario_head)) _ _ _ scenario_sd_reachable H eq_refl).
Defined.

Lemma Detect_resumes_witness :
  reachable first_sample_engine scenario_sd
  /\ len scenario_first_half mod windowSize scenario_sd = 0
  /\ Detect first_sample_engine scenario_sd scenario_first_half
     = Some (after (Detect first_sample_engine scenario_sd scenario_first_half)
                   scenario_sd, ([scenario_open], None))
  /\ Detect first_sample_engine
       (after (Detect first_sample_engine scenario_sd scenario_first_half) scenario_sd)
       scenario_second_half
     = Some (after (Detect first_sample_engine scenario_sd scenario_pcm) scenario_sd,
             ([scenario_segment], None))
  /\ exists events,
      window_events first_sample_engine
        (after (Detect first_sample_engine scenario_sd scenario_first_half) scenario_sd)
        (windows (Z.to_nat (windowSize scenario_sd)) scenario_second_half)
        (minSilenceSamplesOf (cfg scenario_sd)) (speechPadSamplesOf (cfg scenario_sd))
      = (after (Detect first_sample_engine scenario_sd scenario_pcm) scenario_sd,
         (events, None))
      /\ [scenario_segment] = fold_left batch_append events []
      /\ Detect first_sample_engine scenario_sd
           (scenario_first_half ++ scenario_second_half)
         = Some (after (Detect first_sample_engine scenario_sd scenario_pcm) scenario_sd,
                 (fold_left batch_append events [scenario_open], None)).
Proof.
  assert (H1 : len scenario_first_half mod windowSize scenario_sd = 0) by by_computation.
  assert (H2 : Detect first_sample_engine scenario_sd scenario_first_half
               = Some (after (Detect first_sample_engine scenario_sd scenario_first_half)
                             scenario_sd, ([scenario_open], None))) by by_computation.
  assert (H3 : Detect first_sample_engine
                 (after (Detect first_sample_engine scenario_sd scenario_first_half)
                        scenario_sd) scenario_second_half
               = Some (after (Detect first_sample_engine scenario_sd scenario_pcm)
                             scenario_sd, ([scenario_segment], None))) by by_computation.
  split; [exact scenario_sd_reachable|].
  split; [exact H1|]. split; [exact H2|]. split; [exact H3|].
  exact (Detect_resumes first_sample_engine scenario_sd _ _ _ _ _ _
           scenario_sd_reachable H1 H2 H3).
Defined.

Lemma DetectStream_like_Detect_witness :
  reachable first_sample_engine scenario_sd /\ streamBuf scenario_sd = []
  /\ len scenario_pcm mod windowSize scenario_sd = 0
  /\ windowSize scenario_sd <= len scenario_pcm
  /\ DetectStream first_sample_engine scenario_sd scenario_pcm
     = Some (after (Detect first_sample_engine scenario_sd scenario_pcm) scenario_sd,
             ([scenario_open; scenario_segment], None))
  /\ exists events,
      [scenario_open; scenario_segment] = fold_left stream_append events []
      /\ Detect first_sample_engine scenario_sd scenario_pcm
         = Some (after (Detect first_sample_engine scenario_sd scenario_pcm) scenario_sd,
                 (fold_left batch_append events [], None)).
Proof.
  assert (H1 : len scenario_pcm mod windowSize scenario_sd = 0) by by_computation.
  assert (H2 : windowSize scenario_sd <= len scenario_pcm) by by_computation.
  assert (H3 : DetectStream first_sample_engine scenario_sd scenario_pcm
               = Some (after (Detect first_sample_engine scenario_sd scenario_pcm)
                             scenario_sd, ([scenario_open; scenario_segment], None)))
    by by_computation.
  split; [exact scenario_sd_reachable|]. split; [reflexivity|].
  split; [exact H1|]. split; [exact H2|]. split; [exact H3|].
  exact (DetectStream_like_Detect first_sample_engine scenario_sd scenario_pcm _ _
           scenario_sd_reachable eq_refl H1 H2 H3).
Defined.

Lemma low_threshold_never_ends_witness :
  (Threshold (cfg low_threshold_sd) <= releaseGap)%Q
  /\ Forall (fun p => (0 <= p)%Q) [6 # 10; 0%Q; 3 # 10]
  /\ exists sd' events,
      trigger_run low_threshold_sd [6 # 10; 0%Q; 3 # 10] 0 0 = (sd', (events, None))
      /\ Forall (fun ev => hasEnd ev = false) events
      /\ (triggered low_threshold_sd = true -> triggered sd' = true).
Proof.
  assert (H1 : (Threshold (cfg low_threshold_sd) <= releaseGap)%Q) by by_computation.
  assert (H2 : Forall (fun p => (0 <= p)%Q) [6 # 10; 0%Q; 3 # 10])
    by (repeat (constructor; [by_computation|]); constructor).
  split; [exact H1|]. split; [exact H2|].
  exact (low_threshold_never_ends low_threshold_sd [6 # 10; 0%Q; 3 # 10] 0 0 H1 H2).
Defined.

Lemma buffering_sd_reachable : reachable failing_engine buffering_sd.
Proof.
  apply (reachable_call _ scenario_sd (CallDetectStream (firstn 100 scenario_pcm)) _
           (ReplySegments [] None)).
  - apply (reachable_new _ scenario_cfg). reflexivity.
  - vm_compute. reflexivity.
Defined.

Lemma Infer_initialises_witness :
  windowSize blank_sd = 0 /\ inputBuf blank_sd = []
  /\ len (flat_window (6 # 10)) = windowSizeForSampleRate (SampleRate (cfg blank_sd))
  /\ Infer first_sample_engine blank_sd (flat_window (6 # 10))
     = match first_sample_engine (make contextLen ++ flat_window (6 # 10))
               (state blank_sd) (SampleRate (cfg blank_sd)) with
       | None =>
           (set_inputBuf (make contextLen ++ flat_window (6 # 10))
              (set_windowSize (windowSizeForSampleRate (SampleRate (cfg blank_sd)))
                 blank_sd),
            (0%Q, Some ErrOrt))
       | Some (p, stateN) =>
           (set_inputBuf (window_tail (flat_window (6 # 10)) ++ flat_window (6 # 10))
              (set_state stateN
                 (set_windowSize (windowSizeForSampleRate (SampleRate (cfg blank_sd)))
                    blank_sd)),
            (p, None))
       end.
Proof.
  assert (H : len (flat_window (6 # 10))
              = windowSizeForSampleRate (SampleRate (cfg blank_sd))) by by_computation.
  split; [reflexivity|]. split; [reflexivity|]. split; [exact H|].
  exact (Infer_initialises first_sample_engine blank_sd (flat_window (6 # 10))
           eq_refl eq_refl H).
Defined.

Lemma DetectStream_failure_keeps_window_witness :
  reachable failing_engine buffering_sd /\ scenario_pcm <> []
  /\ 0 < len (streamBuf buffering_sd)
  /\ windowSize buffering_sd - len (streamBuf buffering_sd) <= len scenario_pcm
  /\ failing_engine
       (context buffering_sd ++ streamBuf buffering_sd
          ++ slice_to scenario_pcm (windowSize buffering_sd - len (streamBuf buffering_sd)))
       (state buffering_sd) (SampleRate (cfg buffering_sd)) = None
  /\ exists sd',
      DetectStream failing_engine buffering_sd scenario_pcm
      = Some (sd', ([], Some (ErrInferFailed ErrOrt)))
      /\ streamBuf sd'
         = streamBuf buffering_sd
           ++ slice_to scenario_pcm
                (windowSize buffering_sd - len (streamBuf buffering_sd))
      /\ len (streamBuf sd') = windowSize buffering_sd
      /\ state sd' = state buffering_sd
      /\ currSample sd' = currSample buffering_sd.
Proof.
  assert (H1 : scenario_pcm <> []) by by_computation.
  assert (H2 : 0 < len (streamBuf buffering_sd)) by by_computation.
  assert (H3 : windowSize buffering_sd - len (streamBuf buffering_sd) <= len scenario_pcm)
    by by_computation.
  split; [exact buffering_sd_reachable|].
  split; [exact H1|]. split; [exact H2|]. split; [exact H3|]. split; [reflexivity|].
  exact (DetectStream_failure_keeps_window failing_engine buffering_sd scenario_pcm
           buffering_sd_reachable H1 H2 H3 eq_refl).
Defined.

Lemma Detect_silence_witness :
  reachable first_sample_engine scenario_sd /\ triggered scenario_sd = false
  /\ windowSize scenario_sd <= len quiet_pcm
  /\ infer_probs first_sample_engine scenario_sd
       (windows (Z.to_nat (windowSize scenario_sd)) quiet_pcm) = [1 # 10; 2 # 10]
  /\ length (windows (Z.to_nat (windowSize scenario_sd)) quiet_pcm)
     = length [1 # 10; 2 # 10]
  /\ Forall (fun p => Qltb p (Threshold (cfg scenario_sd)) = true) [1 # 10; 2 # 10]
  /\ exists sd',
      Detect first_sample_engine scenario_sd quiet_pcm = Some (sd', ([], None))
      /\ triggered sd' = false /\ tempEnd sd' = tempEnd scenario_sd
      /\ pendingStart sd' = pendingStart scenario_sd
      /\ pendingStartValid sd' = pendingStartValid scenario_sd.
Proof.
  assert (H1 : windowSize scenario_sd <= len quiet_pcm) by by_computation.
  assert (H2 : infer_probs first_sample_engine scenario_sd
                 (windows (Z.to_nat (windowSize scenario_sd)) quiet_pcm)
               = [1 # 10; 2 # 10]) by by_computation.
  assert (H3 : length (windows (Z.to_nat (windowSize scenario_sd)) quiet_pcm)
               = length [1 # 10; 2 # 10]) by by_computation.
  assert (H4 : Forall (fun p => Qltb p (Threshold (cfg scenario_sd)) = true)
                      [1 # 10; 2 # 10])
    by (repeat (constructor; [by_computation|]); constructor).
  split; [exact scenario_sd_reachable|]. split; [reflexivity|].
  split; [exact H1|]. split; [exact H2|]. split; [exact H3|]. split; [exact H4|].
  exact (Detect_silence first_sample_engine scenario_sd quiet_pcm _
           scenario_sd_reachable eq_refl H1 H2 H3 H4).
Defined.
